(** * PEARL latent-task inference networks: a shallow embedding

    The development follows [pearl/algorithm/networks.py] (the context
    encoder [MLPEncoder] and the policy [TanhGaussianPolicy]),
    [maml/algorithm/networks.py] (the policy [GaussianPolicy]) and
    [pearl/trainer.py].

    Modelling conventions.
    - A tensor is a shape together with its entries in row-major order,
      as a contiguous torch tensor stores them.  Entries are real numbers:
      rounding, overflow, infinities and NaN of IEEE arithmetic are outside
      the model, so a statement below is about the real-valued function
      the code computes, unless it names [float32], the binary32 number a
      tensor holds for a real value.
    - A Python exception is a [Raise] in a small result monad.
    - The standard-normal draws of [rsample] are an explicit input. *)

From Stdlib Require Import Ascii String ZArith Reals Lra Lia Arith PeanoNat Bool List.
Import ListNotations.

(** ** Exceptions and the result monad *)

Inductive exn : Type :=
| ShapeError                        (* torch: RuntimeError / IndexError on shapes *)
| ValueError                        (* torch.distributions argument validation *)
| TypeError
| KeyError (key : string)
| NameError (name : string)
| UnboundLocalError (name : string)
| NotImplementedError.

Inductive result (A : Type) : Type :=
| Ok (a : A)
| Raise (e : exn).

Arguments Ok {A} a.
Arguments Raise {A} e.

Definition bind {A B : Type} (m : result A) (k : A -> result B) : result B :=
  match m with
  | Ok a => k a
  | Raise e => Raise e
  end.

Notation "x <- m ;; k" := (bind m (fun x => k))
  (at level 61, m at next level, right associativity).
Notation "' p <- m ;; k" := (bind m (fun x => match x with p => k end))
  (at level 61, p pattern, m at next level, right associativity).

Fixpoint mapM {A B : Type} (f : A -> result B) (l : list A) : result (list B) :=
  match l with
  | [] => Ok []
  | a :: l' => b <- f a ;; bs <- mapM f l' ;; Ok (b :: bs)
  end.

(** ** The fragment of torch the networks use *)

Module Torch.

Record Tensor : Type := mkTensor { shape : list nat; data : list R }.

Definition numel (s : list nat) : nat := fold_right Nat.mul 1%nat s.

(** A tensor is well formed when it has as many entries as its shape says. *)
Definition wf (t : Tensor) : Prop := length (data t) = numel (shape t).

(** [chunks n w l]: the first [n] consecutive blocks of [w] entries of [l]. *)
Fixpoint chunks (n w : nat) (l : list R) : list (list R) :=
  match n with
  | O => []
  | S n' => firstn w l :: chunks n' w (skipn w l)
  end.

Fixpoint zipWith (f : R -> R -> R) (a b : list R) : list R :=
  match a, b with
  | x :: a', y :: b' => f x y :: zipWith f a' b'
  | _, _ => []
  end.

Definition list_eqb (s1 s2 : list nat) : bool :=
  if list_eq_dec Nat.eq_dec s1 s2 then true else false.

(** [torch.zeros] and [torch.ones] of a given shape. *)
Definition full (s : list nat) (v : R) : Tensor := mkTensor s (repeat v (numel s)).
Definition zeros (s : list nat) : Tensor := full s 0%R.
Definition ones (s : list nat) : Tensor := full s 1%R.

(** Pointwise unary operations ([torch.sqrt], [torch.exp], [F.softplus],
    [torch.clamp], [c * t], [c / t], ...). *)
Definition tmap (f : R -> R) (t : Tensor) : Tensor :=
  mkTensor (shape t) (map f (data t)).

(** *** Broadcasting binary operations *)

Definition pad_shape (r : nat) (s : list nat) : list nat :=
  repeat 1%nat (r - length s) ++ s.

Fixpoint broadcast_shape (sa sb : list nat) : option (list nat) :=
  match sa, sb with
  | [], [] => Some []
  | da :: sa', db :: sb' =>
      match broadcast_shape sa' sb' with
      | None => None
      | Some s =>
          if (da =? db)%nat then Some (da :: s)
          else if (da =? 1)%nat then Some (db :: s)
          else if (db =? 1)%nat then Some (da :: s)
          else None
      end
  | _, _ => None
  end.

Fixpoint bzip (f : R -> R -> R) (sa sb : list nat) (a b : list R) : list R :=
  match sa, sb with
  | da :: sa', db :: sb' =>
      let ca := chunks da (numel sa') a in
      let cb := chunks db (numel sb') b in
      if (da =? db)%nat
      then concat (map (fun xy => bzip f sa' sb' (fst xy) (snd xy)) (combine ca cb))
      else if (da =? 1)%nat
      then concat (map (fun y => bzip f sa' sb' a y) cb)
      else concat (map (fun x => bzip f sa' sb' x b) ca)
  | _, _ => zipWith f a b
  end.

(** [a + b], [a - b], [a * b], [a / b] on tensors. *)
Definition tzip (f : R -> R -> R) (a b : Tensor) : result Tensor :=
  let r := Nat.max (length (shape a)) (length (shape b)) in
  let sa := pad_shape r (shape a) in
  let sb := pad_shape r (shape b) in
  match broadcast_shape sa sb with
  | Some s => Ok (mkTensor s (bzip f sa sb (data a) (data b)))
  | None => Raise ShapeError
  end.

Definition tadd := tzip Rplus.
Definition tsub := tzip Rminus.
Definition tmul := tzip Rmult.
Definition tdiv := tzip Rdiv.

(** *** Structure *)

(** [torch.unbind(t)] (along dimension 0). *)
Definition unbind (t : Tensor) : result (list Tensor) :=
  match shape t with
  | [] => Raise ShapeError
  | d :: s => Ok (map (mkTensor s) (chunks d (numel s) (data t)))
  end.

(** [torch.stack(ts)] (along a new dimension 0). *)
Definition stack (ts : list Tensor) : result Tensor :=
  match ts with
  | [] => Raise ShapeError
  | t0 :: _ =>
      if forallb (fun t => list_eqb (shape t) (shape t0)) ts
      then Ok (mkTensor (length ts :: shape t0) (concat (map data ts)))
      else Raise ShapeError
  end.

(** [torch.sum(t, dim=0)]. *)
Definition sum_dim0 (t : Tensor) : Tensor :=
  match shape t with
  | [] => t
  | d :: s =>
      mkTensor s (fold_left (zipWith Rplus) (chunks d (numel s) (data t))
                            (repeat 0%R (numel s)))
  end.

Definition sum_list (l : list R) : R := fold_left Rplus l 0%R.

(** [t.sum()]. *)
Definition sum_all (t : Tensor) : Tensor := mkTensor [] [sum_list (data t)].

(** [t.sum(-1, keepdim=True)]. *)
Definition sum_last_keepdim (t : Tensor) : Tensor :=
  match shape t with
  | [] => t
  | _ :: _ =>
      let s := removelast (shape t) in
      let w := last (shape t) 0%nat in
      mkTensor (s ++ [1%nat]) (map sum_list (chunks (numel s) w (data t)))
  end.

(** [t[..., :k]] and [t[..., k:]] for [k >= 0]. *)
Definition slice_last_to (k : nat) (t : Tensor) : result Tensor :=
  match shape t with
  | [] => Raise ShapeError
  | _ :: _ =>
      let s := removelast (shape t) in
      let w := last (shape t) 0%nat in
      Ok (mkTensor (s ++ [Nat.min k w])
                   (concat (map (firstn k) (chunks (numel s) w (data t)))))
  end.

Definition slice_last_from (k : nat) (t : Tensor) : result Tensor :=
  match shape t with
  | [] => Raise ShapeError
  | _ :: _ =>
      let s := removelast (shape t) in
      let w := last (shape t) 0%nat in
      Ok (mkTensor (s ++ [w - k])
                   (concat (map (skipn k) (chunks (numel s) w (data t)))))
  end.

(** [t.view(d0, -1, d2)]: the middle dimension is inferred; torch refuses
    the call when the known dimensions multiply to zero or do not divide
    the number of entries. *)
Definition view3 (d0 d2 : nat) (t : Tensor) : result Tensor :=
  let n := numel (shape t) in
  let known := (d0 * d2)%nat in
  if (0 <? known)%nat && (n mod known =? 0)%nat
  then Ok (mkTensor [d0; (n / known)%nat; d2] (data t))
  else Raise ShapeError.

(** [t.view(-1)]. *)
Definition view_flat (t : Tensor) : Tensor :=
  mkTensor [numel (shape t)] (data t).

(** [torch.cat(ts, dim=-1)]: the tensors agree on all dimensions but the
    last; row [i] of the result is row [i] of each tensor, in order. *)
Definition cat_last (ts : list Tensor) : result Tensor :=
  match ts with
  | [] => Raise ShapeError
  | t0 :: _ =>
      let s := removelast (shape t0) in
      if forallb (fun t => negb (list_eqb (shape t) []) &&
                           list_eqb (removelast (shape t)) s) ts
      then Ok (mkTensor
                 (s ++ [list_sum (map (fun t => last (shape t) 0%nat) ts)])
                 (concat
                    (map (fun i =>
                            concat
                              (map (fun t =>
                                      nth i (chunks (numel s)
                                                    (last (shape t) 0%nat)
                                                    (data t)) [])
                                   ts))
                         (seq 0 (numel s)))))
      else Raise ShapeError
  end.

(** *** [nn.Linear] *)

Record Linear : Type := mkLinear { weight : Tensor; bias : Tensor }.

Definition dot (w x : list R) : R := sum_list (zipWith Rmult x w).

Definition linear_row (W : list (list R)) (b : list R) (x : list R) : list R :=
  map (fun wb => (dot (fst wb) x + snd wb)%R) (combine W b).

(** [F.linear(x, weight, bias)] on the last dimension of [x]. *)
Definition Linear_forward (l : Linear) (x : Tensor) : result Tensor :=
  match shape (weight l), shape x with
  | [o; i], _ :: _ =>
      let s := removelast (shape x) in
      let w := last (shape x) 0%nat in
      if (w =? i)%nat && list_eqb (shape (bias l)) [o]
      then Ok (mkTensor (s ++ [o])
                 (concat (map (linear_row (chunks o i (data (weight l)))
                                          (data (bias l)))
                              (chunks (numel s) w (data x)))))
      else Raise ShapeError
  | _, _ => Raise ShapeError
  end.

(** [nn.Linear(i, o)] with initial values [w0], [b0] for the entries. *)
Definition Linear_new (i o : nat) (w0 b0 : nat -> R) : Linear :=
  mkLinear (mkTensor [o; i] (map w0 (seq 0 (o * i))))
           (mkTensor [o] (map b0 (seq 0 o))).

(** *** Pointwise functions *)

Local Open Scope R_scope.

Definition relu (x : R) : R := Rmax 0 x.

(** [F.softplus] with its defaults [beta = 1] and [threshold = 20]:
    [log(1 + exp(x))], and [x] itself where [x] exceeds the threshold. *)
Definition softplus (x : R) : R :=
  if Rlt_dec 20 x then x else ln (1 + exp x).

(** [torch.clamp(x, min=lo)] and [torch.clamp(x, lo, hi)]. *)
Definition clamp_min (lo : R) (x : R) : R := Rmax x lo.
Definition clamp (lo hi : R) (x : R) : R := Rmin (Rmax x lo) hi.

(** *** The numbers a [float32] tensor holds

    [float32 x] is the binary32 number nearest to [x] (24 significant
    bits, exponents from -126, ties to the even significand): what a
    [float32] tensor holds for a quantity whose exact value is [x].
    Magnitudes beyond the largest binary32 number, which IEEE arithmetic
    turns into infinities, are outside its range of use here. *)




End Torch.

(** ** [torch.distributions.Normal] *)

Module Normal.
Import Torch.
Local Open Scope R_scope.

Record t : Type := mk { loc : Tensor; scale : Tensor }.

(** [broadcast_all]: both parameters expanded to their common shape. *)
Definition broadcast_all (a b : Tensor) : result (Tensor * Tensor) :=
  a' <- tzip (fun x _ => x) a b ;;
  b' <- tzip (fun _ y => y) a b ;;
  Ok (a', b').

Definition positive (x : R) : bool := if Rlt_dec 0 x then true else false.

(** [Normal(loc, scale)]; argument validation requires a positive scale. *)
Definition new (loc scale : Tensor) : result t :=
  ' (l, s) <- broadcast_all loc scale ;;
  if forallb positive (data s) then Ok (mk l s) else Raise ValueError.

(** [rsample()]: [loc + eps * scale], with [eps] the standard-normal draws
    [noise 0], [noise 1], ... for the entries of the distribution. *)
Definition rsample (d : t) (noise : nat -> R) : result Tensor :=
  let eps := mkTensor (shape (loc d)) (map noise (seq 0 (numel (shape (loc d))))) in
  es <- tmul eps (scale d) ;;
  tadd (loc d) es.

(** [log_prob(value)]:
    [-((value - loc) ** 2) / (2 * var) - log_scale - log(sqrt(2 * pi))]. *)
Definition log_prob (d : t) (value : Tensor) : result Tensor :=
  let var := tmap (fun s => s ^ 2) (scale d) in
  let log_scale := tmap ln (scale d) in
  diff <- tsub value (loc d) ;;
  q <- tdiv (tmap (fun x => - x ^ 2) diff) (tmap (fun v => 2 * v) var) ;;
  r <- tsub q log_scale ;;
  Ok (tmap (fun x => x - ln (sqrt (2 * PI))) r).

(** [kl_divergence(p, q)] for two normal distributions:
    [0.5 * (var_ratio + t1 - 1 - var_ratio.log())]. *)
Definition kl_divergence (p q : t) : result Tensor :=
  sr <- tdiv (scale p) (scale q) ;;
  let var_ratio := tmap (fun x => x ^ 2) sr in
  dl <- tsub (loc p) (loc q) ;;
  dq <- tdiv dl (scale q) ;;
  let t1 := tmap (fun x => x ^ 2) dq in
  a <- tadd var_ratio t1 ;;
  b <- tsub (tmap (fun x => x - 1) a) (tmap ln var_ratio) ;;
  Ok (tmap (fun x => 0.5 * x) b).

End Normal.

(** ** [pearl/algorithm/networks.py] *)

Module Pearl.
Import Torch.
Local Open Scope R_scope.

(** *** [MLP] and [FlattenMLP] *)

Record MLP : Type := mkMLP {
  input_dim : nat;
  output_dim : nat;
  hidden_activation : R -> R;
  fc_layers : list Linear;
  last_fc_layer : Linear
}.

(** The loop over [self.fc_layers]. *)
Definition hidden (m : MLP) (x : Tensor) : result Tensor :=
  fold_left
    (fun acc fc_layer =>
       x <- acc ;;
       y <- Linear_forward fc_layer x ;;
       Ok (tmap (hidden_activation m) y))
    (fc_layers m) (Ok x).

Definition MLP_forward (m : MLP) (x : Tensor) : result Tensor :=
  x <- hidden m x ;;
  Linear_forward (last_fc_layer m) x.

(** [MLP.__init__]: three hidden layers of [hidden_dim] units; [w0 k] and
    [b0 k] are the initial entries of the [k]-th linear layer. *)
Definition MLP_new (input_dim output_dim hidden_dim : nat)
    (hidden_activation : R -> R) (w0 b0 : nat -> nat -> R) : MLP :=
  mkMLP input_dim output_dim hidden_activation
    [ Linear_new input_dim hidden_dim (w0 0%nat) (b0 0%nat);
      Linear_new hidden_dim hidden_dim (w0 1%nat) (b0 1%nat);
      Linear_new hidden_dim hidden_dim (w0 2%nat) (b0 2%nat) ]
    (Linear_new hidden_dim output_dim (w0 3%nat) (b0 3%nat)).

Definition FlattenMLP_forward (m : MLP) (xs : list Tensor) : result Tensor :=
  x <- cat_last xs ;;
  MLP_forward m x.

(** *** [MLPEncoder] *)

Record MLPEncoder : Type := mkMLPEncoder {
  mlp : MLP;
  latent_dim : nat;
  z_mean : option Tensor;
  z_var : option Tensor;
  task_z : option Tensor;
  context : option Tensor
}.

Definition set_z_mean (v : option Tensor) (self : MLPEncoder) : MLPEncoder :=
  mkMLPEncoder (mlp self) (latent_dim self) v (z_var self) (task_z self) (context self).
Definition set_z_var (v : option Tensor) (self : MLPEncoder) : MLPEncoder :=
  mkMLPEncoder (mlp self) (latent_dim self) (z_mean self) v (task_z self) (context self).
Definition set_task_z (v : option Tensor) (self : MLPEncoder) : MLPEncoder :=
  mkMLPEncoder (mlp self) (latent_dim self) (z_mean self) (z_var self) v (context self).
Definition set_context (v : option Tensor) (self : MLPEncoder) : MLPEncoder :=
  mkMLPEncoder (mlp self) (latent_dim self) (z_mean self) (z_var self) (task_z self) v.

(** Methods run in a state-and-exception monad over the object: an
    exception keeps the assignments made before it was raised. *)
Definition Method (A : Type) : Type := MLPEncoder -> result A * MLPEncoder.

Definition ret {A : Type} (a : A) : Method A := fun self => (Ok a, self).
Definition lift {A : Type} (r : result A) : Method A := fun self => (r, self).
Definition self_ : Method MLPEncoder := fun self => (Ok self, self).
Definition assign (f : MLPEncoder -> MLPEncoder) : Method unit :=
  fun self => (Ok tt, f self).
Definition mbind {A B : Type} (m : Method A) (k : A -> Method B) : Method B :=
  fun self =>
    match m self with
    | (Ok a, self') => k a self'
    | (Raise e, self') => (Raise e, self')
    end.

Notation "x <~ m ;; k" := (mbind m (fun x => k))
  (at level 61, m at next level, right associativity).
Notation "m ;;; k" := (mbind m (fun _ => k))
  (at level 61, right associativity).

(** Reading an attribute that is still [None] where a tensor is needed. *)
Definition tensor_of (o : option Tensor) : result Tensor :=
  match o with
  | Some t => Ok t
  | None => Raise TypeError
  end.

(** [sample_z]; [epsilon t] are the standard-normal draws of task [t]. *)
Definition sample_z (epsilon : nat -> nat -> R) : Method unit :=
  self <~ self_ ;;
  zm <~ lift (tensor_of (z_mean self)) ;;
  zv <~ lift (tensor_of (z_var self)) ;;
  means <~ lift (unbind zm) ;;
  vars <~ lift (unbind zv) ;;
  dists <~ lift (mapM (fun mv => Normal.new (fst mv) (tmap sqrt (snd mv)))
                      (combine means vars)) ;;
  sampled_z <~ lift (mapM (fun id => Normal.rsample (snd id) (epsilon (fst id)))
                          (combine (seq 0 (length dists)) dists)) ;;
  tz <~ lift (stack sampled_z) ;;
  assign (set_task_z (Some tz)).

(** [clear_z(num_tasks)]. *)
Definition clear_z (num_tasks : nat) (epsilon : nat -> nat -> R) : Method unit :=
  self <~ self_ ;;
  assign (set_z_mean (Some (zeros [num_tasks; latent_dim self]))) ;;;
  assign (set_z_var (Some (ones [num_tasks; latent_dim self]))) ;;;
  sample_z epsilon ;;;
  assign (set_context None).

(** [MLPEncoder.__init__]. *)
Definition MLPEncoder_new (input_dim output_dim latent_dim hidden_dim : nat)
    (w0 b0 : nat -> nat -> R) (epsilon : nat -> nat -> R)
  : result unit * MLPEncoder :=
  clear_z 1 epsilon
    (mkMLPEncoder (MLP_new input_dim output_dim hidden_dim relu w0 b0)
                  latent_dim None None None None).

(** The divisor of [product_of_gaussians]:
    [torch.sum(torch.reciprocal(var), dim=0)] after the clamp. *)
Definition precision (var : Tensor) : Tensor :=
  sum_dim0 (tmap (fun v => 1 / v) (tmap (clamp_min 1e-7) var)).

(** [product_of_gaussians(mean, var)]. *)
Definition product_of_gaussians (mean var : Tensor) : result (Tensor * Tensor) :=
  let var := tmap (clamp_min 1e-7) var in
  let pog_var := tmap (fun s => 1 / s) (sum_dim0 (tmap (fun v => 1 / v) var)) in
  mv <- tdiv mean var ;;
  pog_mean <- tmul pog_var (sum_dim0 mv) ;;
  Ok (pog_mean, pog_var).

(** [context.size(0)]. *)
Definition size0 (t : Tensor) : result nat :=
  match shape t with
  | [] => Raise ShapeError
  | d :: _ => Ok d
  end.

(** [infer_posterior(context)]. *)
Definition infer_posterior (ctx : Tensor) (epsilon : nat -> nat -> R) : Method unit :=
  self <~ self_ ;;
  params <~ lift (FlattenMLP_forward (mlp self) [ctx]) ;;
  n <~ lift (size0 ctx) ;;
  params <~ lift (view3 n (output_dim (mlp self)) params) ;;
  mu <~ lift (slice_last_to (latent_dim self) params) ;;
  z_mean <~ lift (unbind mu) ;;
  sg <~ lift (slice_last_from (latent_dim self) params) ;;
  z_var <~ lift (unbind (tmap softplus sg)) ;;
  z_params <~ lift (mapM (fun mv => product_of_gaussians (fst mv) (snd mv))
                         (combine z_mean z_var)) ;;
  zm <~ lift (stack (map fst z_params)) ;;
  assign (set_z_mean (Some zm)) ;;;
  zv <~ lift (stack (map snd z_params)) ;;
  assign (set_z_var (Some zv)) ;;;
  sample_z epsilon.

(** The pairs [infer_posterior] hands to [product_of_gaussians]: its
    statements up to the list comprehension. *)
Definition gaussians (self : MLPEncoder) (ctx : Tensor)
  : result (list (Tensor * Tensor)) :=
  params <- FlattenMLP_forward (mlp self) [ctx] ;;
  n <- size0 ctx ;;
  params <- view3 n (output_dim (mlp self)) params ;;
  mu <- slice_last_to (latent_dim self) params ;;
  z_mean <- unbind mu ;;
  sg <- slice_last_from (latent_dim self) params ;;
  z_var <- unbind (tmap softplus sg) ;;
  Ok (combine z_mean z_var).

(** Every entry of [z_var] is strictly positive. *)
Definition z_var_positive (self : MLPEncoder) : Prop :=
  exists zv, z_var self = Some zv /\ Forall (fun v => 0 < v) (data zv).

(** [compute_kl_div()]. *)
Definition compute_kl_div (self : MLPEncoder) : result Tensor :=
  prior <- Normal.new (zeros [latent_dim self]) (ones [latent_dim self]) ;;
  zm <- tensor_of (z_mean self) ;;
  zv <- tensor_of (z_var self) ;;
  means <- unbind zm ;;
  vars <- unbind zv ;;
  posteriors <- mapM (fun mv => Normal.new (fst mv) (tmap sqrt (snd mv)))
                     (combine means vars) ;;
  kl_div <- mapM (fun posterior => Normal.kl_divergence posterior prior) posteriors ;;
  kl <- stack kl_div ;;
  Ok (sum_all kl).

(** *** [TanhGaussianPolicy] *)

Definition LOG_SIG_MAX : R := 2.
Definition LOG_SIG_MIN : R := -20.

Record TanhGaussianPolicy : Type := mkTanhGaussianPolicy {
  base : MLP;
  is_deterministic : bool;
  last_fc_log_std : Linear
}.

(** The mean and standard deviation the network predicts for [x]. *)
Definition mean_std (self : TanhGaussianPolicy) (x : Tensor)
  : result (Tensor * Tensor) :=
  x <- hidden (base self) x ;;
  mean <- Linear_forward (last_fc_layer (base self)) x ;;
  log_std <- Linear_forward (last_fc_log_std self) x ;;
  let log_std := tmap (clamp LOG_SIG_MIN LOG_SIG_MAX) log_std in
  let std := tmap exp log_std in
  Ok (mean, std).

(** The correction subtracted from the Gaussian log-density, per entry. *)
Definition squash_correction (a : R) : R :=
  2 * (ln 2 - a - softplus (-2 * a)).

(** [TanhGaussianPolicy.forward(x)]. *)
Definition forward (self : TanhGaussianPolicy) (x : Tensor) (noise : nat -> R)
  : result (Tensor * option Tensor) :=
  ' (mean, std) <- mean_std self x ;;
  ' (action, log_prob) <-
      (if is_deterministic self
       then Ok (tmap tanh mean, None)
       else
         normal <- Normal.new mean std ;;
         action <- Normal.rsample normal noise ;;
         log_prob <- Normal.log_prob normal action ;;
         inner <- tsub (tmap (fun a => ln 2 - a) action)
                       (tmap softplus (tmap (fun a => -2 * a) action)) ;;
         log_prob <- tsub log_prob (tmap (fun c => 2 * c) inner) ;;
         Ok (action, Some (sum_last_keepdim log_prob))) ;;
  Ok (tmap tanh action, log_prob).

(** [TanhGaussianPolicy.__init__]; layer 4 is [last_fc_log_std]. *)
Definition TanhGaussianPolicy_new (input_dim output_dim hidden_dim : nat)
    (is_deterministic : bool) (w0 b0 : nat -> nat -> R) : TanhGaussianPolicy :=
  mkTanhGaussianPolicy
    (MLP_new input_dim output_dim hidden_dim relu w0 b0)
    is_deterministic
    (Linear_new hidden_dim output_dim (w0 4%nat) (b0 4%nat)).

(** *** Shapes the constructors establish *)

Definition Linear_typed (i o : nat) (l : Linear) : Prop :=
  shape (weight l) = [o; i] /\ shape (bias l) = [o] /\
  wf (weight l) /\ wf (bias l).

Fixpoint layers_typed (i : nat) (ls : list Linear) (o : nat) : Prop :=
  match ls with
  | [] => i = o
  | l :: ls' => exists h, Linear_typed i h l /\ layers_typed h ls' o
  end.

Definition MLP_typed (m : MLP) : Prop :=
  exists h, layers_typed (input_dim m) (fc_layers m) h /\
            Linear_typed h (output_dim m) (last_fc_layer m).

Definition TanhGaussianPolicy_typed (p : TanhGaussianPolicy) : Prop :=
  exists h, layers_typed (input_dim (base p)) (fc_layers (base p)) h /\
            Linear_typed h (output_dim (base p)) (last_fc_layer (base p)) /\
            Linear_typed h (output_dim (base p)) (last_fc_log_std p).

End Pearl.

(** ** [maml/algorithm/networks.py] *)

Module Maml.
Import Torch.
Local Open Scope R_scope.

(** [MLP.forward] is the loop of the PEARL [MLP]; the constructor differs:
    two hidden layers, [torch.tanh] as the default activation. *)
Definition MLP_new (input_dim output_dim hidden_dim : nat)
    (hidden_activation : R -> R) (w0 b0 : nat -> nat -> R) : Pearl.MLP :=
  Pearl.mkMLP input_dim output_dim hidden_activation
    [ Linear_new input_dim hidden_dim (w0 0%nat) (b0 0%nat);
      Linear_new hidden_dim hidden_dim (w0 1%nat) (b0 1%nat) ]
    (Linear_new hidden_dim output_dim (w0 2%nat) (b0 2%nat)).

Record GaussianPolicy : Type := mkGaussianPolicy {
  base : Pearl.MLP;
  log_std : Tensor;
  min_log_std : option Tensor;
  max_log_std : option Tensor;
  is_deterministic : bool
}.

(** [t.clamp(min=lo, max=hi)] with optional tensor bounds. *)
Definition clamp_tensor (t : Tensor) (lo hi : option Tensor) : result Tensor :=
  match lo, hi with
  | None, None => Raise ShapeError
  | Some l, None => tzip Rmax t l
  | None, Some h => tzip Rmin t h
  | Some l, Some h => x <- tzip Rmax t l ;; tzip Rmin x h
  end.

(** [t.sum(dim=-1)]. *)
Definition sum_last (t : Tensor) : Tensor :=
  match shape t with
  | [] => t
  | _ :: _ =>
      let s := removelast (shape t) in
      let w := last (shape t) 0%nat in
      mkTensor s (map sum_list (chunks (numel s) w (data t)))
  end.

Definition get_normal_dist (self : GaussianPolicy) (x : Tensor)
  : result (Normal.t * Tensor) :=
  mean <- Pearl.MLP_forward (base self) x ;;
  c <- clamp_tensor (log_std self) (min_log_std self) (max_log_std self) ;;
  normal <- Normal.new mean (tmap exp c) ;;
  Ok (normal, mean).

(** [GaussianPolicy.forward(x)]; [sample()] draws as [rsample()] does. *)
Definition forward (self : GaussianPolicy) (x : Tensor) (noise : nat -> R)
  : result (Tensor * Tensor) :=
  ' (normal, mean) <- get_normal_dist self x ;;
  ' (action, log_prob) <-
      (if is_deterministic self
       then Ok (mean, zeros [1%nat])
       else
         action <- Normal.rsample normal noise ;;
         lp <- Normal.log_prob normal action ;;
         Ok (action, sum_last lp)) ;;
  Ok (view_flat action, log_prob).

(** [GaussianPolicy.__init__]: the network of [MLP.__init__] with its zero
    biases, [log_std] and its bounds as one-entry tensors; [w0 k] are the
    initial weights of the [k]-th linear layer. *)
Definition GaussianPolicy_new (input_dim output_dim hidden_dim : nat)
    (is_deterministic : bool) (init_std : R) (min_std max_std : option R)
    (w0 : nat -> nat -> R) : GaussianPolicy :=
  mkGaussianPolicy
    (MLP_new input_dim output_dim hidden_dim tanh w0 (fun _ _ => 0))
    (mkTensor [1%nat] [ln init_std])
    (option_map (fun s => mkTensor [1%nat] [ln s]) min_std)
    (option_map (fun s => mkTensor [1%nat] [ln s]) max_std)
    is_deterministic.

(** [GaussianPolicy.get_log_prob(obs, action)]. *)
Definition get_log_prob (self : GaussianPolicy) (obs action : Tensor)
  : result Tensor :=
  ' (normal, _) <- get_normal_dist self obs ;;
  lp <- Normal.log_prob normal action ;;
  Ok (sum_last lp).


End Maml.

(** ** [pearl/trainer.py] *)

Module Trainer.

(** [s.split(sep)] for a one-character separator. *)
Fixpoint split (sep : Ascii.ascii) (s : string) : list string :=
  match s with
  | EmptyString => [EmptyString]
  | String c s' =>
      if Ascii.eqb c sep then EmptyString :: split sep s'
      else match split sep s' with
           | h :: t => String c h :: t
           | [] => [String c EmptyString]
           end
  end.

Inductive Device : Type :=
| Cuda (index : Z)
| Cpu.

Record Args : Type := mkArgs { env : string; gpu_index : Z }.

Record Env : Type := mkEnv {
  observation_space_shape : list Z;
  action_space_shape : list Z;
  all_task_idx : list Z
}.

Section Imports.

(** What the trainer imports and the sources at hand do not contain: the
    configuration dictionaries, the environment table [envs], the agent
    class [SAC], the builtin [int] and [torch.cuda.is_available]. *)
Variables EnvParams SacParams Agent : Type.

Record Config : Type := mkConfig {
  env_name : string;
  env_params : EnvParams;
  latent_size : Z;
  hidden_units : string;
  sac_params : SacParams
}.

Record SACArgs : Type := mkSACArgs {
  observ_dim : Z;
  action_dim : Z;
  latent_dim : Z;
  sac_hidden_units : list Z;
  encoder_input_dim : Z;
  encoder_output_dim : Z;
  device : Device;
  extra : SacParams
}.

Variables cheetah_dir_config cheetah_vel_config : Config.
Variable envs : string -> option (EnvParams -> result Env).
Variable SAC : SACArgs -> result Agent.
Variable int : string -> result Z.
Variable cuda_is_available : bool.

(** The calls the trainer makes, in order. *)
Inductive event : Type :=
| MakeEnv (name : string) (params : EnvParams)
| NewSAC (kwargs : SACArgs).

Definition Run (A : Type) : Type := list event * result A.

Definition run_bind {A B : Type} (m : Run A) (k : A -> Run B) : Run B :=
  match m with
  | (tr, Ok a) => let (tr', r) := k a in (tr ++ tr', r)
  | (tr, Raise e) => (tr, Raise e)
  end.

Definition pure_ {A : Type} (r : result A) : Run A := ([], r).
Definition call {A : Type} (ev : event) (r : result A) : Run A := ([ev], r).

Notation "x <~ m ;; k" := (run_bind m (fun x => k))
  (at level 61, m at next level, right associativity).

(** Reading a local variable that may not have been assigned. *)
Definition local {A : Type} (name : string) (v : option A) : result A :=
  match v with
  | Some a => Ok a
  | None => Raise (UnboundLocalError name)
  end.

(** [shape[0]]. *)
Definition first (shape : list Z) : result Z :=
  match shape with
  | [] => Raise ShapeError
  | d :: _ => Ok d
  end.

Definition lookup_env (name : string) : result (EnvParams -> result Env) :=
  match envs name with
  | Some mk => Ok mk
  | None => Raise (KeyError name)
  end.

Local Open Scope string_scope.
Local Open Scope Z_scope.

(** The [if]/[elif]/[else] on [args.env]: the local [config] afterwards,
    [None] when no branch assigned it. *)
Definition select_config (args : Args) : option Config :=
  if String.eqb (env args) "dir" then Some cheetah_dir_config
  else if String.eqb (env args) "vel" then Some cheetah_vel_config
  else (* [NotImplementedError]: the name is evaluated, nothing is raised *)
    None.

Definition trainer (args : Args) : Run unit :=
  let config := select_config args in
  config <~ pure_ (local "config" config) ;;
  mk <~ pure_ (lookup_env (env_name config)) ;;
  env <~ call (MakeEnv (env_name config) (env_params config))
              (mk (env_params config)) ;;
  let tasks := all_task_idx env in
  observ_dim <~ pure_ (first (observation_space_shape env)) ;;
  action_dim <~ pure_ (first (action_space_shape env)) ;;
  let latent_dim := latent_size config in
  hidden_units <~ pure_ (mapM int (split ","%char (hidden_units config))) ;;
  let encoder_input_dim := observ_dim + action_dim + 1 in
  let encoder_output_dim := latent_dim * 2 in
  let kwargs :=
    mkSACArgs observ_dim action_dim latent_dim hidden_units
              encoder_input_dim encoder_output_dim
              (if cuda_is_available then Cuda (gpu_index args) else Cpu)
              (sac_params config) in
  agent <~ call (NewSAC kwargs) (SAC kwargs) ;;
  (* [MetaLearner]: its import is commented out *)
  pure_ (Raise (NameError "MetaLearner")).

End Imports.

Arguments mkConfig {EnvParams SacParams}.
Arguments env_name {EnvParams SacParams}.
Arguments env_params {EnvParams SacParams}.
Arguments latent_size {EnvParams SacParams}.
Arguments hidden_units {EnvParams SacParams}.
Arguments sac_params {EnvParams SacParams}.
Arguments mkSACArgs {SacParams}.
Arguments observ_dim {SacParams}.
Arguments action_dim {SacParams}.
Arguments latent_dim {SacParams}.
Arguments sac_hidden_units {SacParams}.
Arguments encoder_input_dim {SacParams}.
Arguments encoder_output_dim {SacParams}.
Arguments device {SacParams}.
Arguments extra {SacParams}.
Arguments MakeEnv {EnvParams SacParams}.
Arguments NewSAC {EnvParams SacParams}.
Arguments select_config {EnvParams SacParams}.
Arguments trainer {EnvParams SacParams Agent}.

End Trainer.

(** ** Reference formulations

    The closed forms the networks are meant to compute, written entry by
    entry and independently of the tensor operations. *)

Module Spec.
Import Torch.
Local Open Scope R_scope.

(** [big_sum n f] is [f 0 + ... + f (n-1)]. *)
Fixpoint big_sum (n : nat) (f : nat -> R) : R :=
  match n with
  | O => 0
  | S n' => big_sum n' f + f n'
  end.

(** Entry [j] of a tensor, in row-major order. *)
Definition at_ (t : Tensor) (j : nat) : R := nth j (data t) 0.

(** Entry [j] of the [i]-th of the tensors stacked along dimension 0. *)
Definition entry (t : Tensor) (i j : nat) : R :=
  at_ t (i * numel (tl (shape t)) + j).

(** Precision-weighted fusion of [k] Gaussians with means [m i] and
    variances [v i], the variances clamped from below at [1e-7]. *)
Definition fused_var (k : nat) (v : nat -> R) : R :=
  1 / big_sum k (fun i => 1 / Rmax (v i) 1e-7).

Definition fused_mean (k : nat) (m v : nat -> R) : R :=
  fused_var k v * big_sum k (fun i => m i / Rmax (v i) 1e-7).

(** Closed-form KL divergence of [N(mu, sqrt v)] from [N(0, 1)]. *)
Definition kl_closed_form (mu v : R) : R :=
  (-1 / 2) * ln v + (v + mu ^ 2) / 2 - 1 / 2.

(** Logarithm of the density of [N(mu, sigma)] at [x]. *)
Definition gaussian_log_density (mu sigma x : R) : R :=
  ln (/ (sigma * sqrt (2 * PI)) * exp (- (x - mu) ^ 2 / (2 * sigma ^ 2))).

(** The Gaussians read off one task's block of parameter rows: the first
    [L] entries of each row are means, softplus of the remaining entries
    are variances. *)
Definition gaussian_rows (L : nat) (task : Tensor) : Tensor * Tensor :=
  let b := nth 0 (shape task) 0%nat in
  let w := nth 1 (shape task) 0%nat in
  let rows := chunks b w (data task) in
  (mkTensor [b; Nat.min L w] (concat (map (firstn L) rows)),
   mkTensor [b; (w - L)%nat]
            (concat (map (fun r => map softplus (skipn L r)) rows))).

(** [infer_posterior] as described: reshape the network output into one
    block of per-transition rows for each task, read the Gaussians off each
    block, fuse them per task, store the fused means and variances, and
    resample. *)
Definition infer_posterior_spec (ctx : Tensor) (epsilon : nat -> nat -> R)
  : Pearl.Method unit :=
  Pearl.mbind Pearl.self_ (fun self =>
  Pearl.mbind (Pearl.lift
    (out <- Pearl.FlattenMLP_forward (Pearl.mlp self) [ctx] ;;
     n <- Pearl.size0 ctx ;;
     params <- view3 n (Pearl.output_dim (Pearl.mlp self)) out ;;
     tasks <- unbind params ;;
     mapM (fun task =>
             Pearl.product_of_gaussians
               (fst (gaussian_rows (Pearl.latent_dim self) task))
               (snd (gaussian_rows (Pearl.latent_dim self) task)))
          tasks)) (fun z_params =>
  Pearl.mbind (Pearl.lift (stack (map fst z_params))) (fun zm =>
  Pearl.mbind (Pearl.assign (Pearl.set_z_mean (Some zm))) (fun _ =>
  Pearl.mbind (Pearl.lift (stack (map snd z_params))) (fun zv =>
  Pearl.mbind (Pearl.assign (Pearl.set_z_var (Some zv))) (fun _ =>
  Pearl.sample_z epsilon)))))).

(** A standard deviation clamped to optional bounds. *)
Definition clamp_opt (lo hi : option R) (x : R) : R :=
  match lo, hi with
  | Some l, Some h => Rmin (Rmax x l) h
  | Some l, None => Rmax x l
  | None, Some h => Rmin x h
  | None, None => x
  end.


End Spec.

(** ** Concrete objects used to exercise the statements *)

Module Example.
Import Torch Pearl.
Local Open Scope R_scope.

(** A network with one input, one hidden unit per layer, two outputs and
    all weights zero. *)
Definition net : MLP :=
  MLP_new 1 2 1 relu (fun _ _ => 0) (fun _ _ => 0).

(** An encoder over one latent dimension holding the prior of one task. *)
Definition encoder : MLPEncoder :=
  mkMLPEncoder net 1
    (Some (mkTensor [1%nat; 1%nat] [0]))
    (Some (mkTensor [1%nat; 1%nat] [1]))
    None None.

(** Policies over the same layer sizes, one for each mode. *)
Definition deterministic_policy : TanhGaussianPolicy :=
  TanhGaussianPolicy_new 1 2 1 true (fun _ _ => 0) (fun _ _ => 0).

Definition stochastic_policy : TanhGaussianPolicy :=
  TanhGaussianPolicy_new 1 2 1 false (fun _ _ => 0) (fun _ _ => 0).


(** One observation with a single feature. *)
Definition observation : Tensor := mkTensor [1%nat] [0].

(** A trainer environment: both configurations, a table with one
    environment of 20 observation and 6 action dimensions, an agent
    constructor that accepts everything. *)
Definition dir_config : Trainer.Config unit unit :=
  Trainer.mkConfig "cheetah-dir"%string tt 5%Z "300,300,300"%string tt.

Definition vel_config : Trainer.Config unit unit :=
  Trainer.mkConfig "cheetah-vel"%string tt 5%Z "300,300,300"%string tt.

Definition envs (name : string) : option (unit -> result Trainer.Env) :=
  Some (fun _ => Ok (Trainer.mkEnv [20%Z] [6%Z] [])).

Definition SAC (kwargs : Trainer.SACArgs unit) : result unit := Ok tt.

Definition int (s : string) : result Z := Ok 300%Z.

(** MAML policies with the default standard deviations ([init_std = 1.0],
    [min_std = 1e-6], no [max_std]), one for each mode. *)
Definition maml_policy : Maml.GaussianPolicy :=
  Maml.GaussianPolicy_new 1 2 1 false 1 (Some 1e-6) None (fun _ _ => 0).

Definition maml_deterministic_policy : Maml.GaussianPolicy :=
  Maml.GaussianPolicy_new 1 2 1 true 1 (Some 1e-6) None (fun _ _ => 0).

(** A network over two input features, as a value function over an
    observation and an action of one feature each. *)
Definition critic : MLP :=
  MLP_new 2 1 1 relu (fun _ _ => 0) (fun _ _ => 0).


End Example.

(** * Facts about the tensor operations *)

Section ListFacts.
Import Torch.

Lemma zipWith_length (f : R -> R -> R) (a b : list R) :
  length (zipWith f a b) = Nat.min (length a) (length b).
Proof.
  revert b; induction a as [|x a IH]; intros [|y b]; simpl; auto.
Qed.

Lemma nth_zipWith (f : R -> R -> R) (a b : list R) (i : nat) (d : R) :
  (i < length a)%nat -> (i < length b)%nat ->
  nth i (zipWith f a b) d = f (nth i a d) (nth i b d).
Proof.
  revert b i; induction a as [|x a IH]; intros [|y b] [|i]; simpl; intros;
    try lia; auto.
  apply IH; lia.
Qed.

Lemma zipWith_app (f : R -> R -> R) (a1 a2 b1 b2 : list R) :
  length a1 = length b1 ->
  zipWith f (a1 ++ a2) (b1 ++ b2) = zipWith f a1 b1 ++ zipWith f a2 b2.
Proof.
  revert b1; induction a1 as [|x a1 IH]; intros [|y b1]; simpl; intros H;
    try discriminate; auto.
  f_equal. apply IH. lia.
Qed.

Lemma zipWith_firstn_skipn (f : R -> R -> R) (n : nat) (a b : list R) :
  length a = length b ->
  zipWith f (firstn n a) (firstn n b) ++ zipWith f (skipn n a) (skipn n b)
  = zipWith f a b.
Proof.
  intros H. rewrite <- zipWith_app.
  - now rewrite !firstn_skipn.
  - rewrite !length_firstn. lia.
Qed.

Lemma zipWith_map_l (f : R -> R -> R) (g : R -> R) (a b : list R) :
  zipWith f (map g a) b = zipWith (fun x y => f (g x) y) a b.
Proof.
  revert b; induction a as [|x a IH]; intros [|y b]; simpl; auto.
  now rewrite IH.
Qed.

Lemma zipWith_map_r (f : R -> R -> R) (g : R -> R) (a b : list R) :
  zipWith f a (map g b) = zipWith (fun x y => f x (g y)) a b.
Proof.
  revert b; induction a as [|x a IH]; intros [|y b]; simpl; auto.
  now rewrite IH.
Qed.

Lemma map_zipWith (g : R -> R) (f : R -> R -> R) (a b : list R) :
  map g (zipWith f a b) = zipWith (fun x y => g (f x y)) a b.
Proof.
  revert b; induction a as [|x a IH]; intros [|y b]; simpl; auto.
  now rewrite IH.
Qed.

Lemma zipWith_ext (f g : R -> R -> R) (a b : list R) :
  (forall x y, f x y = g x y) -> zipWith f a b = zipWith g a b.
Proof.
  intros E. revert b; induction a as [|x a IH]; intros [|y b]; simpl; auto.
  now rewrite E, IH.
Qed.

Lemma chunks_length (n w : nat) (l : list R) : length (chunks n w l) = n.
Proof. revert l; induction n; simpl; intros; auto. Qed.

Lemma chunks_concat (n w : nat) (l : list R) :
  length l = (n * w)%nat -> concat (chunks n w l) = l.
Proof.
  revert l; induction n as [|n IH]; simpl; intros l H.
  - destruct l; simpl in *; auto; discriminate.
  - rewrite IH.
    + apply firstn_skipn.
    + rewrite length_skipn. lia.
Qed.

Lemma chunks_Forall_length (n w : nat) (l : list R) :
  (n * w <= length l)%nat -> Forall (fun c => length c = w) (chunks n w l).
Proof.
  revert l; induction n as [|n IH]; simpl; intros l H; constructor.
  - rewrite length_firstn. lia.
  - apply IH. rewrite length_skipn. lia.
Qed.

Lemma chunks_map (g : R -> R) (n w : nat) (l : list R) :
  chunks n w (map g l) = map (map g) (chunks n w l).
Proof.
  revert l; induction n as [|n IH]; simpl; intros l; auto.
  now rewrite firstn_map, skipn_map, IH.
Qed.

Lemma chunks_of_concat (w : nat) (rows : list (list R)) :
  Forall (fun c => length c = w) rows ->
  chunks (length rows) w (concat rows) = rows.
Proof.
  induction 1 as [|r rows Hr _ IH]; simpl; auto.
  rewrite firstn_app, skipn_app, Hr, Nat.sub_diag. simpl.
  rewrite firstn_all2 by lia. rewrite skipn_all2 by lia.
  simpl. rewrite app_nil_r. now rewrite IH.
Qed.

Lemma nth_chunks (n w i : nat) (l : list R) :
  (i < n)%nat -> nth i (chunks n w l) [] = firstn w (skipn (i * w) l).
Proof.
  revert l i; induction n as [|n IH]; intros l [|i] H; simpl; try lia; auto.
  rewrite IH by lia. now rewrite skipn_skipn, Nat.add_comm.
Qed.

Lemma nth_nth_chunks (n w i j : nat) (l : list R) (d : R) :
  (i < n)%nat -> (j < w)%nat ->
  nth j (nth i (chunks n w l) []) d = nth (i * w + j) l d.
Proof.
  intros Hi Hj. rewrite nth_chunks by assumption.
  rewrite nth_firstn.
  destruct (j <? w)%nat eqn:E; [|apply Nat.ltb_ge in E; lia].
  now rewrite nth_skipn.
Qed.

Lemma concat_chunks_zipWith (g : list R * list R -> list R) (f : R -> R -> R)
    (n w : nat) (a b : list R) :
  (forall x y, length x = w -> length y = w -> g (x, y) = zipWith f x y) ->
  length a = (n * w)%nat -> length b = (n * w)%nat ->
  concat (map g (combine (chunks n w a) (chunks n w b))) = zipWith f a b.
Proof.
  intros Hg. revert a b; induction n as [|n IH]; simpl; intros a b Ha Hb.
  - destruct a; simpl in *; auto; discriminate.
  - rewrite Hg; [|rewrite length_firstn; lia ..].
    rewrite IH; [|rewrite length_skipn; lia ..].
    apply zipWith_firstn_skipn. lia.
Qed.

Lemma bzip_same (f : R -> R -> R) (s : list nat) (a b : list R) :
  length a = numel s -> length b = numel s -> bzip f s s a b = zipWith f a b.
Proof.
  revert a b; induction s as [|d s IH]; intros a b Ha Hb; simpl; auto.
  rewrite Nat.eqb_refl.
  apply concat_chunks_zipWith; auto.
Qed.

Lemma broadcast_shape_same (s : list nat) : broadcast_shape s s = Some s.
Proof.
  induction s as [|d s IH]; simpl; auto.
  now rewrite IH, Nat.eqb_refl.
Qed.

Lemma pad_shape_same (s : list nat) : pad_shape (length s) s = s.
Proof. unfold pad_shape. now rewrite Nat.sub_diag. Qed.

(** On two well-formed tensors of one shape a binary operation acts
    entry by entry. *)
Lemma tzip_same (f : R -> R -> R) (a b : Tensor) :
  shape a = shape b -> wf a -> wf b ->
  tzip f a b = Ok (mkTensor (shape a) (zipWith f (data a) (data b))).
Proof.
  unfold wf, tzip. intros E Ha Hb.
  rewrite <- E, Nat.max_id, pad_shape_same, broadcast_shape_same.
  rewrite bzip_same; auto. now rewrite E.
Qed.

End ListFacts.

Section SumFacts.
Import Torch Spec.
Local Open Scope R_scope.

Lemma fold_left_zipWith_length (rows : list (list R)) (init : list R) :
  Forall (fun r => length r = length init) rows ->
  length (fold_left (zipWith Rplus) rows init) = length init.
Proof.
  revert init; induction rows as [|r rows IH]; simpl; intros init H; auto.
  inversion H as [|? ? Hr Hrows]; subst.
  assert (E : length (zipWith Rplus init r) = length init)
    by (rewrite zipWith_length; lia).
  rewrite IH; auto.
  rewrite E. exact Hrows.
Qed.

Lemma nth_fold_left_zipWith (rows : list (list R)) (init : list R) (j : nat) :
  Forall (fun r => length r = length init) rows ->
  (j < length init)%nat ->
  nth j (fold_left (zipWith Rplus) rows init) 0
  = fold_left Rplus (map (fun r => nth j r 0) rows) (nth j init 0).
Proof.
  revert init; induction rows as [|r rows IH]; simpl; intros init H Hj; auto.
  inversion H as [|? ? Hr Hrows]; subst.
  assert (E : length (zipWith Rplus init r) = length init)
    by (rewrite zipWith_length; lia).
  rewrite IH.
  - rewrite nth_zipWith by lia. reflexivity.
  - rewrite E. exact Hrows.
  - lia.
Qed.

Lemma big_sum_fold (k : nat) (f : nat -> R) :
  big_sum k f = fold_left Rplus (map f (seq 0 k)) 0.
Proof.
  induction k as [|k IH]; simpl big_sum; auto.
  rewrite seq_S, map_app, fold_left_app. simpl. now rewrite IH.
Qed.

Lemma big_sum_ext (k : nat) (f g : nat -> R) :
  (forall i, (i < k)%nat -> f i = g i) -> big_sum k f = big_sum k g.
Proof.
  induction k as [|k IH]; simpl; intros H; auto.
  rewrite IH, H; auto.
Qed.

Lemma big_sum_pos (k : nat) (f : nat -> R) :
  (1 <= k)%nat -> (forall i, (i < k)%nat -> 0 < f i) -> 0 < big_sum k f.
Proof.
  induction k as [|[|k] IH]; intros Hk H; try lia.
  - simpl. specialize (H 0%nat ltac:(lia)). lra.
  - change (0 < big_sum (S k) f + f (S k)).
    assert (0 < big_sum (S k) f) by (apply IH; [lia | intros; apply H; lia]).
    specialize (H (S k) ltac:(lia)). lra.
Qed.

Lemma list_map_nth_seq (A : Type) (l : list A) (d : A) :
  l = map (fun i => nth i l d) (seq 0 (length l)).
Proof.
  apply nth_ext with (d := d) (d' := d).
  - now rewrite length_map, length_seq.
  - intros n Hn.
    rewrite (nth_indep (map (fun i => nth i l d) (seq 0 (length l)))
                       d (nth 0 l d))
      by (rewrite length_map, length_seq; exact Hn).
    rewrite map_nth with (f := fun i => nth i l d) (d := 0%nat).
    now rewrite seq_nth.
Qed.

(** Column [j] of the blocks of a tensor, summed. *)
Lemma fold_left_column (k w j : nat) (l : list R) :
  (j < w)%nat ->
  fold_left Rplus (map (fun r => nth j r 0) (chunks k w l)) 0
  = big_sum k (fun i => nth (i * w + j) l 0).
Proof.
  intros Hj. rewrite big_sum_fold. f_equal.
  rewrite (list_map_nth_seq _ (chunks k w l) []) at 1.
  rewrite chunks_length, map_map.
  apply map_ext_in. intros i Hi. apply in_seq in Hi.
  apply nth_nth_chunks; lia.
Qed.

Lemma sum_dim0_shape (k : nat) (s : list nat) (t : Tensor) :
  shape t = k :: s -> shape (sum_dim0 t) = s.
Proof. unfold sum_dim0. intros ->. reflexivity. Qed.

Lemma sum_dim0_wf (k : nat) (s : list nat) (t : Tensor) :
  shape t = k :: s -> wf t -> wf (sum_dim0 t).
Proof.
  unfold wf, sum_dim0. intros E H. rewrite E in *. simpl in *.
  rewrite fold_left_zipWith_length; rewrite repeat_length; auto.
  apply chunks_Forall_length. lia.
Qed.

Lemma sum_dim0_entry (k : nat) (s : list nat) (t : Tensor) (j : nat) :
  shape t = k :: s -> wf t -> (j < numel s)%nat ->
  at_ (sum_dim0 t) j = big_sum k (fun i => entry t i j).
Proof.
  unfold wf, at_, entry, sum_dim0, at_. intros E H Hj. rewrite E in *. simpl in *.
  rewrite nth_fold_left_zipWith.
  - rewrite nth_repeat. now apply fold_left_column.
  - rewrite repeat_length. apply chunks_Forall_length. lia.
  - now rewrite repeat_length.
Qed.

Lemma at_tmap (g : R -> R) (t : Tensor) (j : nat) :
  (j < length (data t))%nat -> at_ (tmap g t) j = g (at_ t j).
Proof.
  unfold at_, tmap. simpl. intros Hj.
  rewrite nth_indep with (d' := g 0) by (now rewrite length_map).
  apply map_nth.
Qed.

Lemma tmap_wf (g : R -> R) (t : Tensor) : wf t -> wf (tmap g t).
Proof. unfold wf, tmap. simpl. now rewrite length_map. Qed.

Lemma entry_in_range (k : nat) (s : list nat) (t : Tensor) (i j : nat) :
  shape t = k :: s -> wf t -> (i < k)%nat -> (j < numel s)%nat ->
  (i * numel (tl (shape t)) + j < length (data t))%nat.
Proof.
  unfold wf. intros E H Hi Hj. rewrite H, E. simpl. nia.
Qed.

End SumFacts.

(** * The context encoder *)

Section ProductOfGaussians.
Import Torch Spec Pearl.
Local Open Scope R_scope.

Lemma precision_unfold (mean var : Tensor) :
  product_of_gaussians mean var =
  (mv <- tdiv mean (tmap (clamp_min 1e-7) var) ;;
   pog_mean <- tmul (tmap (fun s => 1 / s) (precision var)) (sum_dim0 mv) ;;
   Ok (pog_mean, tmap (fun s => 1 / s) (precision var))).
Proof. reflexivity. Qed.

Lemma precision_shape (k : nat) (s : list nat) (var : Tensor) :
  shape var = k :: s -> shape (precision var) = s.
Proof. intros E. unfold precision. now apply sum_dim0_shape with (k := k). Qed.

Lemma precision_wf (k : nat) (s : list nat) (var : Tensor) :
  shape var = k :: s -> wf var -> wf (precision var).
Proof.
  intros E H. unfold precision.
  apply sum_dim0_wf with (k := k) (s := s); auto using tmap_wf.
Qed.

Lemma precision_entry (k : nat) (s : list nat) (var : Tensor) (j : nat) :
  shape var = k :: s -> wf var -> (j < numel s)%nat ->
  at_ (precision var) j = big_sum k (fun i => 1 / Rmax (entry var i j) 1e-7).
Proof.
  intros E H Hj. unfold precision.
  rewrite sum_dim0_entry with (k := k) (s := s); auto using tmap_wf.
  apply big_sum_ext. intros i Hi.
  unfold entry. simpl shape.
  pose proof (entry_in_range k s var i j E H Hi Hj) as Hr.
  rewrite at_tmap by (simpl; now rewrite length_map).
  rewrite at_tmap by exact Hr.
  reflexivity.
Qed.

(** The divisor is strictly positive as soon as one Gaussian is fused. *)
Lemma precision_pos (k : nat) (s : list nat) (var : Tensor) (j : nat) :
  (1 <= k)%nat -> shape var = k :: s -> wf var -> (j < numel s)%nat ->
  0 < at_ (precision var) j.
Proof.
  intros Hk E H Hj. rewrite precision_entry with (k := k) (s := s); auto.
  apply big_sum_pos; auto. intros i _.
  apply Rdiv_lt_0_compat; [lra|].
  apply Rlt_le_trans with (r2 := 1e-7); [lra | apply Rmax_r].
Qed.

Lemma weighted_entry (k : nat) (s : list nat) (mean var : Tensor) (j : nat) :
  shape mean = k :: s -> shape var = k :: s -> wf mean -> wf var ->
  (j < numel s)%nat ->
  at_ (sum_dim0 (mkTensor (shape mean)
         (zipWith Rdiv (data mean) (data (tmap (clamp_min 1e-7) var))))) j
  = big_sum k (fun i => entry mean i j / Rmax (entry var i j) 1e-7).
Proof.
  intros Em Ev Hm Hv Hj.
  assert (Hl : length (zipWith Rdiv (data mean) (data (tmap (clamp_min 1e-7) var)))
               = numel (k :: s)).
  { rewrite zipWith_length. simpl data. rewrite length_map.
    unfold wf in *. rewrite Hm, Hv, Em, Ev. apply Nat.min_id. }
  rewrite sum_dim0_entry with (k := k) (s := s); auto.
  - apply big_sum_ext. intros i Hi.
    pose proof (entry_in_range k s mean i j Em Hm Hi Hj) as Hrm.
    pose proof (entry_in_range k s var i j Ev Hv Hi Hj) as Hrv.
    unfold entry, at_ in *. simpl shape. simpl data.
    rewrite Em, Ev in *. simpl tl in *.
    rewrite nth_zipWith; [| lia | rewrite length_map; lia].
    f_equal.
    rewrite nth_indep with (d' := clamp_min 1e-7 0) by (rewrite length_map; lia).
    now rewrite map_nth.
  - unfold wf. simpl. now rewrite Em.
Qed.

(** Shape and entries of what [product_of_gaussians] returns. *)
Lemma product_of_gaussians_entries (k : nat) (s : list nat) (mean var : Tensor) :
  (1 <= k)%nat ->
  shape mean = k :: s -> shape var = k :: s -> wf mean -> wf var ->
  exists pog_mean pog_var,
    product_of_gaussians mean var = Ok (pog_mean, pog_var) /\
    shape pog_mean = s /\ shape pog_var = s /\
    wf pog_mean /\ wf pog_var /\
    forall j, (j < numel s)%nat ->
      at_ pog_var j = fused_var k (fun i => entry var i j) /\
      at_ pog_mean j
      = fused_mean k (fun i => entry mean i j) (fun i => entry var i j).
Proof.
  intros Hk Em Ev Hm Hv.
  pose proof (precision_shape k s var Ev) as Ps.
  pose proof (precision_wf k s var Ev Hv) as Pw.
  rewrite precision_unfold.
  unfold tdiv. rewrite tzip_same;
    [| simpl; congruence | assumption | now apply tmap_wf].
  simpl bind.
  set (mv := mkTensor (shape mean) _).
  assert (Smv : shape (sum_dim0 mv) = s)
    by (apply sum_dim0_shape with (k := k); subst mv; simpl; assumption).
  assert (Wmv : wf (sum_dim0 mv)).
  { apply sum_dim0_wf with (k := k) (s := s); [subst mv; simpl; assumption|].
    unfold wf. subst mv. simpl. rewrite zipWith_length, length_map.
    unfold wf in *. rewrite Hm, Hv, Em, Ev. apply Nat.min_id. }
  unfold tmul. rewrite tzip_same;
    [| simpl; congruence | now apply tmap_wf | assumption].
  simpl bind. do 2 eexists. split; [reflexivity|].
  assert (Lp : length (data (precision var)) = numel s)
    by (unfold wf in Pw; now rewrite Pw, Ps).
  assert (Lm : length (data (sum_dim0 mv)) = numel s)
    by (unfold wf in Wmv; now rewrite Wmv, Smv).
  repeat split.
  - simpl. assumption.
  - simpl. assumption.
  - unfold wf. simpl. rewrite zipWith_length, length_map, Lp, Lm, Ps.
    apply Nat.min_id.
  - now apply tmap_wf.
  - rewrite at_tmap by lia.
    unfold fused_var. f_equal. now apply precision_entry with (s := s).
  - unfold at_ at 1. simpl data.
    rewrite nth_zipWith by (rewrite ?length_map; lia).
    unfold fused_mean, fused_var.
    f_equal.
    + rewrite nth_indep with (d' := 1 / 0) by (rewrite length_map; lia).
      rewrite map_nth with (f := fun s => 1 / s).
      f_equal. now apply precision_entry with (s := s).
    + subst mv. now apply (weighted_entry k s mean var j).
Qed.

(** C1. For [k >= 1] Gaussians stacked along dimension 0,
    [product_of_gaussians] returns their precision-weighted fusion: with
    each variance clamped from below at [1e-7], the returned variance is the
    reciprocal of the sum of the reciprocal variances, and the returned mean
    is that variance times the sum of the means divided by their variances,
    entry by entry. *)
Theorem product_of_gaussians_fusion (k : nat) (s : list nat) (mean var : Tensor) :
  (1 <= k)%nat ->
  shape mean = k :: s -> shape var = k :: s -> wf mean -> wf var ->
  exists pog_mean pog_var,
    product_of_gaussians mean var = Ok (pog_mean, pog_var) /\
    shape pog_mean = s /\ shape pog_var = s /\
    wf pog_mean /\ wf pog_var /\
    forall j, (j < numel s)%nat ->
      at_ pog_var j = fused_var k (fun i => entry var i j) /\
      at_ pog_mean j
      = fused_mean k (fun i => entry mean i j) (fun i => entry var i j).
Proof. exact (product_of_gaussians_entries k s mean var). Qed.

Lemma product_of_gaussians_fusion_witness :
  exists pog_mean pog_var,
    product_of_gaussians (mkTensor [2%nat; 1%nat] [1; 3])
                         (mkTensor [2%nat; 1%nat] [2; 2])
    = Ok (pog_mean, pog_var) /\
    at_ pog_var 0 = 1 / (1 / Rmax 2 1e-7 + 1 / Rmax 2 1e-7) /\
    at_ pog_mean 0 = at_ pog_var 0 * (1 / Rmax 2 1e-7 + 3 / Rmax 2 1e-7).
Proof.
  destruct (product_of_gaussians_fusion 2 [1%nat]
              (mkTensor [2%nat; 1%nat] [1; 3]) (mkTensor [2%nat; 1%nat] [2; 2]))
    as (pm & pv & E & _ & _ & _ & _ & H); try reflexivity; try lia.
  exists pm, pv. split; [exact E|].
  destruct (H 0%nat) as [Hv Hmn]; [simpl; lia|].
  split.
  - rewrite Hv. unfold fused_var, entry, at_. simpl. f_equal. ring.
  - rewrite Hmn. unfold fused_mean. rewrite <- Hv.
    unfold entry, at_. simpl. f_equal. ring.
Defined.

End ProductOfGaussians.

Section ResultFacts.
Import Torch Spec.
Local Open Scope R_scope.

Lemma mapM_Ok (A B : Type) (f : A -> result B) (g : A -> B) (l : list A) :
  (forall x, In x l -> f x = Ok (g x)) -> mapM f l = Ok (map g l).
Proof.
  induction l as [|a l IH]; simpl; intros H; auto.
  rewrite H by auto. simpl. rewrite IH by auto. reflexivity.
Qed.

Lemma unbind_Ok (t : Tensor) (d : nat) (s : list nat) :
  shape t = d :: s ->
  unbind t = Ok (map (mkTensor s) (chunks d (numel s) (data t))).
Proof. unfold unbind. now intros ->. Qed.

Lemma stack_Ok (ts : list Tensor) (s : list nat) :
  ts <> [] -> Forall (fun t => shape t = s) ts ->
  stack ts = Ok (mkTensor (length ts :: s) (concat (map data ts))).
Proof.
  destruct ts as [|t0 ts]; [congruence|]. intros _ H. unfold stack.
  assert (E0 : shape t0 = s) by (inversion H; auto).
  replace (forallb _ (t0 :: ts)) with true; [now rewrite E0|].
  symmetry. apply forallb_forall. intros t Ht.
  rewrite Forall_forall in H. unfold list_eqb.
  destruct (list_eq_dec Nat.eq_dec (shape t) (shape t0)) as [|N]; auto.
  exfalso. apply N. rewrite E0. auto.
Qed.

Lemma nth_concat_uniform (w : nat) (rows : list (list R)) (t j : nat) (d : R) :
  Forall (fun r => length r = w) rows ->
  (t < length rows)%nat -> (j < w)%nat ->
  nth (t * w + j) (concat rows) d = nth j (nth t rows []) d.
Proof.
  intros H Ht Hj.
  rewrite <- (chunks_of_concat w rows H) at 2.
  now rewrite nth_nth_chunks.
Qed.

Lemma zipWith_fst (a b : list R) :
  length a = length b -> zipWith (fun x _ => x) a b = a.
Proof.
  revert b; induction a as [|x a IH]; intros [|y b]; simpl; intros H;
    try discriminate; auto.
  f_equal. apply IH. lia.
Qed.

Lemma zipWith_snd (a b : list R) :
  length a = length b -> zipWith (fun _ y => y) a b = b.
Proof.
  revert b; induction a as [|x a IH]; intros [|y b]; simpl; intros H;
    try discriminate; auto.
  f_equal. apply IH. lia.
Qed.

Lemma positive_true (x : R) : 0 < x -> Normal.positive x = true.
Proof. unfold Normal.positive. intros H. destruct (Rlt_dec 0 x); auto; lra. Qed.

Lemma positive_inv (x : R) : Normal.positive x = true -> 0 < x.
Proof. unfold Normal.positive. destruct (Rlt_dec 0 x); auto; discriminate. Qed.

(** A location and a positive scale of one shape make a distribution. *)
Lemma Normal_new_Ok (l s : Tensor) :
  shape l = shape s -> wf l -> wf s -> Forall (fun x => 0 < x) (data s) ->
  Normal.new l s = Ok (Normal.mk l s).
Proof.
  intros E Hl Hs Hp. unfold Normal.new, Normal.broadcast_all.
  rewrite !tzip_same by assumption. simpl.
  assert (El : length (data l) = length (data s))
    by (unfold wf in *; congruence).
  rewrite zipWith_fst, zipWith_snd by assumption.
  replace (forallb Normal.positive (data s)) with true.
  - rewrite E. destruct l, s; simpl in *; subst; reflexivity.
  - symmetry. apply forallb_forall. intros x Hx.
    apply positive_true. rewrite Forall_forall in Hp. auto.
Qed.

Lemma Normal_rsample_Ok (l s : Tensor) (noise : nat -> R) :
  shape l = shape s -> wf l -> wf s ->
  Normal.rsample (Normal.mk l s) noise
  = Ok (mkTensor (shape l)
         (zipWith Rplus (data l)
            (zipWith Rmult (map noise (seq 0 (numel (shape l)))) (data s)))).
Proof.
  intros E Hl Hs. unfold Normal.rsample. simpl Normal.loc. simpl Normal.scale.
  unfold tmul. rewrite tzip_same; [| assumption | | assumption].
  - simpl bind. unfold tadd. rewrite tzip_same; auto.
    unfold wf in *. simpl. rewrite zipWith_length, length_map, length_seq.
    rewrite Hs, <- E. lia.
  - unfold wf. simpl. now rewrite length_map, length_seq.
Qed.

End ResultFacts.

(** ** Sampling the latent task variable *)

Section SampleZ.
Import Torch Spec Pearl.
Local Open Scope R_scope.

Lemma chunks_In (n w : nat) (l r : list R) (y : R) :
  In r (chunks n w l) -> In y r -> In y l.
Proof.
  revert l; induction n as [|n IH]; simpl; intros l H Hy; [tauto|].
  rewrite <- (firstn_skipn w l). apply in_or_app.
  destruct H as [<-|H]; [left; assumption | right; eapply IH; eauto].
Qed.

Lemma length_concat_uniform (w : nat) (rows : list (list R)) :
  Forall (fun r => length r = w) rows ->
  length (concat rows) = (length rows * w)%nat.
Proof.
  induction 1 as [|r rows Hr _ IH]; simpl; auto.
  rewrite length_app, IH, Hr. lia.
Qed.

Lemma sample_z_rows (self : MLPEncoder) (T L : nat) (zm zv : Tensor)
    (epsilon : nat -> nat -> R) :
  z_mean self = Some zm -> z_var self = Some zv ->
  shape zm = [T; L] -> shape zv = [T; L] -> wf zm -> wf zv ->
  (1 <= T)%nat -> Forall (fun v => 0 < v) (data zv) ->
  exists tz,
    sample_z epsilon self = (Ok tt, set_task_z (Some tz) self) /\
    shape tz = [T; L] /\ wf tz /\
    forall t j, (t < T)%nat -> (j < L)%nat ->
      entry tz t j = entry zm t j + sqrt (entry zv t j) * epsilon t j.
Proof.
  intros Hzm Hzv Sm Sv Wm Wv HT Hpos.
  unfold sample_z, mbind, self_, lift. rewrite Hzm, Hzv. simpl tensor_of. cbv iota beta.
  rewrite (unbind_Ok zm T [L] Sm), (unbind_Ok zv T [L] Sv).
  cbv iota beta.
  assert (N1 : numel [L] = L) by (simpl; lia). rewrite N1.
  assert (Lm : length (data zm) = (T * L)%nat) by (unfold wf in Wm; rewrite Wm, Sm; simpl; lia).
  assert (Lv : length (data zv) = (T * L)%nat) by (unfold wf in Wv; rewrite Wv, Sv; simpl; lia).
  pose proof (chunks_Forall_length T L (data zm) ltac:(lia)) as Fm.
  pose proof (chunks_Forall_length T L (data zv) ltac:(lia)) as Fv.
  set (rm := chunks T L (data zm)) in *.
  set (rv := chunks T L (data zv)) in *.
  rewrite (mapM_Ok _ _ _ (fun mv => Normal.mk (fst mv) (tmap sqrt (snd mv)))).
  2:{ intros [m v] Hin. simpl.
      pose proof (in_combine_l _ _ _ _ Hin) as Hm. pose proof (in_combine_r _ _ _ _ Hin) as Hv.
      apply in_map_iff in Hm. destruct Hm as (xm & <- & Hxm).
      apply in_map_iff in Hv. destruct Hv as (xv & <- & Hxv).
      rewrite Forall_forall in Fm, Fv.
      apply Normal_new_Ok; simpl; auto.
      - unfold wf. simpl. rewrite Fm by auto. lia.
      - unfold wf. simpl. rewrite length_map, Fv by auto. lia.
      - apply Forall_forall. intros x Hx. apply in_map_iff in Hx.
        destruct Hx as (y & <- & Hy). apply sqrt_lt_R0.
        rewrite Forall_forall in Hpos. apply Hpos.
        eapply chunks_In; eauto. }
  cbv iota beta.
  set (dists := map _ (combine (map (mkTensor [L]) rm) (map (mkTensor [L]) rv))).
  assert (Ld : length dists = T).
  { subst dists. rewrite length_map, length_combine, !length_map.
    subst rm rv. rewrite !chunks_length. lia. }
  assert (Hd : forall d, In d dists ->
            exists xm xv, d = Normal.mk (mkTensor [L] xm) (mkTensor [L] (map sqrt xv))
                          /\ length xm = L /\ length xv = L).
  { intros d Hin. subst dists. apply in_map_iff in Hin.
    destruct Hin as ([m v] & <- & Hin).
    pose proof (in_combine_l _ _ _ _ Hin) as Hm. pose proof (in_combine_r _ _ _ _ Hin) as Hv.
    apply in_map_iff in Hm. destruct Hm as (xm & <- & Hxm).
    apply in_map_iff in Hv. destruct Hv as (xv & <- & Hxv).
    rewrite Forall_forall in Fm, Fv.
    exists xm, xv. repeat split; auto. }
  rewrite (mapM_Ok _ _ _ (fun id => mkTensor [L]
             (zipWith Rplus (data (Normal.loc (snd id)))
                (zipWith Rmult (map (epsilon (fst id)) (seq 0 L))
                               (data (Normal.scale (snd id))))))).
  2:{ intros [i d] Hin. simpl fst. simpl snd.
      apply in_combine_r in Hin. destruct (Hd d Hin) as (xm & xv & -> & Hxm & Hxv).
      rewrite Normal_rsample_Ok.
      - unfold Normal.loc, Normal.scale, shape, data. now rewrite N1.
      - reflexivity.
      - unfold wf. simpl. lia.
      - unfold wf. simpl. rewrite length_map. lia. }
  rewrite Ld.
  rewrite (stack_Ok _ [L]).
  2:{ intros E. apply (f_equal (@length _)) in E.
      rewrite length_map, length_combine, length_seq, Ld in E. simpl in E. lia. }
  2:{ apply Forall_forall. intros x Hx. apply in_map_iff in Hx.
      destruct Hx as (y & <- & _). reflexivity. }
  eexists. split; [reflexivity|].
  set (h := fun id : nat * Normal.t => zipWith Rplus (data (Normal.loc (snd id)))
                (zipWith Rmult (map (epsilon (fst id)) (seq 0 L))
                               (data (Normal.scale (snd id))))).
  set (rows := map h (combine (seq 0 T) dists)).
  assert (Lr : length rows = T).
  { subst rows. rewrite length_map, length_combine, length_seq, Ld. lia. }
  assert (Fr : Forall (fun r => length r = L) rows).
  { subst rows. apply Forall_forall. intros r Hr. apply in_map_iff in Hr.
    destruct Hr as ([i d] & <- & Hin). apply in_combine_r in Hin.
    destruct (Hd d Hin) as (xm & xv & -> & Hxm & Hxv). subst h. simpl.
    rewrite !zipWith_length, !length_map, length_seq. lia. }
  unfold wf. simpl shape. simpl data. rewrite !map_map.
  match goal with |- context [concat ?x] => change x with rows end.
  rewrite length_map, length_combine, length_seq, Ld, Nat.min_id.
  split; [reflexivity|]. split.
  { rewrite (length_concat_uniform L rows Fr), Lr. simpl. lia. }
  intros t j Ht Hj. unfold entry, at_. rewrite Sm, Sv. simpl tl. simpl data.
  rewrite N1.
  rewrite nth_concat_uniform by (auto; lia).
  subst rows.
  set (d0 := Normal.mk (mkTensor [L] []) (tmap sqrt (mkTensor [L] []))).
  rewrite (nth_indep _ [] (h (0%nat, d0)))
    by (rewrite length_map, length_combine, length_seq, Ld; lia).
  rewrite map_nth, combine_nth by (now rewrite length_seq).
  rewrite seq_nth by lia. simpl Nat.add.
  subst dists.
  change d0 with ((fun mv => Normal.mk (fst mv) (tmap sqrt (snd mv)))
                    (mkTensor [L] [], mkTensor [L] [])).
  rewrite map_nth, combine_nth
    by (rewrite !length_map; subst rm rv; now rewrite !chunks_length).
  rewrite !map_nth.
  subst h. simpl.
  assert (Lrm : length (nth t rm []) = L)
    by (apply Forall_nth; [exact Fm | subst rm; rewrite chunks_length; lia]).
  assert (Lrv : length (nth t rv []) = L)
    by (apply Forall_nth; [exact Fv | subst rv; rewrite chunks_length; lia]).
  rewrite !nth_zipWith
    by (rewrite ?zipWith_length, ?length_map, ?length_seq; lia).
  rewrite (nth_indep (map (epsilon t) (seq 0 L)) 0 (epsilon t 0%nat))
    by (rewrite length_map, length_seq; lia).
  rewrite map_nth, seq_nth by lia. simpl Nat.add.
  rewrite (nth_indep (map sqrt (nth t rv [])) 0 (sqrt 0))
    by (rewrite length_map; lia).
  rewrite map_nth.
  subst rm rv. rewrite !nth_nth_chunks by lia.
  ring.
Qed.

Lemma reparam_derivable_mean (m s e : R) :
  derivable_pt_lim (fun m' => m' + s * e) m 1.
Proof.
  replace 1 with (1 + 0) by ring.
  apply (derivable_pt_lim_plus id (fct_cte (s * e))).
  - apply derivable_pt_lim_id.
  - apply derivable_pt_lim_const.
Qed.

Lemma reparam_derivable_var (m v e : R) :
  0 < v ->
  derivable_pt_lim (fun v' => m + sqrt v' * e) v (e / (2 * sqrt v)).
Proof.
  intros Hv.
  replace (e / (2 * sqrt v)) with (0 + (/ (2 * sqrt v) * e + sqrt v * 0)).
  - apply (derivable_pt_lim_plus (fct_cte m) (sqrt * fct_cte e)%F).
    + apply derivable_pt_lim_const.
    + apply (derivable_pt_lim_mult sqrt (fct_cte e)).
      * now apply derivable_pt_lim_sqrt.
      * apply derivable_pt_lim_const.
  - pose proof (sqrt_lt_R0 v Hv). field. lra.
Qed.

Lemma entry_pos (T L : nat) (zv : Tensor) (t j : nat) :
  shape zv = [T; L] -> wf zv -> Forall (fun v => 0 < v) (data zv) ->
  (t < T)%nat -> (j < L)%nat -> 0 < entry zv t j.
Proof.
  intros S W F Ht Hj. unfold entry, at_.
  rewrite Forall_nth in F. apply F.
  unfold wf in W. rewrite W, S. simpl. nia.
Qed.

(** C6. With the standard-normal draws [epsilon t j] given, and for a
    posterior over [T >= 1] tasks whose variances are all strictly positive,
    [sample_z] returns and sets [task_z] to the tensor of shape [(T, L)]
    whose entry for task [t] and latent dimension [j] is
    [z_mean + sqrt z_var * epsilon]; that entry is differentiable in
    [z_mean] (derivative 1) and in [z_var] (derivative
    [epsilon / (2 sqrt z_var)]).  For [T = 0] [torch.stack] rejects the
    empty list and the call raises. *)
Theorem sample_z_reparameterization (self : MLPEncoder) (T L : nat)
    (zm zv : Tensor) (epsilon : nat -> nat -> R) :
  z_mean self = Some zm -> z_var self = Some zv ->
  shape zm = [T; L] -> shape zv = [T; L] -> wf zm -> wf zv ->
  (1 <= T)%nat -> Forall (fun v => 0 < v) (data zv) ->
  exists tz,
    sample_z epsilon self = (Ok tt, set_task_z (Some tz) self) /\
    shape tz = [T; L] /\ wf tz /\
    forall t j, (t < T)%nat -> (j < L)%nat ->
      entry tz t j = entry zm t j + sqrt (entry zv t j) * epsilon t j /\
      derivable_pt_lim (fun m => m + sqrt (entry zv t j) * epsilon t j)
                       (entry zm t j) 1 /\
      derivable_pt_lim (fun v => entry zm t j + sqrt v * epsilon t j)
                       (entry zv t j)
                       (epsilon t j / (2 * sqrt (entry zv t j))).
Proof.
  intros Hzm Hzv Sm Sv Wm Wv HT Hpos.
  destruct (sample_z_rows self T L zm zv epsilon Hzm Hzv Sm Sv Wm Wv HT Hpos)
    as (tz & E & St & Wt & Hent).
  exists tz. repeat split; auto.
  - apply reparam_derivable_mean.
  - apply reparam_derivable_var. now apply entry_pos with (T := T) (L := L).
Qed.

Lemma sample_z_reparameterization_witness :
  exists tz,
    sample_z (fun _ _ => 2) Example.encoder
    = (Ok tt, set_task_z (Some tz) Example.encoder) /\
    shape tz = [1%nat; 1%nat] /\
    entry tz 0 0 = 0 + sqrt 1 * 2.
Proof.
  destruct (sample_z_reparameterization Example.encoder 1 1
              (mkTensor [1%nat; 1%nat] [0]) (mkTensor [1%nat; 1%nat] [1])
              (fun _ _ => 2))
    as (tz & E & St & _ & H);
    try reflexivity; try lia.
  - repeat constructor. lra.
  - exists tz. repeat split; auto.
    destruct (H 0%nat 0%nat) as [H0 _]; try lia. exact H0.
Defined.

End SampleZ.

(** ** Divergence from the prior *)

Section KLDivergenceFacts.
Import Torch Spec Pearl.
Local Open Scope R_scope.

Lemma nth_map_lt (f : R -> R) (l : list R) (j : nat) (d : R) :
  (j < length l)%nat -> nth j (map f l) d = f (nth j l d).
Proof.
  intros H. rewrite (nth_indep (map f l) d (f d)) by (now rewrite length_map).
  apply map_nth.
Qed.

Lemma fold_left_Rplus_acc (l : list R) (a : R) :
  fold_left Rplus l a = a + fold_left Rplus l 0.
Proof.
  revert a; induction l as [|x l IH]; intros a; simpl; [ring|].
  rewrite IH, (IH (0 + x)). ring.
Qed.

Lemma sum_list_app (a b : list R) :
  sum_list (a ++ b) = sum_list a + sum_list b.
Proof.
  unfold sum_list. rewrite fold_left_app. apply fold_left_Rplus_acc.
Qed.

Lemma sum_list_big_sum (l : list R) :
  sum_list l = big_sum (length l) (fun j => nth j l 0).
Proof.
  rewrite big_sum_fold. unfold sum_list. now rewrite <- list_map_nth_seq.
Qed.

Lemma sum_list_cons (x : R) (l : list R) :
  sum_list (x :: l) = x + sum_list l.
Proof.
  unfold sum_list. simpl. rewrite fold_left_Rplus_acc. ring.
Qed.

Lemma sum_list_concat (rows : list (list R)) :
  sum_list (concat rows) = sum_list (map sum_list rows).
Proof.
  induction rows as [|r rows IH]; simpl; auto.
  now rewrite sum_list_app, IH, sum_list_cons.
Qed.

(** The sum of all entries of uniform rows, as a double sum. *)
Lemma sum_list_rows (T L : nat) (rows : list (list R)) :
  length rows = T -> Forall (fun r => length r = L) rows ->
  sum_list (concat rows)
  = big_sum T (fun t => big_sum L (fun j => nth j (nth t rows []) 0)).
Proof.
  intros HT F. rewrite sum_list_concat, sum_list_big_sum, length_map, HT.
  apply big_sum_ext. intros t Ht.
  rewrite (nth_indep (map sum_list rows) 0 (sum_list []))
    by (rewrite length_map; lia).
  rewrite map_nth, sum_list_big_sum.
  replace (length (nth t rows [])) with L; auto.
  symmetry. apply Forall_nth; auto. lia.
Qed.

Lemma kl_divergence_Ok (l s l' s' : Tensor) :
  shape l = shape s -> shape l' = shape l -> shape s' = shape l ->
  wf l -> wf s -> wf l' -> wf s' ->
  Normal.kl_divergence (Normal.mk l s) (Normal.mk l' s')
  = Ok (mkTensor (shape l)
         (map (fun x => 0.5 * x)
            (zipWith Rminus
               (map (fun x => x - 1)
                  (zipWith Rplus
                     (map (fun x => x ^ 2) (zipWith Rdiv (data s) (data s')))
                     (map (fun x => x ^ 2)
                        (zipWith Rdiv (zipWith Rminus (data l) (data l')) (data s')))))
               (map ln (map (fun x => x ^ 2) (zipWith Rdiv (data s) (data s'))))))).
Proof.
  intros E1 E2 E3 Wl Ws Wl' Ws'.
  unfold wf in *.
  assert (Ll : length (data l) = numel (shape l)) by assumption.
  assert (Ls : length (data s) = numel (shape l)) by congruence.
  assert (Ll' : length (data l') = numel (shape l)) by congruence.
  assert (Ls' : length (data s') = numel (shape l)) by congruence.
  unfold Normal.kl_divergence, tdiv, tsub, tadd. simpl Normal.loc. simpl Normal.scale.
  rewrite (tzip_same Rdiv s s') by (unfold wf; congruence). simpl bind.
  rewrite (tzip_same Rminus l l') by (unfold wf; congruence). simpl bind.
  rewrite tzip_same;
    [| simpl; congruence
     | unfold wf; simpl; rewrite zipWith_length; lia
     | unfold wf; congruence ].
  simpl bind.
  rewrite tzip_same;
    [| simpl; congruence
     | unfold wf; simpl; rewrite length_map, zipWith_length, <- E1; lia
     | unfold wf; simpl; rewrite length_map, !zipWith_length; lia ].
  simpl bind.
  rewrite tzip_same;
    [| simpl; congruence
     | unfold wf; simpl; rewrite !length_map, !zipWith_length, !length_map, !zipWith_length, <- E1; lia
     | unfold wf; simpl; rewrite !length_map, zipWith_length, <- E1; lia ].
  simpl. now rewrite E1.
Qed.

Lemma nth_repeat_lt (a d : R) (n j : nat) :
  (j < n)%nat -> nth j (repeat a n) d = a.
Proof.
  intros H. rewrite (nth_indep _ d a) by (now rewrite repeat_length).
  apply nth_repeat.
Qed.

End KLDivergenceFacts.

Ltac len :=
  repeat first [ rewrite zipWith_length | rewrite length_map
               | rewrite length_seq | rewrite repeat_length ];
  lia.

Ltac push_nth :=
  repeat first [ rewrite nth_map_lt by len | rewrite nth_zipWith by len ].

Section KLDivergence.
Import Torch Spec Pearl.
Local Open Scope R_scope.

Lemma kl_entry (m v : R) :
  0 < v ->
  0.5 * ((sqrt v / 1) ^ 2 + ((m - 0) / 1) ^ 2 - 1 - ln ((sqrt v / 1) ^ 2))
  = kl_closed_form m v.
Proof.
  intros Hv. unfold kl_closed_form.
  replace (sqrt v / 1) with (sqrt v) by field.
  rewrite pow2_sqrt by lra. lra.
Qed.

Lemma bind_Ok (A B : Type) (a : A) (k : A -> result B) : bind (Ok a) k = k a.
Proof. reflexivity. Qed.

(** C3. For a posterior over [T >= 1] tasks whose variances are all
    strictly positive, [compute_kl_div] returns the sum, over every task and
    every latent dimension, of the closed-form KL divergence of
    [N(z_mean, sqrt z_var)] from the standard-normal prior:
    [(-1/2) ln v + (v + mu^2)/2 - 1/2] for every entry [(mu, v)].  For
    [T = 0] [torch.stack] rejects the empty list and the call raises. *)
Theorem compute_kl_div_closed_form (self : MLPEncoder) (T : nat) (zm zv : Tensor) :
  z_mean self = Some zm -> z_var self = Some zv ->
  shape zm = [T; latent_dim self] -> shape zv = [T; latent_dim self] ->
  wf zm -> wf zv ->
  (1 <= T)%nat -> Forall (fun v => 0 < v) (data zv) ->
  compute_kl_div self
  = Ok (mkTensor []
         [big_sum T (fun t => big_sum (latent_dim self) (fun j =>
            kl_closed_form (entry zm t j) (entry zv t j)))]).
Proof.
  intros Hzm Hzv Sm Sv Wm Wv HT Hpos.
  set (L := latent_dim self) in *.
  assert (N1 : numel [L] = L) by (simpl; lia).
  unfold compute_kl_div. fold L.
  rewrite Normal_new_Ok;
    [| reflexivity
     | unfold wf; simpl; now rewrite repeat_length
     | unfold wf; simpl; now rewrite repeat_length
     | simpl; apply Forall_forall; intros x Hx; apply repeat_spec in Hx; lra ].
  rewrite ?bind_Ok; cbv beta. rewrite Hzm, Hzv. unfold tensor_of. rewrite ?bind_Ok; cbv beta.
  rewrite (unbind_Ok zm T [L] Sm), (unbind_Ok zv T [L] Sv). rewrite ?bind_Ok; cbv beta.
  rewrite N1.
  assert (Lm : length (data zm) = (T * L)%nat)
    by (unfold wf in Wm; rewrite Wm, Sm; simpl; lia).
  assert (Lv : length (data zv) = (T * L)%nat)
    by (unfold wf in Wv; rewrite Wv, Sv; simpl; lia).
  pose proof (chunks_Forall_length T L (data zm) ltac:(lia)) as Fm.
  pose proof (chunks_Forall_length T L (data zv) ltac:(lia)) as Fv.
  set (rm := chunks T L (data zm)) in *.
  set (rv := chunks T L (data zv)) in *.
  rewrite (mapM_Ok _ _ _ (fun mv => Normal.mk (fst mv) (tmap sqrt (snd mv)))).
  2:{ intros [m v] Hin. simpl.
      pose proof (in_combine_l _ _ _ _ Hin) as Hm.
      pose proof (in_combine_r _ _ _ _ Hin) as Hv.
      apply in_map_iff in Hm. destruct Hm as (xm & <- & Hxm).
      apply in_map_iff in Hv. destruct Hv as (xv & <- & Hxv).
      rewrite Forall_forall in Fm, Fv.
      apply Normal_new_Ok; simpl; auto.
      - unfold wf. simpl. rewrite Fm by auto. lia.
      - unfold wf. simpl. rewrite length_map, Fv by auto. lia.
      - apply Forall_forall. intros x Hx. apply in_map_iff in Hx.
        destruct Hx as (y & <- & Hy). apply sqrt_lt_R0.
        rewrite Forall_forall in Hpos. apply Hpos.
        eapply chunks_In; eauto. }
  rewrite ?bind_Ok; cbv beta.
  set (dists := map _ (combine (map (mkTensor [L]) rm) (map (mkTensor [L]) rv))).
  set (kl := fun d : Normal.t =>
     map (fun x => 0.5 * x)
       (zipWith Rminus
          (map (fun x => x - 1)
             (zipWith Rplus
                (map (fun x => x ^ 2)
                   (zipWith Rdiv (data (Normal.scale d)) (repeat 1 (numel [L]))))
                (map (fun x => x ^ 2)
                   (zipWith Rdiv
                      (zipWith Rminus (data (Normal.loc d)) (repeat 0 (numel [L])))
                      (repeat 1 (numel [L]))))))
          (map ln (map (fun x => x ^ 2)
                     (zipWith Rdiv (data (Normal.scale d)) (repeat 1 (numel [L]))))))).
  assert (Ld : length dists = T).
  { subst dists. rewrite length_map, length_combine, !length_map.
    subst rm rv. rewrite !chunks_length. lia. }
  assert (Hd : forall d, In d dists ->
            exists xm xv, d = Normal.mk (mkTensor [L] xm) (mkTensor [L] (map sqrt xv))
                          /\ length xm = L /\ length xv = L).
  { intros d Hin. subst dists. apply in_map_iff in Hin.
    destruct Hin as ([m v] & <- & Hin).
    pose proof (in_combine_l _ _ _ _ Hin) as Hm.
    pose proof (in_combine_r _ _ _ _ Hin) as Hv.
    apply in_map_iff in Hm. destruct Hm as (xm & <- & Hxm).
    apply in_map_iff in Hv. destruct Hv as (xv & <- & Hxv).
    rewrite Forall_forall in Fm, Fv.
    exists xm, xv. repeat split; auto. }
  rewrite (mapM_Ok _ _ _ (fun d => mkTensor [L] (kl d))).
  2:{ intros d Hin. destruct (Hd d Hin) as (xm & xv & -> & Hxm & Hxv).
      rewrite kl_divergence_Ok; try reflexivity;
        unfold wf; simpl; rewrite ?length_map, ?repeat_length; lia. }
  rewrite ?bind_Ok; cbv beta.
  rewrite (stack_Ok _ [L]).
  2:{ intros E. apply (f_equal (@length _)) in E.
      rewrite length_map, Ld in E. simpl in E. lia. }
  2:{ apply Forall_forall. intros x Hx. apply in_map_iff in Hx.
      destruct Hx as (y & <- & _). reflexivity. }
  rewrite ?bind_Ok; cbv beta. unfold sum_all. simpl data. rewrite map_map. simpl data.
  do 3 f_equal.
  assert (Fr : Forall (fun r => length r = L) (map kl dists)).
  { apply Forall_forall. intros r Hr. apply in_map_iff in Hr.
    destruct Hr as (d & <- & Hin).
    destruct (Hd d Hin) as (xm & xv & -> & Hxm & Hxv). subst kl. cbv beta.
    simpl Normal.loc. simpl Normal.scale. simpl data. rewrite N1. len. }
  rewrite (sum_list_rows T L) by (auto; now rewrite length_map).
  apply big_sum_ext. intros t Ht. apply big_sum_ext. intros j Hj.
  set (d0 := Normal.mk (mkTensor [L] []) (tmap sqrt (mkTensor [L] []))).
  rewrite (nth_indep (map kl dists) [] (kl d0)) by (rewrite length_map; lia).
  rewrite map_nth.
  subst dists.
  change d0 with ((fun mv => Normal.mk (fst mv) (tmap sqrt (snd mv)))
                    (mkTensor [L] [], mkTensor [L] [])).
  rewrite map_nth, combine_nth
    by (rewrite !length_map; subst rm rv; now rewrite !chunks_length).
  rewrite !map_nth.
  assert (Lrm : length (nth t rm []) = L)
    by (apply Forall_nth; [exact Fm | subst rm; rewrite chunks_length; lia]).
  assert (Lrv : length (nth t rv []) = L)
    by (apply Forall_nth; [exact Fv | subst rv; rewrite chunks_length; lia]).
  subst kl. cbv beta. simpl fst. simpl snd. simpl Normal.loc. simpl Normal.scale.
  unfold tmap. simpl data. rewrite N1.
  push_nth.
  rewrite !nth_repeat_lt by lia.
  subst rm rv. rewrite !nth_nth_chunks by lia.
  unfold entry, at_. rewrite Sm, Sv. simpl tl. rewrite N1.
  apply kl_entry.
  rewrite Forall_nth in Hpos. apply Hpos. nia.
Qed.

Lemma compute_kl_div_closed_form_witness :
  compute_kl_div Example.encoder
  = Ok (mkTensor [] [0 + (0 + kl_closed_form 0 1)]).
Proof.
  apply (compute_kl_div_closed_form Example.encoder 1
           (mkTensor [1%nat; 1%nat] [0]) (mkTensor [1%nat; 1%nat] [1]));
    try reflexivity; try lia.
  repeat constructor. lra.
Defined.

End KLDivergence.

(** * The numbers a [float32] tensor holds *)

Section Binary32.
Import Torch.
Local Open Scope R_scope.















End Binary32.

(** * The policy *)

Section Policy.
Import Torch Spec Pearl.
Local Open Scope R_scope.

Lemma numel_app (s1 s2 : list nat) : numel (s1 ++ s2) = (numel s1 * numel s2)%nat.
Proof.
  induction s1 as [|d s1 IH]; simpl; [lia|]. rewrite IH. lia.
Qed.

Lemma numel_last (s : list nat) (d : nat) : numel (s ++ [d]) = (numel s * d)%nat.
Proof. rewrite numel_app. simpl. lia. Qed.

Lemma list_eqb_refl (s : list nat) : list_eqb s s = true.
Proof. unfold list_eqb. destruct (list_eq_dec Nat.eq_dec s s); congruence. Qed.

Lemma shape_snoc_cases (s : list nat) (d : nat) :
  exists a r, s ++ [d] = a :: r.
Proof. destruct s as [|a r]; simpl; eauto. Qed.

Lemma linear_row_length (W : list (list R)) (b x : list R) :
  length (linear_row W b x) = Nat.min (length W) (length b).
Proof. unfold linear_row. now rewrite length_map, length_combine. Qed.

Lemma Linear_forward_Ok (i o : nat) (l : Linear) (s : list nat) (x : Tensor) :
  Linear_typed i o l -> shape x = s ++ [i] -> wf x ->
  exists y, Linear_forward l x = Ok y /\ shape y = s ++ [o] /\ wf y.
Proof.
  intros (Sw & Sb & Ww & Wb) Sx Wx.
  unfold Linear_forward. rewrite Sw, Sx.
  destruct (shape_snoc_cases s i) as (a & r & E). rewrite E. rewrite <- E.
  rewrite removelast_last, last_last, Nat.eqb_refl, Sb, list_eqb_refl.
  simpl andb. cbv iota.
  eexists. split; [reflexivity|]. split; [reflexivity|].
  unfold wf. simpl shape. simpl data.
  rewrite (length_concat_uniform o).
  - rewrite length_map, chunks_length, numel_last. reflexivity.
  - apply Forall_forall. intros row Hr. apply in_map_iff in Hr.
    destruct Hr as (c & <- & _).
    rewrite linear_row_length, chunks_length.
    unfold wf in Wb. rewrite Wb, Sb. simpl. lia.
Qed.

Lemma hidden_fold_Raise (f : R -> R) (ls : list Linear) (e : exn) :
  fold_left
    (fun acc fc_layer =>
       x <- acc ;; y <- Linear_forward fc_layer x ;; Ok (tmap f y))
    ls (Raise e) = Raise e.
Proof. induction ls; simpl; auto. Qed.

Lemma hidden_Ok (m : MLP) (h : nat) (s : list nat) (x : Tensor) :
  layers_typed (input_dim m) (fc_layers m) h ->
  shape x = s ++ [input_dim m] -> wf x ->
  exists y, hidden m x = Ok y /\ shape y = s ++ [h] /\ wf y.
Proof.
  unfold hidden. generalize (input_dim m) as i. generalize (fc_layers m) as ls.
  intros ls; revert x; induction ls as [|l ls IH]; intros x i Ht Sx Wx.
  - simpl in *. subst. eauto.
  - destruct Ht as (k & Hl & Hls). simpl fold_left.
    destruct (Linear_forward_Ok i k l s x Hl Sx Wx) as (y & E & Sy & Wy).
    rewrite E. rewrite bind_Ok. cbv beta.
    apply (IH (tmap (hidden_activation m) y) k); auto using tmap_wf.
Qed.

Lemma MLP_forward_Ok (m : MLP) (s : list nat) (x : Tensor) :
  MLP_typed m -> shape x = s ++ [input_dim m] -> wf x ->
  exists y, MLP_forward m x = Ok y /\ shape y = s ++ [output_dim m] /\ wf y.
Proof.
  intros (h & Hl & Hlast) Sx Wx. unfold MLP_forward.
  destruct (hidden_Ok m h s x Hl Sx Wx) as (y & E & Sy & Wy).
  rewrite E, bind_Ok. now apply Linear_forward_Ok with (i := h).
Qed.

Lemma Linear_new_typed (i o : nat) (w0 b0 : nat -> R) :
  Linear_typed i o (Linear_new i o w0 b0).
Proof.
  unfold Linear_typed, Linear_new, wf. simpl.
  rewrite !length_map, !length_seq. repeat split; lia.
Qed.

Lemma MLP_new_typed (i o h : nat) (f : R -> R) (w0 b0 : nat -> nat -> R) :
  MLP_typed (MLP_new i o h f w0 b0).
Proof.
  exists h. simpl. split; [|apply Linear_new_typed].
  exists h. split; [apply Linear_new_typed|].
  exists h. split; [apply Linear_new_typed|].
  exists h. split; [apply Linear_new_typed|]. reflexivity.
Qed.

Lemma TanhGaussianPolicy_new_typed (i o h : nat) (d : bool)
    (w0 b0 : nat -> nat -> R) :
  TanhGaussianPolicy_typed (TanhGaussianPolicy_new i o h d w0 b0).
Proof.
  destruct (MLP_new_typed i o h relu w0 b0) as (k & Hl & Hlast).
  exists h. simpl. repeat split; try apply Linear_new_typed.
  exists h. split; [apply Linear_new_typed|].
  exists h. split; [apply Linear_new_typed|].
  exists h. split; [apply Linear_new_typed|]. reflexivity.
Qed.

Lemma mean_std_Ok (self : TanhGaussianPolicy) (s : list nat) (x : Tensor) :
  TanhGaussianPolicy_typed self ->
  shape x = s ++ [input_dim (base self)] -> wf x ->
  exists mean log_std,
    mean_std self x
    = Ok (mean, tmap exp (tmap (clamp LOG_SIG_MIN LOG_SIG_MAX) log_std)) /\
    shape mean = s ++ [output_dim (base self)] /\ wf mean /\
    shape log_std = s ++ [output_dim (base self)] /\ wf log_std.
Proof.
  intros (h & Hl & Hm & Hs) Sx Wx. unfold mean_std.
  destruct (hidden_Ok (base self) h s x Hl Sx Wx) as (y & E & Sy & Wy).
  rewrite E, bind_Ok.
  destruct (Linear_forward_Ok _ _ _ s y Hm Sy Wy) as (mean & Em & Sm & Wm).
  destruct (Linear_forward_Ok _ _ _ s y Hs Sy Wy) as (ls & Es & Ss & Ws).
  rewrite Em, bind_Ok, Es, bind_Ok. eauto 10.
Qed.
Lemma exp_opp_mult (x : R) : exp x * exp (- x) = 1.
Proof. rewrite <- exp_plus, Rplus_opp_r. apply exp_0. Qed.


Lemma one_minus_tanh2 (x : R) :
  1 - tanh x ^ 2 = (2 * / (exp x + exp (- x))) ^ 2.
Proof.
  unfold tanh, sinh, cosh.
  pose proof (exp_pos x) as Ha. pose proof (exp_pos (- x)) as Hb.
  pose proof (exp_opp_mult x) as Hab.
  set (a := exp x) in *. set (b := exp (- x)) in *.
  transitivity (4 * (a * b) / (a + b) ^ 2); [field; lra|].
  rewrite Hab. field. lra.
Qed.

Lemma softplus_below (x : R) : x <= 20 -> softplus x = ln (1 + exp x).
Proof. intros H. unfold softplus. destruct (Rlt_dec 20 x); [lra | reflexivity]. Qed.

Lemma softplus_above (x : R) : 20 < x -> softplus x = x.
Proof. intros H. unfold softplus. destruct (Rlt_dec 20 x); [reflexivity | lra]. Qed.

(** The logarithm of the Jacobian of [tanh], in the form the code's
    comment derives. *)
Lemma ln_one_minus_tanh2 (x : R) :
  ln (1 - tanh x ^ 2) = 2 * (ln 2 - x - ln (1 + exp (-2 * x))).
Proof.
  rewrite one_minus_tanh2.
  pose proof (exp_pos x) as Ha. pose proof (exp_pos (- x)) as Hb.
  pose proof (exp_opp_mult x) as Hab.
  assert (E2 : exp (-2 * x) = exp (- x) * exp (- x))
    by (rewrite <- exp_plus; f_equal; ring).
  assert (Es : exp x + exp (- x) = exp x * (1 + exp (-2 * x))).
  { rewrite E2. rewrite Rmult_plus_distr_l, <- Rmult_assoc, Hab. ring. }
  assert (Hp : 0 < 1 + exp (-2 * x)) by (pose proof (exp_pos (-2 * x)); lra).
  assert (Hi : 0 < / (exp x + exp (- x))) by (apply Rinv_0_lt_compat; lra).
  simpl pow. rewrite Rmult_1_r.
  rewrite ln_mult by lra.
  rewrite ln_mult by lra.
  rewrite ln_Rinv by lra.
  rewrite Es, ln_mult by lra. rewrite ln_exp. ring.
Qed.

(** Where [softplus] is below its threshold, the correction term of the
    policy is the log-Jacobian of [tanh]. *)
Lemma squash_correction_log (x : R) :
  -10 <= x -> squash_correction x = ln (1 - tanh x ^ 2).
Proof.
  intros Hx. unfold squash_correction.
  rewrite softplus_below by lra. symmetry. apply ln_one_minus_tanh2.
Qed.

(** Above the threshold [softplus] is linear, and so is the correction. *)
Lemma squash_correction_linear (x : R) :
  x < -10 -> squash_correction x = 2 * (ln 2 + x).
Proof.
  intros Hx. unfold squash_correction. rewrite softplus_above by lra. ring.
Qed.

Lemma ln_1_plus_bounds (t : R) : 0 < t -> 0 < ln (1 + t) < t.
Proof.
  intros Ht. split.
  - rewrite <- ln_1. apply ln_increasing; lra.
  - pose proof (exp_ineq1 t ltac:(lra)) as H.
    rewrite <- (ln_exp t) at 2. apply ln_increasing; lra.
Qed.

Lemma squash_correction_gap (x : R) :
  x < -10 ->
  ln (1 - tanh x ^ 2) < squash_correction x
  < ln (1 - tanh x ^ 2) + 2 * exp (-20).
Proof.
  intros Hx. rewrite (squash_correction_linear x Hx), ln_one_minus_tanh2.
  assert (E : ln (1 + exp (-2 * x)) = -2 * x + ln (1 + exp (2 * x))).
  { assert (F : 1 + exp (-2 * x) = exp (-2 * x) * (1 + exp (2 * x))).
    { rewrite Rmult_plus_distr_l, <- exp_plus.
      replace (-2 * x + 2 * x) with 0 by ring. rewrite exp_0. ring. }
    rewrite F, ln_mult, ln_exp;
      [reflexivity | apply exp_pos | pose proof (exp_pos (2 * x)); lra]. }
  rewrite E.
  destruct (ln_1_plus_bounds (exp (2 * x)) (exp_pos (2 * x))) as [L1 L2].
  assert (L3 : exp (2 * x) < exp (-20)) by (apply exp_increasing; lra).
  lra.
Qed.



(** The code's form of the log-density is the logarithm of the density. *)
Lemma log_prob_entry (mu sigma x : R) :
  0 < sigma ->
  - (x - mu) ^ 2 / (2 * sigma ^ 2) - ln sigma - ln (sqrt (2 * PI))
  = gaussian_log_density mu sigma x.
Proof.
  intros Hs. unfold gaussian_log_density.
  assert (Hq : 0 < sqrt (2 * PI)) by (apply sqrt_lt_R0; pose proof PI_RGT_0; lra).
  rewrite ln_mult; [| apply Rinv_0_lt_compat, Rmult_lt_0_compat; lra | apply exp_pos].
  rewrite ln_exp, ln_Rinv by (apply Rmult_lt_0_compat; lra).
  rewrite ln_mult by lra. ring.
Qed.

Lemma Normal_log_prob_Ok (l s v : Tensor) :
  shape l = shape s -> shape v = shape l -> wf l -> wf s -> wf v ->
  Normal.log_prob (Normal.mk l s) v
  = Ok (mkTensor (shape l)
         (map (fun x => x - ln (sqrt (2 * PI)))
            (zipWith Rminus
               (zipWith Rdiv
                  (map (fun x => - x ^ 2) (zipWith Rminus (data v) (data l)))
                  (map (fun v => 2 * v) (map (fun s => s ^ 2) (data s))))
               (map ln (data s))))).
Proof.
  intros E1 E2 Wl Ws Wv. unfold wf in *.
  assert (Ls : length (data s) = numel (shape l)) by congruence.
  assert (Lv : length (data v) = numel (shape l)) by congruence.
  unfold Normal.log_prob, tsub, tdiv. simpl Normal.loc. simpl Normal.scale.
  rewrite (tzip_same Rminus v l) by (unfold wf; congruence).
  rewrite bind_Ok. cbv beta.
  rewrite tzip_same;
    [| simpl; congruence | unfold wf; simpl; rewrite E2; len
     | unfold wf; simpl; rewrite <- E1; len ].
  rewrite bind_Ok. cbv beta.
  rewrite tzip_same;
    [| simpl; congruence | unfold wf; simpl; rewrite E2; len
     | unfold wf; simpl; rewrite <- E1; len ].
  rewrite bind_Ok. cbv beta. simpl. now rewrite E2.
Qed.

Lemma big_sum_minus (n : nat) (f g : nat -> R) :
  big_sum n (fun j => f j - g j) = big_sum n f - big_sum n g.
Proof. induction n as [|n IH]; simpl; [ring|]. rewrite IH. ring. Qed.

Lemma forward_stochastic (self : TanhGaussianPolicy) (s : list nat)
    (x : Tensor) (noise : nat -> R) :
  TanhGaussianPolicy_typed self -> is_deterministic self = false ->
  shape x = s ++ [input_dim (base self)] -> wf x ->
  let A := output_dim (base self) in
  exists mean std u log_prob,
    mean_std self x = Ok (mean, std) /\
    shape u = s ++ [A] /\ wf u /\
    (forall k, (k < numel (s ++ [A]))%nat ->
       at_ u k = at_ mean k + noise k * at_ std k /\ 0 < at_ std k) /\
    forward self x noise = Ok (tmap tanh u, Some log_prob) /\
    shape log_prob = s ++ [1%nat] /\ wf log_prob /\
    forall i, (i < numel s)%nat ->
      at_ log_prob i
      = big_sum A (fun j =>
          gaussian_log_density (at_ mean (i * A + j)) (at_ std (i * A + j))
                               (at_ u (i * A + j)))
        - big_sum A (fun j => squash_correction (at_ u (i * A + j))).
Proof.
  intros Ht Hdet Sx Wx A.
  destruct (mean_std_Ok self s x Ht Sx Wx) as (mean & ls & E & Sm & Wm & Sl & Wl).
  fold A in Sm, Sl.
  set (std := tmap exp (tmap (clamp LOG_SIG_MIN LOG_SIG_MAX) ls)) in *.
  assert (Ss : shape std = s ++ [A]) by exact Sl.
  assert (Ws : wf std) by (subst std; auto using tmap_wf).
  assert (Lmean : length (data mean) = numel (s ++ [A]))
    by (unfold wf in Wm; now rewrite Wm, Sm).
  assert (Lstd : length (data std) = numel (s ++ [A]))
    by (unfold wf in Ws; now rewrite Ws, Ss).
  assert (Ps : Forall (fun v => 0 < v) (data std)).
  { subst std. simpl. apply Forall_forall. intros v Hv.
    apply in_map_iff in Hv. destruct Hv as (y & <- & _). apply exp_pos. }
  clearbody std.
  set (u := mkTensor (shape mean)
              (zipWith Rplus (data mean)
                 (zipWith Rmult (map noise (seq 0 (numel (shape mean)))) (data std)))).
  assert (Su : shape u = s ++ [A]) by exact Sm.
  assert (Lu : length (data u) = numel (s ++ [A]))
    by (subst u; cbn [data]; rewrite Sm; len).
  assert (Wu : wf u) by (unfold wf; now rewrite Lu, Su).
  unfold forward. rewrite E, bind_Ok. cbv beta iota. rewrite Hdet.
  rewrite Normal_new_Ok by (auto; congruence). rewrite bind_Ok. cbv beta.
  rewrite Normal_rsample_Ok by (auto; congruence). fold u.
  rewrite bind_Ok. cbv beta.
  rewrite Normal_log_prob_Ok by (auto; congruence).
  rewrite bind_Ok. cbv beta.
  unfold tsub at 1.
  rewrite tzip_same; [| reflexivity | now apply tmap_wf | now do 2 apply tmap_wf].
  rewrite bind_Ok. cbv beta.
  unfold tsub.
  rewrite tzip_same;
    [| cbn [shape tmap]; congruence
     | unfold wf; cbn [shape data]; rewrite Sm; len
     | unfold wf; cbn [shape data tmap]; rewrite Su; len ].
  rewrite bind_Ok. cbv beta. rewrite bind_Ok. cbv beta iota.
  set (lp := mkTensor _ (zipWith Rminus _ _)).
  assert (Slp : shape lp = s ++ [A]) by (subst lp; cbn [shape]; exact Sm).
  assert (Llp : length (data lp) = numel (s ++ [A]))
    by (subst lp; cbn [data tmap]; len).
  exists mean, std, u, (sum_last_keepdim lp).
  split; [reflexivity|]. split; [exact Su|]. split; [exact Wu|]. split.
  { intros k Hk. split.
    - unfold at_. subst u. cbn [data]. rewrite Sm. push_nth.
      rewrite (nth_indep (map noise (seq 0 (numel (s ++ [A])))) 0 (noise 0%nat))
        by len.
      rewrite map_nth, seq_nth by lia. simpl Nat.add. reflexivity.
    - unfold at_. rewrite Forall_nth in Ps. apply Ps. lia. }
  split; [reflexivity|].
  unfold sum_last_keepdim. rewrite Slp.
  destruct (shape_snoc_cases s A) as (a & r & Ea). rewrite Ea, <- Ea.
  rewrite removelast_last, last_last.
  split; [reflexivity|]. split.
  { unfold wf. cbn [shape data]. rewrite length_map, chunks_length, numel_last. lia. }
  intros i Hi. unfold at_ at 1. cbn [data].
  rewrite (nth_indep _ 0 (sum_list [])) by (rewrite length_map, chunks_length; lia).
  rewrite map_nth.
  rewrite numel_last in *.
  assert (Lrow : length (nth i (chunks (numel s) A (data lp)) []) = A).
  { apply Forall_nth; [| rewrite chunks_length; lia].
    apply chunks_Forall_length. lia. }
  rewrite sum_list_big_sum, Lrow, <- big_sum_minus.
  apply big_sum_ext. intros j Hj.
  rewrite nth_nth_chunks by lia.
  assert (Hk : (i * A + j < numel s * A)%nat) by nia.
  subst lp. cbn [data tmap].
  push_nth.
  fold (at_ u (i * A + j)). fold (at_ mean (i * A + j)).
  fold (at_ std (i * A + j)).
  unfold squash_correction.
  rewrite <- log_prob_entry.
  - ring.
  - unfold at_. rewrite Forall_nth in Ps. apply Ps. lia.
Qed.

(** C2, as the code has it.  For every real [x >= -10] the correction
    subtracted per component, [2 * (log 2 - x - softplus (-2 x))], equals
    [log (1 - tanh x ^ 2)].  For [x < -10] the argument of [F.softplus]
    exceeds its threshold 20, [softplus] returns the argument itself, the
    correction is [2 * (log 2 + x)], and it exceeds
    [log (1 - tanh x ^ 2)] by less than [2 * exp (-20)].  In stochastic
    mode the returned [log_prob] has one entry per observation (the last
    dimension is summed and kept): the Gaussian log-density of the
    pre-squash sample [u = mean + noise * std], summed over the
    components, minus the sum over the components of the correction at
    [u_j]; that is minus the sum of [log (1 - tanh (u_j) ^ 2)] where every
    component of the sample is at least -10. *)
Theorem tanh_log_prob_correction :
  (forall x : R, -10 <= x -> squash_correction x = ln (1 - tanh x ^ 2)) /\
  (forall x : R, x < -10 ->
     squash_correction x = 2 * (ln 2 + x) /\
     ln (1 - tanh x ^ 2) < squash_correction x
     < ln (1 - tanh x ^ 2) + 2 * exp (-20)) /\
  forall (self : TanhGaussianPolicy) (s : list nat) (x : Tensor)
         (noise : nat -> R),
    TanhGaussianPolicy_typed self -> is_deterministic self = false ->
    shape x = s ++ [input_dim (base self)] -> wf x ->
    let A := output_dim (base self) in
    exists mean std u log_prob,
      mean_std self x = Ok (mean, std) /\
      shape u = s ++ [A] /\ wf u /\
      (forall k, (k < numel (s ++ [A]))%nat ->
         at_ u k = at_ mean k + noise k * at_ std k /\ 0 < at_ std k) /\
      forward self x noise = Ok (tmap tanh u, Some log_prob) /\
      shape log_prob = s ++ [1%nat] /\ wf log_prob /\
      forall i, (i < numel s)%nat ->
        at_ log_prob i
        = big_sum A (fun j =>
            gaussian_log_density (at_ mean (i * A + j)) (at_ std (i * A + j))
                                 (at_ u (i * A + j)))
          - big_sum A (fun j => squash_correction (at_ u (i * A + j))) /\
        ((forall j, (j < A)%nat -> -10 <= at_ u (i * A + j)) ->
         at_ log_prob i
         = big_sum A (fun j =>
             gaussian_log_density (at_ mean (i * A + j)) (at_ std (i * A + j))
                                  (at_ u (i * A + j)))
           - big_sum A (fun j => ln (1 - tanh (at_ u (i * A + j)) ^ 2))).
Proof.
  split; [exact squash_correction_log|]. split.
  - intros x Hx. split; [now apply squash_correction_linear|].
    now apply squash_correction_gap.
  - intros self s x noise Ht Hd Sx Wx A.
    destruct (forward_stochastic self s x noise Ht Hd Sx Wx)
      as (mean & std & u & lp & E1 & Su & Wu & Hu & E2 & Sl & Wl & Hl).
    exists mean, std, u, lp.
    split; [exact E1|]. split; [exact Su|]. split; [exact Wu|].
    split; [exact Hu|]. split; [exact E2|]. split; [exact Sl|].
    split; [exact Wl|]. intros i Hi. split; [exact (Hl i Hi)|].
    intros Hge. rewrite (Hl i Hi). f_equal. apply big_sum_ext.
    intros j Hj. apply squash_correction_log. now apply Hge.
Qed.

Lemma tanh_log_prob_correction_witness :
  squash_correction 0 = ln (1 - tanh 0 ^ 2) /\
  squash_correction (-11) = 2 * (ln 2 + -11) /\
  exists mean std u log_prob,
    mean_std Example.stochastic_policy Example.observation = Ok (mean, std) /\
    forward Example.stochastic_policy Example.observation (fun _ => 1)
    = Ok (tmap tanh u, Some log_prob) /\
    shape log_prob = [1%nat] /\
    at_ log_prob 0
    = big_sum 2 (fun j =>
        gaussian_log_density (at_ mean (0 * 2 + j)) (at_ std (0 * 2 + j))
                             (at_ u (0 * 2 + j)))
      - big_sum 2 (fun j => squash_correction (at_ u (0 * 2 + j))).
Proof.
  destruct tanh_log_prob_correction as (H1 & H2 & H).
  split; [apply H1; lra|]. split; [apply H2; lra|].
  destruct (H Example.stochastic_policy [] Example.observation (fun _ => 1))
    as (mean & std & u & lp & E1 & _ & _ & _ & E2 & S & _ & E3);
    try reflexivity.
  - apply TanhGaussianPolicy_new_typed.
  - exists mean, std, u, lp. repeat split; auto.
    apply (E3 0%nat). simpl. lia.
Defined.

(** C2 as stated fails below -10: at [x = -11] the code subtracts
    [2 * (log 2 - 11)], which is not [log (1 - tanh x ^ 2)]. *)
Lemma squash_correction_beyond_threshold :
  squash_correction (-11) = 2 * (ln 2 + -11) /\
  squash_correction (-11) <> ln (1 - tanh (-11) ^ 2).
Proof.
  split; [apply squash_correction_linear; lra|].
  pose proof (squash_correction_gap (-11) ltac:(lra)) as [H _]. lra.
Qed.


Lemma forward_deterministic_eq (self : TanhGaussianPolicy) (x : Tensor)
    (noise : nat -> R) :
  is_deterministic self = true ->
  forward self x noise
  = (ms <- mean_std self x ;; Ok (tmap tanh (tmap tanh (fst ms)), None)).
Proof.
  intros Hd. unfold forward. rewrite Hd.
  destruct (mean_std self x) as [[mean std]|e]; reflexivity.
Qed.

(** The mean of [mean_std] is the output of the underlying [MLP]. *)
Lemma mean_std_mean (self : TanhGaussianPolicy) (x mean std : Tensor) :
  mean_std self x = Ok (mean, std) -> MLP_forward (base self) x = Ok mean.
Proof.
  unfold mean_std, MLP_forward.
  destruct (hidden (base self) x) as [h|e]; [|discriminate].
  rewrite !bind_Ok.
  destruct (Linear_forward (last_fc_layer (base self)) h) as [m|e];
    [|discriminate].
  rewrite bind_Ok.
  destruct (Linear_forward (last_fc_log_std self) h) as [l|e]; [|discriminate].
  rewrite bind_Ok. intros H. now injection H as -> _.
Qed.





(** C9. In deterministic mode [forward] returns [None] as [log_prob] and
    the network mean squashed twice, [tanh (tanh (mean x))], as action: on
    every input it is the mean computation followed by the two [tanh], and
    on every observation of the expected shape it returns. *)
Theorem forward_deterministic_double_tanh (self : TanhGaussianPolicy)
    (x : Tensor) (noise : nat -> R) :
  is_deterministic self = true ->
  forward self x noise
  = (ms <- mean_std self x ;; Ok (tmap tanh (tmap tanh (fst ms)), None)) /\
  (forall s,
     TanhGaussianPolicy_typed self ->
     shape x = s ++ [input_dim (base self)] -> wf x ->
     exists mean,
       MLP_forward (base self) x = Ok mean /\
       shape mean = s ++ [output_dim (base self)] /\
       forward self x noise = Ok (tmap tanh (tmap tanh mean), None) /\
       forall j, (j < numel (shape mean))%nat ->
         at_ (tmap tanh (tmap tanh mean)) j = tanh (tanh (at_ mean j))).
Proof.
  intros Hd. split; [now apply forward_deterministic_eq|].
  intros s Ht Sx Wx.
  destruct (mean_std_Ok self s x Ht Sx Wx) as (mean & ls & E & Sm & Wm & _).
  exists mean. split; [now apply mean_std_mean in E|]. split; [exact Sm|].
  split.
  - rewrite forward_deterministic_eq, E by assumption. reflexivity.
  - intros j Hj. unfold wf in Wm.
    rewrite !at_tmap; auto; simpl; rewrite ?length_map; lia.
Qed.

Lemma forward_deterministic_double_tanh_witness :
  exists mean,
    MLP_forward (base Example.deterministic_policy) Example.observation
    = Ok mean /\
    forward Example.deterministic_policy Example.observation (fun _ => 1)
    = Ok (tmap tanh (tmap tanh mean), None).
Proof.
  destruct (forward_deterministic_double_tanh Example.deterministic_policy
              Example.observation (fun _ => 1)) as [_ H]; [reflexivity|].
  destruct (H []) as (mean & E1 & _ & E2 & _); try reflexivity.
  - apply TanhGaussianPolicy_new_typed.
  - exists mean. split; assumption.
Defined.

(** The MAML policy, by contrast, returns a zero tensor in that mode and
    does not squash the mean. *)
Lemma maml_forward_deterministic (self : Maml.GaussianPolicy) (x : Tensor)
    (noise : nat -> R) (normal : Normal.t) (mean : Tensor) :
  Maml.is_deterministic self = true ->
  Maml.get_normal_dist self x = Ok (normal, mean) ->
  Maml.forward self x noise = Ok (view_flat mean, zeros [1%nat]).
Proof.
  intros Hd E. unfold Maml.forward. rewrite E, bind_Ok. cbv beta iota.
  rewrite Hd. reflexivity.
Qed.


End Policy.

(** * Inferring the posterior *)

Section InferPosterior.
Import Torch Spec Pearl.
Local Open Scope R_scope.

Lemma chunks_app (a b w : nat) (l : list R) :
  chunks (a + b) w l = chunks a w l ++ chunks b w (skipn (a * w) l).
Proof.
  revert l; induction a as [|a IH]; intros l; simpl; auto.
  rewrite IH, skipn_skipn.
  now replace (a * w + w)%nat with (w + a * w)%nat by lia.
Qed.

Lemma chunks_firstn (a w : nat) (l : list R) :
  chunks a w (firstn (a * w) l) = chunks a w l.
Proof.
  revert l; induction a as [|a IH]; intros l; simpl; auto.
  rewrite firstn_firstn, Nat.min_l by lia. f_equal.
  rewrite <- (IH (skipn w l)). f_equal.
  rewrite skipn_firstn_comm. f_equal. lia.
Qed.

(** Regrouping: mapping [f] over all rows and cutting per task is cutting
    per task and mapping [f] over the rows of each block. *)
Lemma chunks_concat_map (f : list R -> list R) (T B W m : nat) (d : list R) :
  (forall r, length r = W -> length (f r) = m) ->
  (T * B * W <= length d)%nat ->
  chunks T (B * m) (concat (map f (chunks (T * B) W d)))
  = map (fun blk => concat (map f (chunks B W blk))) (chunks T (B * W) d).
Proof.
  intros Hf. revert d; induction T as [|T IH]; intros d Hd; simpl; auto.
  assert (Hd' : (B * W + T * B * W <= length d)%nat)
    by (replace (B * W + T * B * W)%nat with (S T * B * W)%nat by ring;
        exact Hd).
  rewrite chunks_app, map_app, concat_app.
  assert (Lx : length (concat (map f (chunks B W d))) = (B * m)%nat).
  { rewrite (length_concat_uniform m).
    - now rewrite length_map, chunks_length.
    - apply Forall_forall. intros r Hr. apply in_map_iff in Hr.
      destruct Hr as (c & <- & Hc). apply Hf.
      pose proof (chunks_Forall_length B W d ltac:(lia)) as F.
      rewrite Forall_forall in F. auto. }
  rewrite firstn_app, skipn_app, Lx, Nat.sub_diag.
  rewrite firstn_all2 by lia.
  rewrite (skipn_all2 (concat (map f (chunks B W d)))) by lia. simpl.
  rewrite app_nil_r. f_equal.
  - now rewrite chunks_firstn.
  - apply IH. rewrite length_skipn. lia.
Qed.

Lemma numel2 (a b : nat) : numel [a; b] = (a * b)%nat.
Proof. simpl. lia. Qed.

Lemma numel3 (a b c : nat) : numel [a; b; c] = (a * b * c)%nat.
Proof. simpl. lia. Qed.

Lemma combine_map_same (A B C : Type) (f : A -> B) (g : A -> C) (l : list A) :
  combine (map f l) (map g l) = map (fun x => (f x, g x)) l.
Proof. induction l; simpl; congruence. Qed.

Lemma mapM_map (A B C : Type) (f : B -> result C) (g : A -> B) (l : list A) :
  mapM f (map g l) = mapM (fun x => f (g x)) l.
Proof. induction l as [|a l IH]; simpl; auto. now rewrite IH. Qed.

(** The Gaussians of a reshaped parameter tensor, task by task. *)
Lemma slices_by_task (L T B W : nat) (d : list R) :
  length d = (T * B * W)%nat ->
  exists mu sg z_mean z_var tasks,
    slice_last_to L (mkTensor [T; B; W] d) = Ok mu /\
    unbind mu = Ok z_mean /\
    slice_last_from L (mkTensor [T; B; W] d) = Ok sg /\
    unbind (tmap softplus sg) = Ok z_var /\
    unbind (mkTensor [T; B; W] d) = Ok tasks /\
    combine z_mean z_var = map (gaussian_rows L) tasks.
Proof.
  intros Hd. do 5 eexists.
  unfold slice_last_to, slice_last_from, unbind, tmap.
  cbn [shape data removelast last app].
  repeat (split; [reflexivity|]). cbn [data].
  rewrite !numel2.
  rewrite concat_map, map_map.
  rewrite (chunks_concat_map (firstn L) T B W (Nat.min L W))
    by (try lia; intros r Hr; rewrite length_firstn; lia).
  rewrite (chunks_concat_map (fun r => map softplus (skipn L r)) T B W (W - L))
    by (try lia; intros r Hr; rewrite length_map, length_skipn; lia).
  rewrite !map_map, combine_map_same.
  reflexivity.
Qed.

Lemma Linear_forward_wf (l : Linear) (x y : Tensor) :
  wf (bias l) -> Linear_forward l x = Ok y -> wf y.
Proof.
  intros Wb. unfold Linear_forward.
  destruct (shape (weight l)) as [|o [|i [|? ?]]]; try discriminate.
  destruct (shape x) as [|a r] eqn:Sx; try discriminate.
  destruct (Nat.eqb _ i); try discriminate.
  unfold list_eqb.
  destruct (list_eq_dec Nat.eq_dec (shape (bias l)) [o]) as [Sb|];
    try discriminate.
  simpl andb. cbv iota. intros H. injection H as <-.
  unfold wf. cbn [shape data].
  rewrite (length_concat_uniform o).
  - now rewrite length_map, chunks_length, numel_last.
  - apply Forall_forall. intros row Hr. apply in_map_iff in Hr.
    destruct Hr as (c & <- & _).
    rewrite linear_row_length, chunks_length.
    unfold wf in Wb. rewrite Wb, Sb. simpl. lia.
Qed.

Lemma MLP_forward_wf (m : MLP) (x y : Tensor) :
  MLP_typed m -> MLP_forward m x = Ok y -> wf y.
Proof.
  intros (h & _ & (_ & _ & _ & Wb)). unfold MLP_forward.
  destruct (hidden m x) as [z|]; [|discriminate].
  rewrite bind_Ok. now apply Linear_forward_wf.
Qed.

Lemma cat_last_single_shape (x y : Tensor) :
  cat_last [x] = Ok y -> shape y = shape x /\ shape x <> [].
Proof.
  unfold cat_last. cbn [forallb map list_sum]. rewrite list_eqb_refl.
  unfold list_eqb at 1.
  destruct (list_eq_dec Nat.eq_dec (shape x) []) as [E|N]; [discriminate|].
  cbn [negb andb]. intros H. injection H as <-. cbn [shape].
  split; [|exact N].
  rewrite Nat.add_0_r. symmetry. now apply app_removelast_last.
Qed.

Lemma cat_last_single (x : Tensor) :
  shape x <> [] -> wf x -> cat_last [x] = Ok x.
Proof.
  intros N Wx. unfold cat_last. cbn [forallb map list_sum].
  rewrite list_eqb_refl. unfold list_eqb at 1.
  destruct (list_eq_dec Nat.eq_dec (shape x) []) as [E|_]; [contradiction|].
  cbn [negb andb]. unfold list_sum. cbn [fold_right]. rewrite Nat.add_0_r.
  rewrite <- (app_removelast_last 0%nat N).
  set (n := numel (removelast (shape x))).
  set (w := last (shape x) 0%nat).
  assert (Ld : length (data x) = (n * w)%nat).
  { unfold wf in Wx. rewrite Wx.
    rewrite (app_removelast_last 0%nat N) at 1. apply numel_last. }
  replace (map (fun i => concat [nth i (chunks n w (data x)) []]) (seq 0 n))
    with (chunks n w (data x)).
  - rewrite chunks_concat by exact Ld. destruct x; reflexivity.
  - rewrite (list_map_nth_seq _ (chunks n w (data x)) []) at 1.
    rewrite chunks_length. apply map_ext. intros i. simpl.
    now rewrite app_nil_r.
Qed.

Lemma FlattenMLP_forward_wf (m : MLP) (x y : Tensor) :
  MLP_typed m -> FlattenMLP_forward m [x] = Ok y -> wf y.
Proof.
  intros Ht. unfold FlattenMLP_forward.
  destruct (cat_last [x]) as [x'|]; [|discriminate]. rewrite bind_Ok.
  now apply MLP_forward_wf.
Qed.

Lemma view3_Ok (n W : nat) (t p : Tensor) :
  wf t -> view3 n W t = Ok p ->
  exists B, p = mkTensor [n; B; W] (data t) /\
            length (data t) = (n * B * W)%nat /\
            B = (numel (shape t) / (n * W))%nat /\ (0 < n * W)%nat.
Proof.
  unfold view3, wf. intros Wt.
  destruct (0 <? n * W)%nat eqn:E1; [|discriminate].
  destruct (numel (shape t) mod (n * W) =? 0)%nat eqn:E2; [|discriminate].
  simpl andb. cbv iota. intros H. injection H as <-.
  apply Nat.ltb_lt in E1. apply Nat.eqb_eq in E2.
  eexists. split; [reflexivity|]. split; [|split; [reflexivity|assumption]].
  rewrite Wt.
  pose proof (Nat.div_mod (numel (shape t)) (n * W) ltac:(lia)) as Hdm.
  rewrite E2 in Hdm. rewrite Hdm at 1. ring.
Qed.

(** The code and the description agree on every input, failures
    included. *)
Lemma infer_posterior_refines (self : MLPEncoder) (ctx : Tensor)
    (epsilon : nat -> nat -> R) :
  MLP_typed (mlp self) ->
  infer_posterior ctx epsilon self = infer_posterior_spec ctx epsilon self.
Proof.
  intros Ht. unfold infer_posterior, infer_posterior_spec, mbind, lift, self_.
  destruct (FlattenMLP_forward (mlp self) [ctx]) as [out|e] eqn:Ef;
    [|reflexivity].
  rewrite bind_Ok.
  destruct (size0 ctx) as [n|e]; [|reflexivity].
  rewrite bind_Ok.
  destruct (view3 n (output_dim (mlp self)) out) as [p|e] eqn:Ev;
    [|reflexivity].
  rewrite bind_Ok.
  pose proof (FlattenMLP_forward_wf _ _ _ Ht Ef) as Wo.
  destruct (view3_Ok _ _ _ _ Wo Ev) as (B & -> & Hd & _).
  destruct (slices_by_task (latent_dim self) n B (output_dim (mlp self))
              (data out) Hd)
    as (mu & sg & zm & zv & tasks & E1 & E2 & E3 & E4 & E5 & E6).
  rewrite E1, E2, E3, E4, E5, E6, bind_Ok, mapM_map.
  reflexivity.
Qed.

Lemma mapM_Forall2 (A B : Type) (f : A -> result B) (P : A -> B -> Prop)
    (l : list A) :
  (forall x, In x l -> exists y, f x = Ok y /\ P x y) ->
  exists ys, mapM f l = Ok ys /\ Forall2 P l ys.
Proof.
  induction l as [|a l IH]; intros H; simpl.
  - exists []. split; auto.
  - destruct (H a (or_introl eq_refl)) as (y & E & Hy).
    destruct IH as (ys & Es & Hys); [intros x Hx; apply H; now right|].
    exists (y :: ys). rewrite E, bind_Ok, Es, bind_Ok. split; auto.
Qed.

Lemma Forall2_nth (A B : Type) (P : A -> B -> Prop) (l : list A) (l' : list B)
    (i : nat) (a : A) (b : B) :
  Forall2 P l l' -> (i < length l)%nat -> P (nth i l a) (nth i l' b).
Proof.
  intros H. revert i. induction H as [|x y l l' Hxy _ IH]; intros [|i] Hi;
    simpl in *; try lia; auto.
  apply IH. lia.
Qed.

(** Entries of the Gaussians read off one block of [B] rows of width [W]. *)
Lemma gaussian_rows_entries (L B W : nat) (blk : list R) (b j : nat) :
  length blk = (B * W)%nat -> (b < B)%nat -> (j < L)%nat -> (L + j < W)%nat ->
  entry (fst (gaussian_rows L (mkTensor [B; W] blk))) b j
  = nth (b * W + j) blk 0 /\
  entry (snd (gaussian_rows L (mkTensor [B; W] blk))) b j
  = softplus (nth (b * W + (L + j)) blk 0).
Proof.
  intros Hl Hb Hj HW. unfold gaussian_rows, entry, at_.
  cbn [shape data nth fst snd tl numel fold_right]. rewrite !Nat.mul_1_r.
  pose proof (chunks_Forall_length B W blk ltac:(lia)) as F.
  assert (Lr : length (nth b (chunks B W blk) []) = W)
    by (apply Forall_nth; [exact F | rewrite chunks_length; lia]).
  split.
  - replace (Nat.min L W) with L by lia.
    rewrite (nth_concat_uniform L).
    + rewrite (nth_indep _ [] (firstn L [])) by (rewrite length_map, chunks_length; lia).
      rewrite map_nth, nth_firstn.
      destruct (j <? L)%nat eqn:E; [|apply Nat.ltb_ge in E; lia].
      apply nth_nth_chunks; lia.
    + apply Forall_forall. intros r Hr. apply in_map_iff in Hr.
      destruct Hr as (c & <- & Hc). rewrite Forall_forall in F.
      rewrite length_firstn, (F c Hc). lia.
    + rewrite length_map, chunks_length. lia.
    + lia.
  -     rewrite (nth_concat_uniform (W - L)).
    + rewrite (nth_indep _ [] ((fun r => map softplus (skipn L r)) []))
        by (rewrite length_map, chunks_length; lia).
      rewrite (map_nth (fun r => map softplus (skipn L r))).
      rewrite nth_map_lt by (rewrite length_skipn; lia).
      rewrite nth_skipn. f_equal. apply nth_nth_chunks; lia.
    + apply Forall_forall. intros r Hr. apply in_map_iff in Hr.
      destruct Hr as (c & <- & Hc). rewrite Forall_forall in F.
      rewrite length_map, length_skipn, (F c Hc). lia.
    + rewrite length_map, chunks_length. lia.
    + lia.
Qed.

Lemma gaussian_rows_shapes (L B W : nat) (blk : list R) :
  length blk = (B * W)%nat -> W = (2 * L)%nat ->
  let g := gaussian_rows L (mkTensor [B; W] blk) in
  shape (fst g) = [B; L] /\ shape (snd g) = [B; L] /\ wf (fst g) /\ wf (snd g).
Proof.
  intros Hl HW. unfold gaussian_rows. cbn [shape data nth fst snd].
  pose proof (chunks_Forall_length B W blk ltac:(lia)) as F.
  replace (Nat.min L W) with L by lia. replace (W - L)%nat with L by lia.
  repeat split; unfold wf; cbn [shape data]; rewrite numel2.
  - rewrite (length_concat_uniform L); [now rewrite length_map, chunks_length|].
    apply Forall_forall. intros r Hr. apply in_map_iff in Hr.
    destruct Hr as (c & <- & Hc). rewrite Forall_forall in F.
    rewrite length_firstn, (F c Hc). lia.
  - rewrite (length_concat_uniform L); [now rewrite length_map, chunks_length|].
    apply Forall_forall. intros r Hr. apply in_map_iff in Hr.
    destruct Hr as (c & <- & Hc). rewrite Forall_forall in F.
    rewrite length_map, length_skipn, (F c Hc). lia.
Qed.

Lemma fused_var_pos (k : nat) (v : nat -> R) :
  (1 <= k)%nat -> 0 < fused_var k v.
Proof.
  intros Hk. unfold fused_var. apply Rdiv_lt_0_compat; [lra|].
  apply big_sum_pos; auto. intros i _.
  apply Rdiv_lt_0_compat; [lra|].
  apply Rlt_le_trans with (r2 := 1e-7); [lra | apply Rmax_r].
Qed.

Lemma Forall_concat_intro (P : R -> Prop) (rows : list (list R)) :
  Forall (Forall P) rows -> Forall P (concat rows).
Proof.
  induction 1 as [|r rows Hr _ IH]; simpl; auto.
  apply Forall_app. auto.
Qed.

(** On a context of [T >= 1] tasks with at least one transition each,
    [infer_posterior] returns: the network output [out], read as [B] rows of
    [2 L] parameters per task, is fused row-wise into the posterior. *)
Lemma infer_posterior_typed (self : MLPEncoder) (ctx : Tensor)
    (epsilon : nat -> nat -> R) (T : nat) (mid : list nat) :
  MLP_typed (mlp self) ->
  output_dim (mlp self) = (2 * latent_dim self)%nat ->
  (1 <= latent_dim self)%nat ->
  shape ctx = T :: mid ++ [input_dim (mlp self)] -> wf ctx ->
  (1 <= T)%nat -> (1 <= numel mid)%nat ->
  let L := latent_dim self in
  let B := numel mid in
  exists out zm zv tz,
    MLP_forward (mlp self) ctx = Ok out /\
    shape out = T :: mid ++ [(2 * L)%nat] /\
    infer_posterior ctx epsilon self
    = (Ok tt, set_task_z (Some tz)
                (set_z_var (Some zv) (set_z_mean (Some zm) self))) /\
    shape zm = [T; L] /\ shape zv = [T; L] /\ shape tz = [T; L] /\
    wf zm /\ wf zv /\ wf tz /\
    Forall (fun v => 0 < v) (data zv) /\
    (forall t j, (t < T)%nat -> (j < L)%nat ->
       entry zv t j
       = fused_var B (fun b =>
           softplus (at_ out ((t * B + b) * (2 * L) + (L + j)))) /\
       entry zm t j
       = fused_mean B
           (fun b => at_ out ((t * B + b) * (2 * L) + j))
           (fun b => softplus (at_ out ((t * B + b) * (2 * L) + (L + j)))) /\
       entry tz t j = entry zm t j + sqrt (entry zv t j) * epsilon t j).
Proof.
  intros Ht HW HL Sx Wx HT HB L B.
  set (W := output_dim (mlp self)) in *.
  rewrite infer_posterior_refines by assumption.
  unfold infer_posterior_spec, mbind, lift, self_, FlattenMLP_forward.
  rewrite cat_last_single, bind_Ok by (auto; rewrite Sx; discriminate).
  destruct (MLP_forward_Ok (mlp self) (T :: mid) ctx Ht Sx Wx)
    as (out & Ef & So & Wo).
  fold W in So.
  rewrite Ef, bind_Ok. unfold size0. rewrite Sx, bind_Ok.
  assert (Nout : numel (shape out) = (T * B * W)%nat).
  { rewrite So. change (T :: mid ++ [W]) with ((T :: mid) ++ [W]).
    rewrite numel_last. reflexivity. }
  assert (Lout : length (data out) = (T * B * W)%nat)
    by (unfold wf in Wo; now rewrite Wo).
  assert (Ev : view3 T W out = Ok (mkTensor [T; B; W] (data out))).
  { unfold view3. rewrite Nout.
    replace (T * B * W)%nat with (B * (T * W))%nat by ring.
    rewrite Nat.Div0.mod_mul, Nat.div_mul by nia.
    replace (0 <? T * W)%nat with true by (symmetry; apply Nat.ltb_lt; nia).
    reflexivity. }
  fold W. rewrite Ev, bind_Ok. unfold unbind. cbn [shape data]. rewrite bind_Ok.
  rewrite numel2.
  set (d := data out) in *.
  set (blocks := chunks T (B * W) d).
  assert (Fb : Forall (fun c => length c = (B * W)%nat) blocks)
    by (apply chunks_Forall_length; lia).
  (* every task is fused *)
  destruct (mapM_Forall2 _ _
     (fun task => product_of_gaussians (fst (gaussian_rows L task))
                                       (snd (gaussian_rows L task)))
     (fun task z =>
        shape (fst z) = [L] /\ shape (snd z) = [L] /\
        wf (fst z) /\ wf (snd z) /\
        forall j, (j < L)%nat ->
          at_ (snd z) j
          = fused_var B (fun b => entry (snd (gaussian_rows L task)) b j) /\
          at_ (fst z) j
          = fused_mean B (fun b => entry (fst (gaussian_rows L task)) b j)
                         (fun b => entry (snd (gaussian_rows L task)) b j))
     (map (mkTensor [B; W]) blocks)) as (zs & Ezs & Hzs).
  { intros task Hin. apply in_map_iff in Hin. destruct Hin as (blk & <- & Hb).
    rewrite Forall_forall in Fb. specialize (Fb blk Hb).
    destruct (gaussian_rows_shapes L B W blk Fb HW) as (S1 & S2 & W1 & W2).
    destruct (product_of_gaussians_entries B [L] _ _ HB S1 S2 W1 W2)
      as (pm & pv & E & Sp & Sv & Wpm & Wpv & Hent).
    exists (pm, pv). split; [exact E|]. cbn [fst snd].
    repeat split; auto; apply Hent; simpl; lia. }
  fold L. rewrite Ezs.
  assert (Lzs : length zs = T).
  { apply Forall2_length in Hzs. rewrite <- Hzs, length_map.
    subst blocks. apply chunks_length. }
  assert (Hz : forall t, (t < T)%nat ->
             let z := nth t zs (zeros [], zeros []) in
             let task := mkTensor [B; W] (nth t blocks []) in
             shape (fst z) = [L] /\ shape (snd z) = [L] /\
             wf (fst z) /\ wf (snd z) /\
             forall j, (j < L)%nat ->
               at_ (snd z) j
               = fused_var B (fun b => entry (snd (gaussian_rows L task)) b j) /\
               at_ (fst z) j
               = fused_mean B (fun b => entry (fst (gaussian_rows L task)) b j)
                              (fun b => entry (snd (gaussian_rows L task)) b j)).
  { intros t Hlt z task.
    pose proof (Forall2_nth _ _ _ _ _ t (mkTensor [B; W] []) (zeros [], zeros [])
                  Hzs) as H.
    rewrite map_nth in H. apply H.
    rewrite length_map. subst blocks. rewrite chunks_length. exact Hlt. }
  assert (Hzin : forall z, In z zs ->
             shape (fst z) = [L] /\ shape (snd z) = [L] /\
             length (data (fst z)) = L /\ length (data (snd z)) = L /\
             Forall (fun v => 0 < v) (data (snd z))).
  { intros z Hin. destruct (In_nth _ _ (zeros [], zeros []) Hin) as (t & Hlt & <-).
    rewrite Lzs in Hlt. destruct (Hz t Hlt) as (S1 & S2 & W1 & W2 & Hent).
    unfold wf in W1, W2. rewrite S1 in W1. rewrite S2 in W2.
    simpl in W1, W2. rewrite Nat.mul_1_r in W1, W2.
    repeat split; auto.
    apply Forall_nth. intros j dflt Hj.
    rewrite (nth_indep _ dflt 0) by exact Hj.
    rewrite W2 in Hj. destruct (Hent j Hj) as [E _].
    unfold at_ in E. rewrite E. now apply fused_var_pos. }
  rewrite (stack_Ok (map fst zs) [L]);
    [| intros E; apply (f_equal (@length _)) in E;
       rewrite length_map, Lzs in E; simpl in E; lia
     | apply Forall_forall; intros x Hx; apply in_map_iff in Hx;
       destruct Hx as (z & <- & Hin); now apply Hzin ].
  unfold assign. cbv beta iota.
  rewrite (stack_Ok (map snd zs) [L]);
    [| intros E; apply (f_equal (@length _)) in E;
       rewrite length_map, Lzs in E; simpl in E; lia
     | apply Forall_forall; intros x Hx; apply in_map_iff in Hx;
       destruct Hx as (z & <- & Hin); now apply Hzin ].
  cbv beta iota. rewrite !length_map, Lzs.
  set (zm := mkTensor [T; L] (concat (map data (map fst zs)))).
  set (zv := mkTensor [T; L] (concat (map data (map snd zs)))).
  assert (Fm : Forall (fun r => length r = L) (map data (map fst zs))).
  { apply Forall_forall. intros r Hr. apply in_map_iff in Hr.
    destruct Hr as (x & <- & Hx). apply in_map_iff in Hx.
    destruct Hx as (z & <- & Hin). now apply Hzin. }
  assert (Fv : Forall (fun r => length r = L) (map data (map snd zs))).
  { apply Forall_forall. intros r Hr. apply in_map_iff in Hr.
    destruct Hr as (x & <- & Hx). apply in_map_iff in Hx.
    destruct Hx as (z & <- & Hin). now apply Hzin. }
  assert (Wzm : wf zm).
  { unfold wf. subst zm. cbn [shape data]. rewrite numel2.
    rewrite (length_concat_uniform L) by exact Fm.
    now rewrite !length_map, Lzs. }
  assert (Wzv : wf zv).
  { unfold wf. subst zv. cbn [shape data]. rewrite numel2.
    rewrite (length_concat_uniform L) by exact Fv.
    now rewrite !length_map, Lzs. }
  assert (Pzv : Forall (fun v => 0 < v) (data zv)).
  { subst zv. cbn [data]. apply Forall_concat_intro.
    apply Forall_forall. intros r Hr. apply in_map_iff in Hr.
    destruct Hr as (x & <- & Hx). apply in_map_iff in Hx.
    destruct Hx as (z & <- & Hin). now apply Hzin. }
  set (self' := set_z_var (Some zv) (set_z_mean (Some zm) self)).
  destruct (sample_z_rows self' T L zm zv epsilon)
    as (tz & Etz & Stz & Wtz & Htz); auto.
  exists out, zm, zv, tz. rewrite Etz.
  split; [reflexivity|]. split; [rewrite So, HW; reflexivity|].
  repeat (split; [auto; reflexivity|]).
  intros t j Hlt Hj.
  destruct (Hz t Hlt) as (S1 & S2 & W1 & W2 & Hent).
  destruct (Hent j Hj) as [Ev' Em'].
  assert (Lblk : length (nth t blocks []) = (B * W)%nat)
    by (apply Forall_nth; [exact Fb | subst blocks; rewrite chunks_length; lia]).
  assert (Ezv : entry zv t j
                = at_ (snd (nth t zs (zeros [], zeros []))) j).
  { unfold entry, at_. subst zv. cbn [shape data tl numel fold_right].
    rewrite Nat.mul_1_r. rewrite (nth_concat_uniform L) by (auto; now rewrite !length_map, Lzs).
    rewrite map_map.
    rewrite (nth_indep _ [] ((fun z => data (snd z)) (zeros [], zeros [])))
      by (now rewrite length_map, Lzs).
    now rewrite (map_nth (fun z => data (snd z))). }
  assert (Ezm : entry zm t j
                = at_ (fst (nth t zs (zeros [], zeros []))) j).
  { unfold entry, at_. subst zm. cbn [shape data tl numel fold_right].
    rewrite Nat.mul_1_r. rewrite (nth_concat_uniform L) by (auto; now rewrite !length_map, Lzs).
    rewrite map_map.
    rewrite (nth_indep _ [] ((fun z => data (fst z)) (zeros [], zeros [])))
      by (now rewrite length_map, Lzs).
    now rewrite (map_nth (fun z => data (fst z))). }
  assert (Erow : forall b c, (b < B)%nat -> (c < W)%nat ->
            nth (b * W + c) (nth t blocks []) 0
            = at_ out ((t * B + b) * (2 * L) + c)).
  { intros b c Hb Hc. subst blocks. rewrite nth_chunks by exact Hlt.
    rewrite nth_firstn.
    replace (b * W + c <? B * W)%nat with true
      by (symmetry; apply Nat.ltb_lt; nia).
    rewrite nth_skipn. unfold at_. fold d. f_equal.
    replace (2 * L)%nat with W by (unfold L; lia). ring. }
  split; [|split].
  - rewrite Ezv, Ev'. unfold fused_var. f_equal. apply big_sum_ext.
    intros b Hb.
    destruct (gaussian_rows_entries L B W (nth t blocks []) b j Lblk Hb Hj
                ltac:(lia)) as [_ E2].
    rewrite E2, Erow by lia. reflexivity.
  - rewrite Ezm, Em'. unfold fused_mean, fused_var. f_equal.
    + f_equal. apply big_sum_ext. intros b Hb.
      destruct (gaussian_rows_entries L B W (nth t blocks []) b j Lblk Hb Hj
                  ltac:(lia)) as [_ E2].
      rewrite E2, Erow by lia. reflexivity.
    + apply big_sum_ext. intros b Hb.
      destruct (gaussian_rows_entries L B W (nth t blocks []) b j Lblk Hb Hj
                  ltac:(lia)) as [E1 E2].
      rewrite E1, E2, !Erow by lia. reflexivity.
  - now apply Htz.
Qed.

(** C4. [infer_posterior] is the described pipeline: the network output is
    reshaped into one block of per-transition parameter rows for each task,
    the first [latent_dim] entries of each row are read as means and
    softplus of the remaining entries as variances, each task's Gaussians
    are fused with [product_of_gaussians], the fused means and variances are
    stored in [z_mean] and [z_var], and [task_z] is resampled.  On every
    context the two computations coincide, exceptions included; on a context
    of [T >= 1] tasks with at least one transition each, and an encoder with
    [2 * latent_dim] outputs, the call returns and the stored posterior is,
    entry by entry, the fusion of the rows of the network output. *)
Theorem infer_posterior_pipeline (self : MLPEncoder) (ctx : Tensor)
    (epsilon : nat -> nat -> R) :
  MLP_typed (mlp self) ->
  infer_posterior ctx epsilon self = infer_posterior_spec ctx epsilon self /\
  forall (T : nat) (mid : list nat),
    output_dim (mlp self) = (2 * latent_dim self)%nat ->
    (1 <= latent_dim self)%nat ->
    shape ctx = T :: mid ++ [input_dim (mlp self)] -> wf ctx ->
    (1 <= T)%nat -> (1 <= numel mid)%nat ->
    let L := latent_dim self in
    let B := numel mid in
    exists out zm zv tz,
      MLP_forward (mlp self) ctx = Ok out /\
      shape out = T :: mid ++ [(2 * L)%nat] /\
      infer_posterior ctx epsilon self
      = (Ok tt, set_task_z (Some tz)
                  (set_z_var (Some zv) (set_z_mean (Some zm) self))) /\
      shape zm = [T; L] /\ shape zv = [T; L] /\ shape tz = [T; L] /\
      wf zm /\ wf zv /\ wf tz /\
      Forall (fun v => 0 < v) (data zv) /\
      (forall t j, (t < T)%nat -> (j < L)%nat ->
         entry zv t j
         = fused_var B (fun b =>
             softplus (at_ out ((t * B + b) * (2 * L) + (L + j)))) /\
         entry zm t j
         = fused_mean B
             (fun b => at_ out ((t * B + b) * (2 * L) + j))
             (fun b => softplus (at_ out ((t * B + b) * (2 * L) + (L + j)))) /\
         entry tz t j = entry zm t j + sqrt (entry zv t j) * epsilon t j).
Proof.
  intros Ht. split; [now apply infer_posterior_refines|].
  intros T mid HW HL Sx Wx HT HB.
  now apply infer_posterior_typed.
Qed.

Lemma infer_posterior_pipeline_witness :
  infer_posterior (mkTensor [1%nat; 1%nat; 1%nat] [0]) (fun _ _ => 1)
                  Example.encoder
  = infer_posterior_spec (mkTensor [1%nat; 1%nat; 1%nat] [0]) (fun _ _ => 1)
                         Example.encoder /\
  exists zm zv tz,
    infer_posterior (mkTensor [1%nat; 1%nat; 1%nat] [0]) (fun _ _ => 1)
                    Example.encoder
    = (Ok tt, set_task_z (Some tz)
                (set_z_var (Some zv)
                   (set_z_mean (Some zm) Example.encoder))) /\
    shape zm = [1%nat; 1%nat] /\ shape zv = [1%nat; 1%nat].
Proof.
  destruct (infer_posterior_pipeline Example.encoder
              (mkTensor [1%nat; 1%nat; 1%nat] [0]) (fun _ _ => 1))
    as [E H]; [apply MLP_new_typed|].
  split; [exact E|].
  destruct (H 1%nat [1%nat])
    as (out & zm & zv & tz & _ & _ & E1 & S1 & S2 & _);
    try reflexivity; try (simpl; lia).
  exists zm, zv, tz. auto.
Defined.

End InferPosterior.

(** * Positivity of the posterior variance *)

Section Positivity.
Import Torch Spec Pearl.
Local Open Scope R_scope.

Lemma sample_z_preserves (epsilon : nat -> nat -> R) (self : MLPEncoder) :
  let self' := snd (sample_z epsilon self) in
  mlp self' = mlp self /\ latent_dim self' = latent_dim self /\
  z_mean self' = z_mean self /\ z_var self' = z_var self.
Proof.
  unfold sample_z, mbind, self_, lift, assign.
  destruct (tensor_of (z_mean self)); [|simpl; auto].
  destruct (tensor_of (z_var self)); [|simpl; auto].
  destruct (unbind a); [|simpl; auto].
  destruct (unbind a0); [|simpl; auto].
  destruct (mapM _ (combine a1 a2)); [|simpl; auto].
  destruct (mapM _ (combine _ a3)); [|simpl; auto].
  destruct (stack a4); simpl; auto.
Qed.

Lemma Forall_repeat (P : R -> Prop) (x : R) (n : nat) :
  P x -> Forall P (repeat x n).
Proof. intros H. induction n; simpl; auto. Qed.

(** [clear_z] leaves the prior in [z_mean] and [z_var], whether or not
    the sampling that follows succeeds. *)
Lemma clear_z_state (num_tasks : nat) (epsilon : nat -> nat -> R)
    (self : MLPEncoder) :
  let self' := snd (clear_z num_tasks epsilon self) in
  z_mean self' = Some (zeros [num_tasks; latent_dim self]) /\
  z_var self' = Some (ones [num_tasks; latent_dim self]) /\
  mlp self' = mlp self /\ latent_dim self' = latent_dim self.
Proof.
  unfold clear_z, mbind, self_, assign.
  set (s1 := set_z_var _ (set_z_mean _ self)).
  destruct (sample_z_preserves epsilon s1) as (E1 & E2 & E3 & E4).
  destruct (sample_z epsilon s1) as [[[]|e] s2]; simpl in *;
    rewrite ?E1, ?E2, ?E3, ?E4; auto.
Qed.

Lemma clear_z_returns (num_tasks : nat) (epsilon : nat -> nat -> R)
    (self : MLPEncoder) :
  (1 <= num_tasks)%nat -> fst (clear_z num_tasks epsilon self) = Ok tt.
Proof.
  intros Hn. unfold clear_z, mbind, self_, assign.
  set (s1 := set_z_var _ (set_z_mean _ self)).
  destruct (sample_z_rows s1 num_tasks (latent_dim self)
              (zeros [num_tasks; latent_dim self])
              (ones [num_tasks; latent_dim self]) epsilon)
    as (tz & E & _); try reflexivity; auto.
  - unfold wf. simpl. now rewrite repeat_length.
  - unfold wf. simpl. now rewrite repeat_length.
  - simpl. apply Forall_repeat. lra.
  - rewrite E. reflexivity.
Qed.

Lemma clear_z_no_task (epsilon : nat -> nat -> R) (self : MLPEncoder) :
  fst (clear_z 0 epsilon self) = Raise ShapeError.
Proof. reflexivity. Qed.

Lemma zipWith_Forall (P Q S : R -> Prop) (f : R -> R -> R) (a b : list R) :
  (forall x y, P x -> Q y -> S (f x y)) ->
  Forall P a -> Forall Q b -> Forall S (zipWith f a b).
Proof.
  intros Hf Ha. revert b. induction Ha as [|x a Hx _ IH]; intros b Hb.
  - constructor.
  - destruct Hb as [|y b Hy Hb]; simpl; constructor; auto.
Qed.

Lemma fold_left_zipWith_pos (rows : list (list R)) (acc : list R) :
  Forall (Forall (fun x => 0 < x)) rows ->
  Forall (fun x => 0 < x) acc ->
  Forall (fun x => 0 < x) (fold_left (zipWith Rplus) rows acc).
Proof.
  intros H. revert acc. induction H as [|r rows Hr _ IH]; intros acc Ha; auto.
  simpl. apply IH.
  apply zipWith_Forall with (P := fun x => 0 < x) (Q := fun x => 0 < x);
    auto. intros; lra.
Qed.

Lemma chunks_Forall (P : R -> Prop) (n w : nat) (l : list R) :
  Forall P l -> Forall (Forall P) (chunks n w l).
Proof.
  intros H. apply Forall_forall. intros r Hr. apply Forall_forall.
  intros y Hy. rewrite Forall_forall in H. apply H.
  eapply chunks_In; eauto.
Qed.

(** The divisor of [product_of_gaussians] is strictly positive in every
    entry as soon as the first dimension is not empty. *)
Lemma precision_all_pos (var : Tensor) (k : nat) (s : list nat) :
  shape var = k :: s -> (1 <= k)%nat ->
  Forall (fun p => 0 < p) (data (precision var)).
Proof.
  intros E Hk. unfold precision, sum_dim0. cbn [tmap shape data]. rewrite E.
  cbn [data].
  set (X := map (fun v => 1 / v) (map (clamp_min 1e-7) (data var))).
  assert (PX : Forall (fun x => 0 < x) X).
  { subst X. apply Forall_forall. intros x Hx. apply in_map_iff in Hx.
    destruct Hx as (y & <- & Hy). apply in_map_iff in Hy.
    destruct Hy as (v & <- & _). unfold clamp_min.
    apply Rdiv_lt_0_compat; [lra|].
    apply Rlt_le_trans with (r2 := 1e-7); [lra | apply Rmax_r]. }
  pose proof (chunks_Forall _ k (numel s) X PX) as F.
  destruct k as [|k]; [lia|]. simpl chunks in *. simpl fold_left.
  inversion F as [|r rows Hr Hrows]; subst.
  apply fold_left_zipWith_pos; auto.
  apply zipWith_Forall with (P := fun x => x = 0) (Q := fun x => 0 < x); auto.
  - intros x y -> Hy. lra.
  - apply Forall_forall. intros x Hx. now apply repeat_spec in Hx.
Qed.

Lemma Linear_forward_shape (l : Linear) (x y : Tensor) (i o : nat) :
  shape (weight l) = [o; i] -> Linear_forward l x = Ok y ->
  shape y = removelast (shape x) ++ [o].
Proof.
  intros Sw. unfold Linear_forward. rewrite Sw.
  destruct (shape x) as [|a r]; [discriminate|].
  destruct (_ && _); [|discriminate].
  intros H. injection H as <-. reflexivity.
Qed.

Lemma hidden_shape (f : R -> R) (ls : list Linear) (i o : nat) (x y : Tensor) :
  layers_typed i ls o ->
  fold_left
    (fun acc fc_layer =>
       x <- acc ;; y <- Linear_forward fc_layer x ;; Ok (tmap f y))
    ls (Ok x) = Ok y ->
  removelast (shape y) = removelast (shape x) \/ (ls = [] /\ y = x).
Proof.
  revert i x. induction ls as [|l ls IH]; intros i x Ht H.
  - simpl in H. injection H as <-. auto.
  - left. destruct Ht as (h & (Sw & _) & Hls). simpl in H.
    destruct (Linear_forward l x) as [z|e] eqn:E.
    + rewrite bind_Ok in H.
      pose proof (Linear_forward_shape l x z i h Sw E) as Sz.
      destruct (IH h (tmap f z) Hls H) as [E1|[_ ->]].
      * rewrite E1. cbn [tmap shape]. rewrite Sz. apply removelast_last.
      * cbn [tmap shape]. rewrite Sz. apply removelast_last.
    + simpl in H. rewrite hidden_fold_Raise in H. discriminate.
Qed.

Lemma FlattenMLP_forward_shape (m : MLP) (x out : Tensor) :
  MLP_typed m -> FlattenMLP_forward m [x] = Ok out ->
  shape out = removelast (shape x) ++ [output_dim m].
Proof.
  intros (h & Hl & (Sw & _)). unfold FlattenMLP_forward.
  destruct (cat_last [x]) as [x'|] eqn:Ec; [|discriminate]. rewrite bind_Ok.
  destruct (cat_last_single_shape _ _ Ec) as [<- _].
  unfold MLP_forward. destruct (hidden m x') as [z|e] eqn:Eh; [|discriminate].
  rewrite bind_Ok. intros E.
  rewrite (Linear_forward_shape _ _ _ _ _ Sw E).
  now destruct (hidden_shape _ _ _ _ _ _ Hl Eh) as [->|[_ ->]].
Qed.

Lemma mapM_In_inv (A B : Type) (f : A -> result B) (l : list A) (ys : list B) :
  mapM f l = Ok ys ->
  forall y, In y ys -> exists x, In x l /\ f x = Ok y.
Proof.
  revert ys. induction l as [|a l IH]; simpl; intros ys H y Hy.
  - injection H as <-. destruct Hy.
  - destruct (f a) as [b|e] eqn:E; [|discriminate]. rewrite bind_Ok in H.
    destruct (mapM f l) as [bs|e]; [|discriminate]. rewrite bind_Ok in H.
    injection H as <-. destruct Hy as [<-|Hy]; [eauto|].
    destruct (IH bs eq_refl y Hy) as (x & Hx & Ex). eauto.
Qed.

Lemma stack_data (ts : list Tensor) (t : Tensor) :
  stack ts = Ok t -> data t = concat (map data ts).
Proof.
  unfold stack. destruct ts as [|t0 ts]; [discriminate|].
  destruct (forallb _ _); [|discriminate]. intros H. now injection H as <-.
Qed.

Lemma product_of_gaussians_var (mean var pm pv : Tensor) :
  product_of_gaussians mean var = Ok (pm, pv) ->
  pv = tmap (fun s => 1 / s) (precision var).
Proof.
  rewrite precision_unfold.
  destruct (tdiv _ _) as [mv|e]; [|discriminate]. rewrite bind_Ok.
  destruct (tmul _ _) as [m|e]; [|discriminate]. rewrite bind_Ok.
  intros H. now injection H as _ <-.
Qed.

(** [infer_posterior] continues from the pairs [gaussians] yields. *)
Lemma infer_posterior_gaussians (self : MLPEncoder) (ctx : Tensor)
    (epsilon : nat -> nat -> R) :
  infer_posterior ctx epsilon self
  = mbind (lift (gs <- gaussians self ctx ;;
                 mapM (fun mv => product_of_gaussians (fst mv) (snd mv)) gs))
      (fun z_params =>
         mbind (lift (stack (map fst z_params))) (fun zm =>
         mbind (assign (set_z_mean (Some zm))) (fun _ =>
         mbind (lift (stack (map snd z_params))) (fun zv =>
         mbind (assign (set_z_var (Some zv))) (fun _ =>
         sample_z epsilon))))) self.
Proof.
  unfold infer_posterior, gaussians, mbind, lift, self_.
  destruct (FlattenMLP_forward (mlp self) [ctx]) as [out|e]; [|reflexivity].
  rewrite bind_Ok.
  destruct (size0 ctx) as [n|e]; [|reflexivity]. rewrite bind_Ok.
  destruct (view3 _ _ out) as [p|e]; [|reflexivity]. rewrite bind_Ok.
  destruct (slice_last_to _ p) as [mu|e]; [|reflexivity]. rewrite bind_Ok.
  destruct (unbind mu) as [zm|e]; [|reflexivity]. rewrite bind_Ok.
  destruct (slice_last_from _ p) as [sg|e]; [|reflexivity]. rewrite bind_Ok.
  destruct (unbind _) as [zv|e]; [|reflexivity]. rewrite !bind_Ok.
  reflexivity.
Qed.

(** Each pair handed to [product_of_gaussians] stacks one Gaussian per
    transition of the task. *)
Lemma gaussians_shapes (self : MLPEncoder) (ctx : Tensor) (T d : nat)
    (mid : list nat) (gs : list (Tensor * Tensor)) :
  MLP_typed (mlp self) -> shape ctx = T :: mid ++ [d] ->
  gaussians self ctx = Ok gs ->
  length gs = T /\
  Forall (fun g =>
            shape (fst g)
            = [numel mid; Nat.min (latent_dim self) (output_dim (mlp self))] /\
            shape (snd g)
            = [numel mid; (output_dim (mlp self) - latent_dim self)%nat]) gs.
Proof.
  intros Ht Sx. unfold gaussians.
  destruct (FlattenMLP_forward (mlp self) [ctx]) as [out|e] eqn:Ef;
    [|discriminate].
  rewrite bind_Ok. unfold size0. rewrite Sx, bind_Ok.
  pose proof (FlattenMLP_forward_shape _ _ _ Ht Ef) as So.
  pose proof (FlattenMLP_forward_wf _ _ _ Ht Ef) as Wo.
  rewrite Sx in So. change (T :: mid ++ [d]) with ((T :: mid) ++ [d]) in So.
  rewrite removelast_last in So.
  set (W := output_dim (mlp self)) in *. set (L := latent_dim self).
  destruct (view3 T W out) as [p|e] eqn:Ev; [|discriminate].
  rewrite bind_Ok.
  destruct (view3_Ok _ _ _ _ Wo Ev) as (B & -> & Hd & EB & HTW).
  assert (HB : B = numel mid).
  { rewrite EB, So, numel_last. cbn [numel fold_right]. fold (numel mid).
    replace (T * numel mid * W)%nat with (numel mid * (T * W))%nat by ring.
    apply Nat.div_mul. lia. }
  destruct (slices_by_task L T B W (data out) Hd)
    as (mu & sg & zm & zv & tasks & E1 & E2 & E3 & E4 & E5 & E6).
  rewrite E1, bind_Ok, E2, bind_Ok, E3, bind_Ok, E4, bind_Ok, E6.
  intros H. injection H as <-.
  unfold unbind in E5. cbn [shape data] in E5. injection E5 as <-.
  split; [now rewrite !length_map, chunks_length|].
  apply Forall_forall. intros g Hg. apply in_map_iff in Hg.
  destruct Hg as (task & <- & Htask). apply in_map_iff in Htask.
  destruct Htask as (blk & <- & _).
  unfold gaussian_rows. cbn [shape data nth fst snd]. now rewrite HB.
Qed.

Lemma infer_posterior_z_var_positive (self : MLPEncoder) (ctx : Tensor)
    (epsilon : nat -> nat -> R) (T d : nat) (mid : list nat) :
  z_var_positive self -> MLP_typed (mlp self) ->
  shape ctx = T :: mid ++ [d] -> (1 <= numel mid)%nat ->
  z_var_positive (snd (infer_posterior ctx epsilon self)).
Proof.
  intros Hpos Ht Sx HB. rewrite infer_posterior_gaussians.
  unfold mbind, lift, assign.
  destruct (gaussians self ctx) as [gs|e] eqn:Eg; [|exact Hpos].
  rewrite bind_Ok.
  destruct (mapM _ gs) as [zs|e] eqn:Ez; [|exact Hpos].
  destruct (stack (map fst zs)) as [zm|e]; [|exact Hpos].
  destruct (stack (map snd zs)) as [zv|e] eqn:Es; [|exact Hpos].
  set (s' := set_z_var (Some zv) (set_z_mean (Some zm) self)).
  destruct (sample_z_preserves epsilon s') as (_ & _ & _ & E).
  unfold z_var_positive. rewrite E. exists zv. split; [reflexivity|].
  rewrite (stack_data _ _ Es). apply Forall_concat_intro.
  apply Forall_forall. intros r Hr. apply in_map_iff in Hr.
  destruct Hr as (pv & <- & Hpv). apply in_map_iff in Hpv.
  destruct Hpv as ([pm pv'] & <- & Hz). cbn [snd].
  destruct (mapM_In_inv _ _ _ _ _ Ez _ Hz) as ([mu var] & Hg & Epog).
  cbn [fst snd] in Epog.
  rewrite (product_of_gaussians_var _ _ _ _ Epog). cbn [tmap data].
  destruct (gaussians_shapes self ctx T d mid gs Ht Sx Eg) as [_ F].
  rewrite Forall_forall in F. destruct (F _ Hg) as [_ Sv]. cbn [snd] in Sv.
  pose proof (precision_all_pos var _ _ Sv HB) as P.
  apply Forall_forall. intros x Hx. apply in_map_iff in Hx.
  destruct Hx as (p & <- & Hp). rewrite Forall_forall in P.
  apply Rdiv_lt_0_compat; [lra | auto].
Qed.

Lemma MLPEncoder_new_state (i o L h : nat) (w0 b0 : nat -> nat -> R)
    (epsilon : nat -> nat -> R) :
  fst (MLPEncoder_new i o L h w0 b0 epsilon) = Ok tt /\
  z_var (snd (MLPEncoder_new i o L h w0 b0 epsilon))
  = Some (ones [1%nat; L]).
Proof.
  unfold MLPEncoder_new. split.
  - apply clear_z_returns. lia.
  - apply clear_z_state.
Qed.

Lemma ones_positive (s : list nat) : Forall (fun v => 0 < v) (data (ones s)).
Proof. simpl. apply Forall_repeat. lra. Qed.

(** C8, as the code has it.  Every entry of [z_var] is strictly positive
    after construction, after every call of [clear_z], and after every call
    of [infer_posterior] on a context with at least one transition per task
    (whether the call returns or raises); on such a context every divisor of
    [product_of_gaussians] is strictly positive.  [sample_z] and
    [compute_kl_div] therefore take square roots of strictly positive
    numbers. *)
Theorem z_var_strictly_positive :
  (forall i o L h w0 b0 epsilon,
     fst (MLPEncoder_new i o L h w0 b0 epsilon) = Ok tt /\
     z_var_positive (snd (MLPEncoder_new i o L h w0 b0 epsilon))) /\
  (forall self num_tasks epsilon,
     z_var_positive (snd (clear_z num_tasks epsilon self))) /\
  (forall self ctx epsilon T d mid,
     z_var_positive self -> MLP_typed (mlp self) ->
     shape ctx = T :: mid ++ [d] -> (1 <= numel mid)%nat ->
     z_var_positive (snd (infer_posterior ctx epsilon self)) /\
     forall gs, gaussians self ctx = Ok gs ->
       Forall (fun g => Forall (fun p => 0 < p) (data (precision (snd g)))) gs).
Proof.
  split; [|split].
  - intros. destruct (MLPEncoder_new_state i o L h w0 b0 epsilon) as [E1 E2].
    split; [exact E1|]. eexists. split; [exact E2 | apply ones_positive].
  - intros. destruct (clear_z_state num_tasks epsilon self) as (_ & E & _).
    eexists. split; [exact E | apply ones_positive].
  - intros self ctx epsilon T d mid Hpos Ht Sx HB. split.
    + now apply infer_posterior_z_var_positive with (T := T) (d := d) (mid := mid).
    + intros gs Eg.
      destruct (gaussians_shapes self ctx T d mid gs Ht Sx Eg) as [_ F].
      apply Forall_forall. intros g Hg. rewrite Forall_forall in F.
      destruct (F g Hg) as [_ Sv].
      now apply precision_all_pos with (k := numel mid) (s := [(output_dim (mlp self) - latent_dim self)%nat]).
Qed.

Lemma z_var_strictly_positive_witness :
  z_var_positive
    (snd (infer_posterior (mkTensor [1%nat; 1%nat; 1%nat] [0]) (fun _ _ => 1)
                          Example.encoder)).
Proof.
  destruct z_var_strictly_positive as (_ & _ & H).
  apply (H Example.encoder (mkTensor [1%nat; 1%nat; 1%nat] [0])
           (fun _ _ => 1) 1%nat 1%nat [1%nat]).
  - eexists. split; [reflexivity|]. repeat constructor. lra.
  - apply MLP_new_typed.
  - reflexivity.
  - simpl. lia.
Defined.

(** C8 as stated fails on a context without transitions: the context
    passes the reshape, each task contributes an empty stack of Gaussians,
    the sum of reciprocals is the empty sum, and [product_of_gaussians]
    divides by zero. *)
Lemma infer_posterior_no_transition_divisor :
  MLP_typed (mlp Example.encoder) /\ z_var_positive Example.encoder /\
  gaussians Example.encoder (mkTensor [1%nat; 0%nat; 1%nat] [])
  = Ok [(mkTensor [0%nat; 1%nat] [], mkTensor [0%nat; 1%nat] [])] /\
  precision (mkTensor [0%nat; 1%nat] []) = mkTensor [1%nat] [0] /\
  product_of_gaussians (mkTensor [0%nat; 1%nat] []) (mkTensor [0%nat; 1%nat] [])
  = Ok (mkTensor [1%nat] [1 / 0 * 0], mkTensor [1%nat] [1 / 0]).
Proof.
  split; [apply MLP_new_typed|]. split.
  - eexists. split; [reflexivity|]. repeat constructor. lra.
  - repeat split; reflexivity.
Qed.

(** ** At least one task

    [sample_z] ends in [torch.stack], which rejects the empty list, so a
    call of [clear_z] or [infer_posterior] that returns leaves a posterior
    over at least one task. *)

Lemma sample_z_no_task (self : MLPEncoder) (zm zv : Tensor) (s : list nat)
    (epsilon : nat -> nat -> R) :
  z_mean self = Some zm -> z_var self = Some zv -> shape zm = 0%nat :: s ->
  shape zv <> [] ->
  sample_z epsilon self = (Raise ShapeError, self).
Proof.
  intros Em Ev Sm Sv. unfold sample_z, mbind, self_, lift.
  rewrite Em, Ev. cbn [tensor_of]. unfold unbind. rewrite Sm.
  destruct (shape zv); [contradiction|]. reflexivity.
Qed.

Lemma compute_kl_div_no_task (self : MLPEncoder) (zm zv : Tensor)
    (s : list nat) :
  z_mean self = Some zm -> z_var self = Some zv -> shape zm = 0%nat :: s ->
  shape zv <> [] ->
  compute_kl_div self = Raise ShapeError.
Proof.
  intros Em Ev Sm Sv. unfold compute_kl_div.
  rewrite Normal_new_Ok;
    [| reflexivity
     | unfold wf; simpl; now rewrite repeat_length
     | unfold wf; simpl; now rewrite repeat_length
     | apply ones_positive ].
  rewrite bind_Ok, Em, Ev. cbn [tensor_of]. rewrite !bind_Ok.
  unfold unbind. rewrite Sm. destruct (shape zv); [contradiction|].
  reflexivity.
Qed.

Lemma clear_z_returns_tasks (num_tasks : nat) (epsilon : nat -> nat -> R)
    (self : MLPEncoder) :
  fst (clear_z num_tasks epsilon self) = Ok tt -> (1 <= num_tasks)%nat.
Proof.
  destruct num_tasks; [|lia]. rewrite clear_z_no_task. discriminate.
Qed.

Lemma stack_shape (ts : list Tensor) (t : Tensor) :
  stack ts = Ok t ->
  exists s, shape t = length ts :: s /\ (1 <= length ts)%nat.
Proof.
  unfold stack. destruct ts as [|t0 ts]; [discriminate|].
  destruct (forallb _ _); [|discriminate]. intros H. injection H as <-.
  eexists. split; [reflexivity | simpl; lia].
Qed.

Lemma infer_posterior_returns_tasks (self : MLPEncoder) (ctx : Tensor)
    (epsilon : nat -> nat -> R) :
  fst (infer_posterior ctx epsilon self) = Ok tt ->
  exists zm T s,
    z_mean (snd (infer_posterior ctx epsilon self)) = Some zm /\
    shape zm = T :: s /\ (1 <= T)%nat.
Proof.
  rewrite infer_posterior_gaussians. unfold mbind, lift, assign.
  destruct (gs <- gaussians self ctx ;; _) as [zs|e]; [|discriminate].
  destruct (stack (map fst zs)) as [zm|e] eqn:Em; [|discriminate].
  destruct (stack (map snd zs)) as [zv|e]; [|discriminate].
  set (s' := set_z_var (Some zv) (set_z_mean (Some zm) self)).
  destruct (sample_z_preserves epsilon s') as (_ & _ & E & _).
  intros _. destruct (stack_shape _ _ Em) as (s & Ss & Hl).
  exists zm, (length (map fst zs)), s. rewrite E. auto.
Qed.

End Positivity.

(** * The trainer *)

Section TrainerFacts.
Import Trainer.
Local Open Scope string_scope.
Local Open Scope Z_scope.

Variables EnvParams SacParams Agent : Type.
Variables cheetah_dir_config cheetah_vel_config : Config EnvParams SacParams.
Variable envs : string -> option (EnvParams -> result Env).
Variable SAC : SACArgs SacParams -> result Agent.
Variable int : string -> result Z.
Variable cuda_is_available : bool.

Lemma select_config_other (args : Args) :
  env args <> "dir" -> env args <> "vel" ->
  select_config cheetah_dir_config cheetah_vel_config args = None.
Proof.
  intros H1 H2. unfold select_config.
  apply String.eqb_neq in H1, H2. now rewrite H1, H2.
Qed.

Lemma select_config_cases (args : Args) (config : Config EnvParams SacParams) :
  select_config cheetah_dir_config cheetah_vel_config args = Some config ->
  (env args = "dir" /\ config = cheetah_dir_config) \/
  (env args = "vel" /\ config = cheetah_vel_config).
Proof.
  unfold select_config.
  destruct (String.eqb (env args) "dir") eqn:E1.
  - intros H. injection H as <-. apply String.eqb_eq in E1. auto.
  - destruct (String.eqb (env args) "vel") eqn:E2; [|discriminate].
    intros H. injection H as <-. apply String.eqb_eq in E2. auto.
Qed.

(** C10. Called with an [--env] other than ['dir'] and ['vel'], the
    trainer does not raise [NotImplementedError]: the [else] branch only
    evaluates that name, and the next statement reads the local [config],
    which no branch has bound, so the run ends in an unbound-local error
    before any environment is created. *)
Theorem trainer_unknown_env (args : Args) :
  env args <> "dir" -> env args <> "vel" ->
  trainer cheetah_dir_config cheetah_vel_config envs SAC int
          cuda_is_available args
  = ([], Raise (UnboundLocalError "config")) /\
  snd (trainer cheetah_dir_config cheetah_vel_config envs SAC int
               cuda_is_available args) <> Raise NotImplementedError.
Proof.
  intros H1 H2. unfold trainer.
  rewrite select_config_other by assumption.
  split; [reflexivity | discriminate].
Qed.

(** C7. Every agent the trainer constructs is given
    [encoder_input_dim = observ_dim + action_dim + 1] and
    [encoder_output_dim = 2 * latent_dim], with [observ_dim] and
    [action_dim] the first dimensions of the environment's observation and
    action spaces and [latent_dim] the configured latent size; and the
    trainer does construct one whenever the configuration, the environment
    and the hidden-unit list are obtained. *)
Theorem trainer_encoder_dims (args : Args) :
  (forall kw,
     In (NewSAC kw)
        (fst (trainer cheetah_dir_config cheetah_vel_config envs SAC int
                      cuda_is_available args)) ->
     encoder_input_dim kw = observ_dim kw + action_dim kw + 1 /\
     encoder_output_dim kw = 2 * latent_dim kw /\
     exists config e mk,
       select_config cheetah_dir_config cheetah_vel_config args = Some config /\
       envs (env_name config) = Some mk /\ mk (env_params config) = Ok e /\
       first (observation_space_shape e) = Ok (observ_dim kw) /\
       first (action_space_shape e) = Ok (action_dim kw) /\
       latent_dim kw = latent_size config) /\
  (forall config mk e o ro a ra hu,
     select_config cheetah_dir_config cheetah_vel_config args = Some config ->
     envs (env_name config) = Some mk -> mk (env_params config) = Ok e ->
     observation_space_shape e = o :: ro -> action_space_shape e = a :: ra ->
     mapM int (split ","%char (hidden_units config)) = Ok hu ->
     exists kw,
       fst (trainer cheetah_dir_config cheetah_vel_config envs SAC int
                    cuda_is_available args)
       = [MakeEnv (env_name config) (env_params config); NewSAC kw] /\
       encoder_input_dim kw = o + a + 1 /\
       encoder_output_dim kw = 2 * latent_size config).
Proof.
  split.
  - intros kw. unfold trainer.
    destruct (select_config _ _ args) as [config|]; [|simpl; tauto].
    unfold local, pure_ at 1, run_bind at 1.
    unfold lookup_env. destruct (envs (env_name config)) as [mk|] eqn:Emk;
      [|simpl; tauto].
    unfold pure_ at 1, run_bind at 1. unfold call at 1, run_bind at 1.
    destruct (mk (env_params config)) as [e|] eqn:Ee;
      [|simpl; intuition discriminate].
    destruct (first (observation_space_shape e)) as [o|] eqn:Eo;
      [|simpl; intuition discriminate].
    unfold pure_ at 1, run_bind at 1.
    destruct (first (action_space_shape e)) as [a|] eqn:Ea;
      [|simpl; intuition discriminate].
    unfold pure_ at 1, run_bind at 1.
    destruct (mapM int _) as [hu|]; [|simpl; intuition discriminate].
    unfold pure_ at 1, run_bind at 1. unfold call, run_bind, pure_.
    destruct (SAC _) as [agent|]; cbn [fst app];
      (intros [H|[H|[]]]; [discriminate|]; injection H as <-;
       cbn [encoder_input_dim encoder_output_dim observ_dim action_dim
            latent_dim];
       split; [lia|]; split; [lia|];
       exists config, e, mk; repeat split; auto).
  - intros config mk e o ro a ra hu Ec Emk Ee Eo Ea Eh. unfold trainer.
    rewrite Ec. unfold local, pure_ at 1, run_bind at 1.
    unfold lookup_env. rewrite Emk.
    unfold pure_ at 1, run_bind at 1. unfold call at 1, run_bind at 1.
    rewrite Ee, Eo, Ea. unfold first.
    unfold pure_ at 1, run_bind at 1. unfold pure_ at 1, run_bind at 1.
    rewrite Eh. unfold pure_ at 1, run_bind at 1. unfold call, run_bind, pure_.
    eexists. destruct (SAC _); cbn [fst app]; (split; [reflexivity|]);
      cbn [encoder_input_dim encoder_output_dim]; lia.
Qed.

End TrainerFacts.

Lemma trainer_unknown_env_witness :
  Trainer.trainer Example.dir_config Example.vel_config Example.envs
                  Example.SAC Example.int false (Trainer.mkArgs "ant" 0)
  = ([], Raise (UnboundLocalError "config")).
Proof.
  apply (trainer_unknown_env unit unit unit Example.dir_config
           Example.vel_config Example.envs Example.SAC Example.int false
           (Trainer.mkArgs "ant" 0));
    simpl; discriminate.
Defined.

Lemma trainer_encoder_dims_witness :
  exists kw,
    fst (Trainer.trainer Example.dir_config Example.vel_config Example.envs
                         Example.SAC Example.int false
                         (Trainer.mkArgs "dir" 0))
    = [Trainer.MakeEnv "cheetah-dir" tt; Trainer.NewSAC kw] /\
    Trainer.encoder_input_dim kw = (20 + 6 + 1)%Z /\
    Trainer.encoder_output_dim kw = (2 * 5)%Z.
Proof.
  destruct (trainer_encoder_dims unit unit unit Example.dir_config
              Example.vel_config Example.envs Example.SAC Example.int false
              (Trainer.mkArgs "dir" 0)) as [_ H].
  apply (H Example.dir_config (fun _ => Ok (Trainer.mkEnv [20%Z] [6%Z] []))
           (Trainer.mkEnv [20%Z] [6%Z] []) 20%Z [] 6%Z []
           [300%Z; 300%Z; 300%Z]);
    reflexivity.
Defined.

(** * Further properties of the encoder

    ** Sums and tensors *)

Section SumAndTensorFacts.
Import Torch Spec Pearl.
Local Open Scope R_scope.

Lemma big_sum_nonneg (k : nat) (f : nat -> R) :
  (forall i, (i < k)%nat -> 0 <= f i) -> 0 <= big_sum k f.
Proof.
  induction k as [|k IH]; simpl; intros H; [lra|].
  assert (0 <= big_sum k f) by (apply IH; intros; apply H; lia).
  specialize (H k ltac:(lia)). lra.
Qed.

Lemma tensor_ext (a b : Tensor) (s : list nat) :
  shape a = s -> shape b = s -> wf a -> wf b ->
  (forall j, (j < numel s)%nat -> at_ a j = at_ b j) -> a = b.
Proof.
  destruct a as [sa da], b as [sb db]. unfold wf, at_. cbn [shape data].
  intros -> -> Wa Wb H. f_equal.
  apply (nth_ext da db 0 0); [congruence|].
  intros j Hj. apply H. lia.
Qed.

End SumAndTensorFacts.

(** ** The encoder's state: [clear_z], [__init__] and [compute_kl_div] *)

Section EncoderState.
Import Torch Spec Pearl.
Local Open Scope R_scope.

(** The value [compute_kl_div] returns, for use below. *)
Lemma compute_kl_div_sum (self : MLPEncoder) (T : nat) (zm zv : Tensor) :
  z_mean self = Some zm -> z_var self = Some zv ->
  shape zm = [T; latent_dim self] -> shape zv = [T; latent_dim self] ->
  wf zm -> wf zv ->
  (1 <= T)%nat -> Forall (fun v => 0 < v) (data zv) ->
  compute_kl_div self
  = Ok (mkTensor []
         [big_sum T (fun t => big_sum (latent_dim self) (fun j =>
            kl_closed_form (entry zm t j) (entry zv t j)))]).
Proof.
  intros Hzm Hzv Sm Sv Wm Wv HT Hpos.
  set (L := latent_dim self) in *.
  assert (N1 : numel [L] = L) by (simpl; lia).
  unfold compute_kl_div. fold L.
  rewrite Normal_new_Ok;
    [| reflexivity
     | unfold wf; simpl; now rewrite repeat_length
     | unfold wf; simpl; now rewrite repeat_length
     | simpl; apply Forall_forall; intros x Hx; apply repeat_spec in Hx; lra ].
  rewrite ?bind_Ok; cbv beta. rewrite Hzm, Hzv. unfold tensor_of. rewrite ?bind_Ok; cbv beta.
  rewrite (unbind_Ok zm T [L] Sm), (unbind_Ok zv T [L] Sv). rewrite ?bind_Ok; cbv beta.
  rewrite N1.
  assert (Lm : length (data zm) = (T * L)%nat)
    by (unfold wf in Wm; rewrite Wm, Sm; simpl; lia).
  assert (Lv : length (data zv) = (T * L)%nat)
    by (unfold wf in Wv; rewrite Wv, Sv; simpl; lia).
  pose proof (chunks_Forall_length T L (data zm) ltac:(lia)) as Fm.
  pose proof (chunks_Forall_length T L (data zv) ltac:(lia)) as Fv.
  set (rm := chunks T L (data zm)) in *.
  set (rv := chunks T L (data zv)) in *.
  rewrite (mapM_Ok _ _ _ (fun mv => Normal.mk (fst mv) (tmap sqrt (snd mv)))).
  2:{ intros [m v] Hin. simpl.
      pose proof (in_combine_l _ _ _ _ Hin) as Hm.
      pose proof (in_combine_r _ _ _ _ Hin) as Hv.
      apply in_map_iff in Hm. destruct Hm as (xm & <- & Hxm).
      apply in_map_iff in Hv. destruct Hv as (xv & <- & Hxv).
      rewrite Forall_forall in Fm, Fv.
      apply Normal_new_Ok; simpl; auto.
      - unfold wf. simpl. rewrite Fm by auto. lia.
      - unfold wf. simpl. rewrite length_map, Fv by auto. lia.
      - apply Forall_forall. intros x Hx. apply in_map_iff in Hx.
        destruct Hx as (y & <- & Hy). apply sqrt_lt_R0.
        rewrite Forall_forall in Hpos. apply Hpos.
        eapply chunks_In; eauto. }
  rewrite ?bind_Ok; cbv beta.
  set (dists := map _ (combine (map (mkTensor [L]) rm) (map (mkTensor [L]) rv))).
  set (kl := fun d : Normal.t =>
     map (fun x => 0.5 * x)
       (zipWith Rminus
          (map (fun x => x - 1)
             (zipWith Rplus
                (map (fun x => x ^ 2)
                   (zipWith Rdiv (data (Normal.scale d)) (repeat 1 (numel [L]))))
                (map (fun x => x ^ 2)
                   (zipWith Rdiv
                      (zipWith Rminus (data (Normal.loc d)) (repeat 0 (numel [L])))
                      (repeat 1 (numel [L]))))))
          (map ln (map (fun x => x ^ 2)
                     (zipWith Rdiv (data (Normal.scale d)) (repeat 1 (numel [L]))))))).
  assert (Ld : length dists = T).
  { subst dists. rewrite length_map, length_combine, !length_map.
    subst rm rv. rewrite !chunks_length. lia. }
  assert (Hd : forall d, In d dists ->
            exists xm xv, d = Normal.mk (mkTensor [L] xm) (mkTensor [L] (map sqrt xv))
                          /\ length xm = L /\ length xv = L).
  { intros d Hin. subst dists. apply in_map_iff in Hin.
    destruct Hin as ([m v] & <- & Hin).
    pose proof (in_combine_l _ _ _ _ Hin) as Hm.
    pose proof (in_combine_r _ _ _ _ Hin) as Hv.
    apply in_map_iff in Hm. destruct Hm as (xm & <- & Hxm).
    apply in_map_iff in Hv. destruct Hv as (xv & <- & Hxv).
    rewrite Forall_forall in Fm, Fv.
    exists xm, xv. repeat split; auto. }
  rewrite (mapM_Ok _ _ _ (fun d => mkTensor [L] (kl d))).
  2:{ intros d Hin. destruct (Hd d Hin) as (xm & xv & -> & Hxm & Hxv).
      rewrite kl_divergence_Ok; try reflexivity;
        unfold wf; simpl; rewrite ?length_map, ?repeat_length; lia. }
  rewrite ?bind_Ok; cbv beta.
  rewrite (stack_Ok _ [L]).
  2:{ intros E. apply (f_equal (@length _)) in E.
      rewrite length_map, Ld in E. simpl in E. lia. }
  2:{ apply Forall_forall. intros x Hx. apply in_map_iff in Hx.
      destruct Hx as (y & <- & _). reflexivity. }
  rewrite ?bind_Ok; cbv beta. unfold sum_all. simpl data. rewrite map_map. simpl data.
  do 3 f_equal.
  assert (Fr : Forall (fun r => length r = L) (map kl dists)).
  { apply Forall_forall. intros r Hr. apply in_map_iff in Hr.
    destruct Hr as (d & <- & Hin).
    destruct (Hd d Hin) as (xm & xv & -> & Hxm & Hxv). subst kl. cbv beta.
    simpl Normal.loc. simpl Normal.scale. simpl data. rewrite N1. len. }
  rewrite (sum_list_rows T L) by (auto; now rewrite length_map).
  apply big_sum_ext. intros t Ht. apply big_sum_ext. intros j Hj.
  set (d0 := Normal.mk (mkTensor [L] []) (tmap sqrt (mkTensor [L] []))).
  rewrite (nth_indep (map kl dists) [] (kl d0)) by (rewrite length_map; lia).
  rewrite map_nth.
  subst dists.
  change d0 with ((fun mv => Normal.mk (fst mv) (tmap sqrt (snd mv)))
                    (mkTensor [L] [], mkTensor [L] [])).
  rewrite map_nth, combine_nth
    by (rewrite !length_map; subst rm rv; now rewrite !chunks_length).
  rewrite !map_nth.
  assert (Lrm : length (nth t rm []) = L)
    by (apply Forall_nth; [exact Fm | subst rm; rewrite chunks_length; lia]).
  assert (Lrv : length (nth t rv []) = L)
    by (apply Forall_nth; [exact Fv | subst rv; rewrite chunks_length; lia]).
  subst kl. cbv beta. simpl fst. simpl snd. simpl Normal.loc. simpl Normal.scale.
  unfold tmap. simpl data. rewrite N1.
  push_nth.
  rewrite !nth_repeat_lt by lia.
  subst rm rv. rewrite !nth_nth_chunks by lia.
  unfold entry, at_. rewrite Sm, Sv. simpl tl. rewrite N1.
  apply kl_entry.
  rewrite Forall_nth in Hpos. apply Hpos. nia.
Qed.

Lemma sample_z_frame (epsilon : nat -> nat -> R) (self : MLPEncoder) :
  let self' := snd (sample_z epsilon self) in
  mlp self' = mlp self /\ latent_dim self' = latent_dim self /\
  z_mean self' = z_mean self /\ z_var self' = z_var self /\
  context self' = context self.
Proof.
  unfold sample_z, mbind, self_, lift, assign.
  destruct (tensor_of (z_mean self)); [|simpl; auto 6].
  destruct (tensor_of (z_var self)); [|simpl; auto 6].
  destruct (unbind a); [|simpl; auto 6].
  destruct (unbind a0); [|simpl; auto 6].
  destruct (mapM _ (combine a1 a2)); [|simpl; auto 6].
  destruct (mapM _ (combine _ a3)); [|simpl; auto 6].
  destruct (stack a4); simpl; auto 6.
Qed.

Lemma clear_z_run (num_tasks : nat) (epsilon : nat -> nat -> R)
    (self : MLPEncoder) :
  (1 <= num_tasks)%nat ->
  exists tz,
    clear_z num_tasks epsilon self
    = (Ok tt,
       mkMLPEncoder (mlp self) (latent_dim self)
         (Some (zeros [num_tasks; latent_dim self]))
         (Some (ones [num_tasks; latent_dim self]))
         (Some tz) None) /\
    shape tz = [num_tasks; latent_dim self] /\ wf tz /\
    forall t j, (t < num_tasks)%nat -> (j < latent_dim self)%nat ->
      entry tz t j = epsilon t j.
Proof.
  intros Hn. unfold clear_z, mbind, self_, assign.
  set (s1 := set_z_var _ (set_z_mean _ self)).
  destruct (sample_z_rows s1 num_tasks (latent_dim self)
              (zeros [num_tasks; latent_dim self])
              (ones [num_tasks; latent_dim self]) epsilon)
    as (tz & E & St & Wt & Hent); try reflexivity; auto.
  - unfold wf. simpl. now rewrite repeat_length.
  - unfold wf. simpl. now rewrite repeat_length.
  - apply ones_positive.
  - exists tz. rewrite E. split; [reflexivity|]. split; [exact St|].
    split; [exact Wt|]. intros t j Ht Hj. rewrite (Hent t j Ht Hj).
    unfold entry, at_, zeros, ones, full. cbn [shape data tl].
    assert (Hr : (t * numel [latent_dim self] + j
                  < numel [num_tasks; latent_dim self])%nat)
      by (simpl; nia).
    rewrite !nth_repeat_lt by exact Hr.
    rewrite sqrt_1. ring.
Qed.

(** X4.  [clear_z] with at least one task returns and leaves the encoder
    holding the prior: zero means, unit variances, a fresh sample that is
    the noise itself (mean 0, standard deviation 1), and no context; the
    network and [latent_dim] are untouched. *)
Theorem clear_z_prior (num_tasks : nat) (epsilon : nat -> nat -> R)
    (self : MLPEncoder) :
  (1 <= num_tasks)%nat ->
  exists tz,
    clear_z num_tasks epsilon self
    = (Ok tt,
       mkMLPEncoder (mlp self) (latent_dim self)
         (Some (zeros [num_tasks; latent_dim self]))
         (Some (ones [num_tasks; latent_dim self]))
         (Some tz) None) /\
    shape tz = [num_tasks; latent_dim self] /\ wf tz /\
    forall t j, (t < num_tasks)%nat -> (j < latent_dim self)%nat ->
      entry tz t j = epsilon t j.
Proof. exact (clear_z_run num_tasks epsilon self). Qed.

Lemma clear_z_prior_witness :
  exists tz,
    clear_z 2 (fun t j => INR t) Example.encoder
    = (Ok tt,
       mkMLPEncoder (mlp Example.encoder) 1
         (Some (zeros [2%nat; 1%nat])) (Some (ones [2%nat; 1%nat]))
         (Some tz) None) /\
    entry tz 1 0 = INR 1.
Proof.
  destruct (clear_z_prior 2 (fun t j => INR t) Example.encoder)
    as (tz & E & _ & _ & H); [lia|].
  exists tz. split; [exact E|]. apply H; simpl; lia.
Defined.

(** X5.  [clear_z(0)] raises, and not before it has overwritten the
    posterior: [z_mean] and [z_var] are the empty prior, while [task_z] and
    [context] keep their old values.  In the state it leaves behind,
    [sample_z] and [compute_kl_div] raise as well. *)
Theorem clear_z_no_tasks (epsilon : nat -> nat -> R) (self : MLPEncoder) :
  exists self',
    self' = mkMLPEncoder (mlp self) (latent_dim self)
              (Some (zeros [0%nat; latent_dim self]))
              (Some (ones [0%nat; latent_dim self]))
              (task_z self) (context self) /\
    clear_z 0 epsilon self = (Raise ShapeError, self') /\
    (forall epsilon', sample_z epsilon' self' = (Raise ShapeError, self')) /\
    compute_kl_div self' = Raise ShapeError.
Proof.
  eexists. split; [reflexivity|]. split; [reflexivity|]. split.
  - intros epsilon'.
    apply (sample_z_no_task _ (zeros [0%nat; latent_dim self])
             (ones [0%nat; latent_dim self]) [latent_dim self]);
      try reflexivity.
    discriminate.
  - apply (compute_kl_div_no_task _ (zeros [0%nat; latent_dim self])
             (ones [0%nat; latent_dim self]) [latent_dim self]);
      try reflexivity.
    discriminate.
Qed.

Lemma big_sum_zero (k : nat) (f : nat -> R) :
  (forall i, (i < k)%nat -> f i = 0) -> big_sum k f = 0.
Proof.
  induction k as [|k IH]; simpl; intros H; auto.
  rewrite IH, H by auto. ring.
Qed.

Lemma kl_closed_form_prior : kl_closed_form 0 1 = 0.
Proof. unfold kl_closed_form. rewrite ln_1. lra. Qed.

Lemma ln_le_minus_1 (v : R) : 0 < v -> ln v <= v - 1.
Proof.
  intros Hv. pose proof (exp_ineq1_le (ln v)) as H.
  rewrite exp_ln in H by exact Hv. lra.
Qed.

Lemma kl_closed_form_nonneg (mu v : R) : 0 < v -> 0 <= kl_closed_form mu v.
Proof.
  intros Hv. unfold kl_closed_form.
  pose proof (ln_le_minus_1 v Hv). pose proof (pow2_ge_0 mu). lra.
Qed.

Lemma entry_full (T L : nat) (v : R) (t j : nat) :
  (t < T)%nat -> (j < L)%nat -> entry (full [T; L] v) t j = v.
Proof.
  intros Ht Hj. unfold entry, at_, full. cbn [shape data tl].
  apply nth_repeat_lt. rewrite numel2. cbn [numel fold_right]. nia.
Qed.

Lemma kl_sum_prior (T L : nat) :
  big_sum T (fun t => big_sum L (fun j =>
    kl_closed_form (entry (zeros [T; L]) t j) (entry (ones [T; L]) t j))) = 0.
Proof.
  apply big_sum_zero. intros t Ht. apply big_sum_zero. intros j Hj.
  unfold zeros, ones. rewrite !entry_full by assumption.
  apply kl_closed_form_prior.
Qed.

Lemma kl_sum_nonneg (T L : nat) (zm zv : Tensor) :
  shape zv = [T; L] -> wf zv -> Forall (fun v => 0 < v) (data zv) ->
  0 <= big_sum T (fun t => big_sum L (fun j =>
         kl_closed_form (entry zm t j) (entry zv t j))).
Proof.
  intros Sv Wv Hpos.
  apply big_sum_nonneg. intros t Ht. apply big_sum_nonneg. intros j Hj.
  apply kl_closed_form_nonneg.
  now apply entry_pos with (T := T) (L := L).
Qed.

(** X6.  The divergence [compute_kl_div] returns is never negative. *)
Theorem compute_kl_div_nonneg (self : MLPEncoder) (T : nat) (zm zv : Tensor) :
  z_mean self = Some zm -> z_var self = Some zv ->
  shape zm = [T; latent_dim self] -> shape zv = [T; latent_dim self] ->
  wf zm -> wf zv ->
  (1 <= T)%nat -> Forall (fun v => 0 < v) (data zv) ->
  exists kl, compute_kl_div self = Ok (mkTensor [] [kl]) /\ 0 <= kl.
Proof.
  intros Hzm Hzv Sm Sv Wm Wv HT Hpos.
  eexists. split.
  - now apply (compute_kl_div_sum self T zm zv).
  - now apply kl_sum_nonneg.
Qed.

Lemma compute_kl_div_nonneg_witness :
  exists kl, compute_kl_div Example.encoder = Ok (mkTensor [] [kl]) /\ 0 <= kl.
Proof.
  apply (compute_kl_div_nonneg Example.encoder 1
           (mkTensor [1%nat; 1%nat] [0]) (mkTensor [1%nat; 1%nat] [1]));
    try reflexivity; try lia.
  repeat constructor. lra.
Defined.

(** X7.  Right after [clear_z] the posterior is the prior, and
    [compute_kl_div] returns zero. *)
Theorem compute_kl_div_after_clear_z (num_tasks : nat)
    (epsilon : nat -> nat -> R) (self : MLPEncoder) :
  (1 <= num_tasks)%nat ->
  compute_kl_div (snd (clear_z num_tasks epsilon self))
  = Ok (mkTensor [] [0]).
Proof.
  intros Hn.
  destruct (clear_z_state num_tasks epsilon self) as (Em & Ev & _ & EL).
  cbv zeta in Em, Ev, EL.
  rewrite (compute_kl_div_sum _ num_tasks
             (zeros [num_tasks; latent_dim self])
             (ones [num_tasks; latent_dim self]));
    rewrite ?EL; try reflexivity; auto.
  - do 3 f_equal. apply kl_sum_prior.
  - unfold wf. simpl. now rewrite repeat_length.
  - unfold wf. simpl. now rewrite repeat_length.
  - apply ones_positive.
Qed.

Lemma compute_kl_div_after_clear_z_witness :
  compute_kl_div (snd (clear_z 3 (fun _ _ => 1) Example.encoder))
  = Ok (mkTensor [] [0]).
Proof. apply compute_kl_div_after_clear_z. lia. Defined.

(** X8.  [MLPEncoder.__init__] always returns: the new encoder has a
    network of the requested input and output sizes whose layers fit
    together, and holds the prior of one task, a sample of it (the noise
    itself) and no context. *)
Theorem MLPEncoder_new_prior (i o L h : nat) (w0 b0 : nat -> nat -> R)
    (epsilon : nat -> nat -> R) :
  exists tz,
    MLPEncoder_new i o L h w0 b0 epsilon
    = (Ok tt,
       mkMLPEncoder (MLP_new i o h relu w0 b0) L
         (Some (zeros [1%nat; L])) (Some (ones [1%nat; L])) (Some tz) None) /\
    MLP_typed (MLP_new i o h relu w0 b0) /\
    input_dim (MLP_new i o h relu w0 b0) = i /\
    output_dim (MLP_new i o h relu w0 b0) = o /\
    length (fc_layers (MLP_new i o h relu w0 b0)) = 3%nat /\
    shape tz = [1%nat; L] /\ wf tz /\
    forall j, (j < L)%nat -> at_ tz j = epsilon 0%nat j.
Proof.
  unfold MLPEncoder_new.
  destruct (clear_z_run 1 epsilon
              (mkMLPEncoder (MLP_new i o h relu w0 b0) L None None None None)
              (le_n 1)) as (tz & E & St & Wt & Ht).
  cbn [mlp latent_dim] in E, St, Ht.
  exists tz. split; [exact E|]. split; [apply MLP_new_typed|].
  split; [reflexivity|]. split; [reflexivity|]. split; [reflexivity|].
  split; [exact St|]. split; [exact Wt|].
  intros j Hj. rewrite <- (Ht 0%nat j (le_n 1) Hj).
  unfold entry. rewrite St. reflexivity.
Qed.

End EncoderState.

(** ** [MLP] and [FlattenMLP]: which inputs are accepted, and how rows
    are treated *)

Section NetworkFacts.
Import Torch Spec Pearl.
Local Open Scope R_scope.

(** The tensor operations of the network raise shape errors only. *)
Lemma Linear_forward_exn (l : Linear) (x : Tensor) (e : exn) :
  Linear_forward l x = Raise e -> e = ShapeError.
Proof.
  unfold Linear_forward.
  destruct (shape (weight l)) as [|o [|i [|? ?]]]; try congruence;
    destruct (shape x); try congruence.
  destruct (_ && _); congruence.
Qed.

Lemma hidden_fold_exn (f : R -> R) (ls : list Linear) (acc : result Tensor)
    (e : exn) :
  (forall e', acc = Raise e' -> e' = ShapeError) ->
  fold_left
    (fun acc fc_layer =>
       x <- acc ;; y <- Linear_forward fc_layer x ;; Ok (tmap f y))
    ls acc = Raise e -> e = ShapeError.
Proof.
  revert acc. induction ls as [|l ls IH]; intros acc Hacc; cbn [fold_left].
  - apply Hacc.
  - apply IH. intros e' E. destruct acc as [x|e0]; cbn [bind] in E.
    + destruct (Linear_forward l x) as [y|e1] eqn:El; cbn [bind] in E;
        [discriminate|].
      injection E as <-. exact (Linear_forward_exn l x e1 El).
    + injection E as <-. now apply Hacc.
Qed.

Lemma MLP_forward_exn (m : MLP) (x : Tensor) (e : exn) :
  MLP_forward m x = Raise e -> e = ShapeError.
Proof.
  unfold MLP_forward. destruct (hidden m x) as [y|e0] eqn:Eh; cbn [bind].
  - apply Linear_forward_exn.
  - intros E. injection E as <-.
    apply (hidden_fold_exn (hidden_activation m) (fc_layers m) (Ok x) e0);
      [discriminate | exact Eh].
Qed.

Lemma cat_last_exn (ts : list Tensor) (e : exn) :
  cat_last ts = Raise e -> e = ShapeError.
Proof.
  unfold cat_last. destruct ts; [congruence|].
  destruct (forallb _ _); congruence.
Qed.

Lemma FlattenMLP_forward_exn (m : MLP) (xs : list Tensor) (e : exn) :
  FlattenMLP_forward m xs = Raise e -> e = ShapeError.
Proof.
  unfold FlattenMLP_forward. destruct (cat_last xs) as [x|e0] eqn:Ec; cbn [bind].
  - apply MLP_forward_exn.
  - intros E. injection E as <-. exact (cat_last_exn xs e0 Ec).
Qed.

(** A layer refuses an input whose last dimension is not its own. *)
Lemma Linear_forward_mismatch (i o : nat) (l : Linear) (x : Tensor) :
  shape (weight l) = [o; i] -> last (shape x) 0%nat <> i ->
  Linear_forward l x = Raise ShapeError.
Proof.
  intros Sw Hd. unfold Linear_forward. rewrite Sw.
  destruct (shape x) as [|a r] eqn:Sx; [reflexivity|].
  destruct (Nat.eqb_spec (last (a :: r) 0%nat) i) as [E|N]; [contradiction|].
  reflexivity.
Qed.

Lemma MLP_forward_mismatch (m : MLP) (x : Tensor) :
  MLP_typed m -> last (shape x) 0%nat <> input_dim m ->
  MLP_forward m x = Raise ShapeError.
Proof.
  intros (h & Hl & Ho) Hd. unfold MLP_forward, hidden.
  destruct (fc_layers m) as [|l ls]; cbn [fold_left layers_typed] in *.
  - rewrite bind_Ok. destruct Ho as (Sw & _).
    apply (Linear_forward_mismatch h (output_dim m)); [exact Sw | congruence].
  - destruct Hl as (h1 & (Sw & _) & _). rewrite bind_Ok.
    rewrite (Linear_forward_mismatch (input_dim m) h1 l x Sw Hd).
    cbn [bind]. now rewrite hidden_fold_Raise.
Qed.

Lemma MLP_forward_scalar (m : MLP) (x : Tensor) :
  shape x = [] -> MLP_forward m x = Raise ShapeError.
Proof.
  intros Sx. unfold MLP_forward, hidden.
  assert (El : forall l, Linear_forward l x = Raise ShapeError).
  { intros l. unfold Linear_forward. rewrite Sx.
    destruct (shape (weight l)) as [|o [|i [|? ?]]]; reflexivity. }
  destruct (fc_layers m) as [|l ls]; cbn [fold_left].
  - rewrite bind_Ok. apply El.
  - rewrite bind_Ok, El. cbn [bind]. now rewrite hidden_fold_Raise.
Qed.

(** X13.  A network whose layers fit together accepts exactly the tensors
    of at least one dimension whose last dimension is [input_dim]; the
    output keeps the leading dimensions and has [output_dim] as its last. *)
Theorem MLP_forward_accepts (m : MLP) (x : Tensor) :
  MLP_typed m -> wf x ->
  ((exists y, MLP_forward m x = Ok y) <->
   (shape x <> [] /\ last (shape x) 0%nat = input_dim m)) /\
  (forall e, MLP_forward m x = Raise e -> e = ShapeError) /\
  (forall y, MLP_forward m x = Ok y ->
     shape y = removelast (shape x) ++ [output_dim m] /\ wf y).
Proof.
  intros Ht Wx.
  assert (Hok : shape x <> [] -> last (shape x) 0%nat = input_dim m ->
                exists y, MLP_forward m x = Ok y /\
                  shape y = removelast (shape x) ++ [output_dim m] /\ wf y).
  { intros Hne Hl.
    apply (MLP_forward_Ok m (removelast (shape x)) x Ht); [|exact Wx].
    rewrite <- Hl. now apply app_removelast_last. }
  split; [split|split].
  - intros (y & E). split.
    + intros Sx. rewrite (MLP_forward_scalar m x Sx) in E. discriminate.
    + destruct (Nat.eq_dec (last (shape x) 0%nat) (input_dim m)) as [Eq|N];
        [exact Eq|].
      rewrite (MLP_forward_mismatch m x Ht N) in E. discriminate.
  - intros (Hne & Hl). destruct (Hok Hne Hl) as (y & E & _). eauto.
  - apply MLP_forward_exn.
  - intros y E.
    assert (Hne : shape x <> []).
    { intros Sx. rewrite (MLP_forward_scalar m x Sx) in E. discriminate. }
    assert (Hl : last (shape x) 0%nat = input_dim m).
    { destruct (Nat.eq_dec (last (shape x) 0%nat) (input_dim m)) as [Eq|N];
        [exact Eq|].
      rewrite (MLP_forward_mismatch m x Ht N) in E. discriminate. }
    destruct (Hok Hne Hl) as (y' & E' & Sy & Wy).
    rewrite E in E'. injection E' as <-. auto.
Qed.

Lemma MLP_forward_accepts_witness :
  (exists y, MLP_forward Example.net (mkTensor [2%nat; 1%nat] [0; 1]) = Ok y)
  /\ forall y, MLP_forward Example.net (mkTensor [2%nat; 1%nat] [0; 1]) = Ok y ->
       shape y = [2%nat; 2%nat].
Proof.
  destruct (MLP_forward_accepts Example.net (mkTensor [2%nat; 1%nat] [0; 1]))
    as (A & _ & B); [apply MLP_new_typed | reflexivity |].
  split.
  - apply A. split; [discriminate | reflexivity].
  - intros y E. apply (B y E).
Defined.

(** One layer, row by row. *)
Lemma Linear_forward_rows (i o : nat) (l : Linear) (s : list nat) (x : Tensor) :
  Linear_typed i o l -> shape x = s ++ [i] ->
  Linear_forward l x
  = Ok (mkTensor (s ++ [o])
          (concat (map (linear_row (chunks o i (data (weight l)))
                                   (data (bias l)))
                       (chunks (numel s) i (data x))))).
Proof.
  intros (Sw & Sb & Ww & Wb) Sx.
  unfold Linear_forward. rewrite Sw, Sx.
  destruct (shape_snoc_cases s i) as (a & r & E). rewrite E. rewrite <- E.
  rewrite removelast_last, last_last, Nat.eqb_refl, Sb, list_eqb_refl.
  reflexivity.
Qed.

Lemma linear_row_typed_length (i o : nat) (l : Linear) (r : list R) :
  Linear_typed i o l ->
  length (linear_row (chunks o i (data (weight l))) (data (bias l)) r) = o.
Proof.
  intros (Sw & Sb & Ww & Wb).
  rewrite linear_row_length, chunks_length.
  unfold wf in Wb. rewrite Wb, Sb. simpl. lia.
Qed.

Lemma hidden_rows (f : R -> R) (ls : list Linear) (h : nat) :
  forall i, layers_typed i ls h ->
  exists G : list R -> list R,
    (forall r, length r = i -> length (G r) = h) /\
    forall (s : list nat) (x : Tensor),
      shape x = s ++ [i] -> wf x ->
      fold_left
        (fun acc fc_layer =>
           x <- acc ;; y <- Linear_forward fc_layer x ;; Ok (tmap f y))
        ls (Ok x)
      = Ok (mkTensor (s ++ [h])
              (concat (map G (chunks (numel s) i (data x))))).
Proof.
  induction ls as [|l ls IH]; intros i Ht.
  - cbn [layers_typed] in Ht. subst h. exists (fun r => r).
    split; [auto|].
    intros s x Sx Wx. cbn [fold_left]. rewrite map_id, chunks_concat.
    + destruct x as [sx dx]. cbn [shape data] in *. now subst sx.
    + unfold wf in Wx. now rewrite Wx, Sx, numel_last.
  - destruct Ht as (k & Hl & Hls). destruct (IH k Hls) as (G & LG & HG).
    set (row := linear_row (chunks k i (data (weight l))) (data (bias l))).
    assert (Lrow : forall r, length (row r) = k)
      by (intros r; now apply (linear_row_typed_length i)).
    exists (fun r => G (map f (row r))). split.
    { intros r _. apply LG. now rewrite length_map. }
    intros s x Sx Wx. cbn [fold_left]. rewrite bind_Ok.
    rewrite (Linear_forward_rows i k l s x Hl Sx). rewrite bind_Ok.
    fold row.
    assert (Fr : Forall (fun c => length c = k)
                   (map row (chunks (numel s) i (data x)))).
    { apply Forall_forall. intros c Hc. apply in_map_iff in Hc.
      destruct Hc as (r & <- & _). apply Lrow. }
    rewrite (HG s).
    + unfold tmap. cbn [shape data]. rewrite chunks_map.
      assert (Ec : chunks (numel s) k
                     (concat (map row (chunks (numel s) i (data x))))
                   = map row (chunks (numel s) i (data x))).
      { rewrite <- (chunks_of_concat k (map row (chunks (numel s) i (data x))) Fr)
          at 2.
        now rewrite length_map, chunks_length. }
      rewrite Ec, !map_map. reflexivity.
    + reflexivity.
    + apply tmap_wf. unfold wf. cbn [shape data].
      rewrite (length_concat_uniform k _ Fr), length_map, chunks_length.
      now rewrite numel_last.
Qed.

Lemma MLP_forward_rows (m : MLP) :
  MLP_typed m ->
  exists F : list R -> list R,
    (forall r, length (F r) = output_dim m) /\
    forall (s : list nat) (x : Tensor),
      shape x = s ++ [input_dim m] -> wf x ->
      MLP_forward m x
      = Ok (mkTensor (s ++ [output_dim m])
              (concat (map F (chunks (numel s) (input_dim m) (data x))))).
Proof.
  intros (h & Hl & Ho).
  destruct (hidden_rows (hidden_activation m) (fc_layers m) h (input_dim m) Hl)
    as (G & LG & HG).
  set (row := linear_row (chunks (output_dim m) h
                            (data (weight (last_fc_layer m))))
                         (data (bias (last_fc_layer m)))).
  exists (fun r => row (G r)). split.
  - intros r. now apply (linear_row_typed_length h).
  - intros s x Sx Wx. unfold MLP_forward, hidden. rewrite (HG s x Sx Wx).
    rewrite bind_Ok.
    rewrite (Linear_forward_rows h (output_dim m) _ s _ Ho) by reflexivity.
    cbn [data]. fold row.
    assert (Lx : length (data x) = (numel s * input_dim m)%nat)
      by (unfold wf in Wx; now rewrite Wx, Sx, numel_last).
    assert (Fg : Forall (fun c => length c = h)
                   (map G (chunks (numel s) (input_dim m) (data x)))).
    { apply Forall_forall. intros c Hc. apply in_map_iff in Hc.
      destruct Hc as (r & <- & Hr). apply LG.
      pose proof (chunks_Forall_length (numel s) (input_dim m) (data x)
                    ltac:(lia)) as Fx.
      rewrite Forall_forall in Fx. now apply Fx. }
    assert (Ec : chunks (numel s) h
                   (concat (map G (chunks (numel s) (input_dim m) (data x))))
                 = map G (chunks (numel s) (input_dim m) (data x))).
    { rewrite <- (chunks_of_concat h _ Fg) at 2.
      now rewrite length_map, chunks_length. }
    rewrite Ec, map_map. reflexivity.
Qed.

(** X14.  The network treats the rows of a batch independently and alike:
    there is one function [F] of a row, the network applied to that row
    alone, such that for every batch each output row is [F] of the input
    row at the same position. *)
Theorem MLP_forward_rowwise (m : MLP) :
  MLP_typed m ->
  exists F : list R -> list R,
    (forall r, length r = input_dim m ->
       MLP_forward m (mkTensor [input_dim m] r)
       = Ok (mkTensor [output_dim m] (F r))) /\
    forall (s : list nat) (x : Tensor),
      shape x = s ++ [input_dim m] -> wf x ->
      MLP_forward m x
      = Ok (mkTensor (s ++ [output_dim m])
              (concat (map F (chunks (numel s) (input_dim m) (data x))))).
Proof.
  intros Ht. destruct (MLP_forward_rows m Ht) as (F & LF & HF).
  exists F. split; [|exact HF].
  intros r Lr.
  rewrite (HF [] (mkTensor [input_dim m] r)).
  - cbn [app numel fold_right chunks data map concat].
    rewrite app_nil_r, firstn_all2 by lia. reflexivity.
  - reflexivity.
  - unfold wf. cbn [shape data numel fold_right]. lia.
Qed.

Lemma MLP_forward_rowwise_witness :
  exists F : list R -> list R,
    MLP_forward Example.net (mkTensor [1%nat] [1]) = Ok (mkTensor [2%nat] (F [1]))
    /\ MLP_forward Example.net (mkTensor [2%nat; 1%nat] [0; 1])
       = Ok (mkTensor [2%nat; 2%nat] (F [0] ++ F [1] ++ [])).
Proof.
  destruct (MLP_forward_rowwise Example.net) as (F & H1 & H);
    [apply MLP_new_typed|].
  exists F. split.
  - apply (H1 [1]). reflexivity.
  - apply (H [2%nat] (mkTensor [2%nat; 1%nat] [0; 1])); reflexivity.
Defined.

Lemma list_eqb_snoc_nil (s : list nat) (d : nat) : list_eqb (s ++ [d]) [] = false.
Proof.
  unfold list_eqb. destruct (list_eq_dec Nat.eq_dec (s ++ [d]) []) as [E|N];
    [|reflexivity].
  destruct s; discriminate.
Qed.

(** X28.  With a single input, [FlattenMLP] is [MLP]: the concatenation
    of one tensor is that tensor, and a scalar is refused by both. *)
Theorem FlattenMLP_forward_single (m : MLP) (x : Tensor) :
  wf x -> FlattenMLP_forward m [x] = MLP_forward m x.
Proof.
  intros Wx. unfold FlattenMLP_forward.
  destruct (shape x) as [|d r] eqn:Sx.
  - rewrite (MLP_forward_scalar m x Sx). unfold cat_last.
    cbn [forallb]. rewrite Sx. reflexivity.
  - rewrite cat_last_single; [reflexivity | | exact Wx].
    rewrite Sx. discriminate.
Qed.

Lemma FlattenMLP_forward_single_witness :
  FlattenMLP_forward Example.net [mkTensor [2%nat; 1%nat] [0; 1]]
  = MLP_forward Example.net (mkTensor [2%nat; 1%nat] [0; 1]).
Proof. apply FlattenMLP_forward_single. reflexivity. Defined.

(** X29.  With two inputs that agree on their leading dimensions,
    [FlattenMLP] is [MLP] on the tensor whose rows are the rows of the
    first input followed by the rows of the second; when the two widths
    add up to [input_dim], the call returns a tensor with the same leading
    dimensions and [output_dim] as its last. *)
Theorem FlattenMLP_forward_pair (m : MLP) (s : list nat) (p q : nat)
    (a b : Tensor) :
  MLP_typed m ->
  shape a = s ++ [p] -> shape b = s ++ [q] -> wf a -> wf b ->
  (p + q)%nat = input_dim m ->
  exists x y,
    cat_last [a; b] = Ok x /\
    shape x = s ++ [(p + q)%nat] /\ wf x /\
    (forall i, (i < numel s)%nat ->
       nth i (chunks (numel s) (p + q) (data x)) []
       = nth i (chunks (numel s) p (data a)) []
         ++ nth i (chunks (numel s) q (data b)) []) /\
    FlattenMLP_forward m [a; b] = MLP_forward m x /\
    MLP_forward m x = Ok y /\
    shape y = s ++ [output_dim m] /\ wf y.
Proof.
  intros Ht Sa Sb Wa Wb Hpq.
  set (n := numel s).
  set (row := fun i : nat =>
                nth i (chunks n p (data a)) []
                ++ nth i (chunks n q (data b)) []).
  set (x := mkTensor (s ++ [(p + q)%nat]) (concat (map row (seq 0 n)))).
  assert (La : length (data a) = (n * p)%nat)
    by (unfold wf in Wa; now rewrite Wa, Sa, numel_last).
  assert (Lb : length (data b) = (n * q)%nat)
    by (unfold wf in Wb; now rewrite Wb, Sb, numel_last).
  assert (Fr : Forall (fun r => length r = (p + q)%nat) (map row (seq 0 n))).
  { apply Forall_forall. intros r Hr. apply in_map_iff in Hr.
    destruct Hr as (i & <- & Hi). apply in_seq in Hi. unfold row.
    rewrite length_app. f_equal.
    - apply Forall_nth; [|rewrite chunks_length; lia].
      apply chunks_Forall_length. lia.
    - apply Forall_nth; [|rewrite chunks_length; lia].
      apply chunks_Forall_length. lia. }
  assert (Ec : cat_last [a; b] = Ok x).
  { unfold cat_last. cbn [forallb map concat]. rewrite Sa, Sb.
    rewrite !removelast_last, !last_last, !list_eqb_snoc_nil, list_eqb_refl.
    cbn [negb andb]. unfold list_sum. cbn [fold_right]. fold n.
    unfold x, row. rewrite Nat.add_0_r. do 3 f_equal.
    apply map_ext. intros i. now rewrite app_nil_r. }
  assert (Wx : wf x).
  { unfold wf, x. cbn [shape data].
    rewrite (length_concat_uniform (p + q) _ Fr), length_map, length_seq.
    now rewrite numel_last. }
  assert (Sx : shape x = s ++ [input_dim m]) by (unfold x; now rewrite Hpq).
  destruct (MLP_forward_Ok m s x Ht Sx Wx) as (y & Ey & Sy & Wy).
  exists x, y. split; [exact Ec|]. split; [reflexivity|]. split; [exact Wx|].
  split.
  - intros i Hi. unfold x. cbn [data].
    replace n with (length (map row (seq 0 n))) at 1
      by (now rewrite length_map, length_seq).
    rewrite (chunks_of_concat (p + q) _ Fr).
    rewrite (nth_indep _ [] (row 0%nat)) by (rewrite length_map, length_seq; exact Hi).
    rewrite map_nth, seq_nth by exact Hi. reflexivity.
  - split; [|auto]. unfold FlattenMLP_forward. now rewrite Ec, bind_Ok.
Qed.

Lemma FlattenMLP_forward_pair_witness :
  exists x y,
    cat_last [mkTensor [2%nat; 1%nat] [1; 2]; mkTensor [2%nat; 1%nat] [3; 4]]
    = Ok x /\
    shape x = [2%nat; 2%nat] /\
    nth 1 (chunks 2 2 (data x)) [] = [2] ++ [4] /\
    FlattenMLP_forward Example.critic
      [mkTensor [2%nat; 1%nat] [1; 2]; mkTensor [2%nat; 1%nat] [3; 4]]
    = Ok y /\
    shape y = [2%nat; 1%nat].
Proof.
  destruct (FlattenMLP_forward_pair Example.critic [2%nat] 1 1
              (mkTensor [2%nat; 1%nat] [1; 2]) (mkTensor [2%nat; 1%nat] [3; 4]))
    as (x & y & Ec & Sx & _ & Hrow & Ef & Ey & Sy & _);
    try reflexivity; [apply MLP_new_typed|].
  exists x, y. split; [exact Ec|]. split; [exact Sx|].
  split; [apply (Hrow 1%nat); simpl; lia|].
  split; [now rewrite Ef | exact Sy].
Defined.

End NetworkFacts.

(** ** [infer_posterior]: what it writes, what it rejects *)

Section PosteriorFacts.
Import Torch Spec Pearl.
Local Open Scope R_scope.

(** X9.  Whatever its outcome, [infer_posterior] writes [z_mean], [z_var]
    and [task_z] only: the network, [latent_dim] and the stored [context]
    are the ones before the call. *)
Theorem infer_posterior_frame (ctx : Tensor) (epsilon : nat -> nat -> R)
    (self : MLPEncoder) :
  mlp (snd (infer_posterior ctx epsilon self)) = mlp self /\
  latent_dim (snd (infer_posterior ctx epsilon self)) = latent_dim self /\
  context (snd (infer_posterior ctx epsilon self)) = context self.
Proof.
  rewrite infer_posterior_gaussians. unfold mbind, lift, assign.
  destruct (gs <- gaussians self ctx ;; mapM _ gs) as [zp|e];
    [|cbn [snd]; auto].
  destruct (stack (map fst zp)) as [zm|e]; [|cbn [snd]; auto].
  destruct (stack (map snd zp)) as [zv|e]; [|cbn [snd]; auto].
  destruct (sample_z_frame epsilon
              (set_z_var (Some zv) (set_z_mean (Some zm) self)))
    as (E1 & E2 & _ & _ & E3).
  cbv zeta in E1, E2, E3. rewrite E1, E2, E3. auto.
Qed.

(** X10.  A context without tasks, or one whose last dimension is not the
    encoder's input size, is rejected with a shape error before anything is
    written: the encoder is left exactly as it was. *)
Theorem infer_posterior_rejects (ctx : Tensor) (epsilon : nat -> nat -> R)
    (self : MLPEncoder) :
  (exists s, shape ctx = 0%nat :: s) \/
  (MLP_typed (mlp self) /\ last (shape ctx) 0%nat <> input_dim (mlp self)) ->
  infer_posterior ctx epsilon self = (Raise ShapeError, self).
Proof.
  intros H. unfold infer_posterior, mbind, lift, self_.
  destruct (FlattenMLP_forward (mlp self) [ctx]) as [out|e] eqn:Ef.
  - destruct H as [(s & Sc) | (Ht & Hd)].
    + unfold size0. rewrite Sc. unfold view3. cbn [Nat.mul Nat.ltb Nat.leb andb].
      reflexivity.
    + exfalso. unfold FlattenMLP_forward in Ef.
      destruct (cat_last [ctx]) as [x|e] eqn:Ec; [|discriminate].
      rewrite bind_Ok in Ef.
      destruct (cat_last_single_shape ctx x Ec) as [Sx _].
      rewrite (MLP_forward_mismatch (mlp self) x Ht) in Ef;
        [discriminate | now rewrite Sx].
  - now rewrite (FlattenMLP_forward_exn (mlp self) [ctx] e Ef).
Qed.

Lemma infer_posterior_rejects_witness :
  infer_posterior (mkTensor [0%nat; 1%nat; 1%nat] []) (fun _ _ => 1)
                  Example.encoder
  = (Raise ShapeError, Example.encoder) /\
  infer_posterior (mkTensor [1%nat; 1%nat; 2%nat] [0; 0]) (fun _ _ => 1)
                  Example.encoder
  = (Raise ShapeError, Example.encoder).
Proof.
  split; apply infer_posterior_rejects.
  - left. exists [1%nat; 1%nat]. reflexivity.
  - right. split; [apply MLP_new_typed | simpl; lia].
Defined.

(** X11.  The posterior [infer_posterior] stores is a function of the
    network, [latent_dim] and the context alone: two returning calls on the
    same context agree on [z_mean] and [z_var], whatever the noise and
    whatever posterior, sample or context either encoder held before. *)
Theorem infer_posterior_overrides (ctx : Tensor)
    (epsilon1 epsilon2 : nat -> nat -> R) (self1 self2 : MLPEncoder) :
  mlp self1 = mlp self2 -> latent_dim self1 = latent_dim self2 ->
  fst (infer_posterior ctx epsilon1 self1) = Ok tt ->
  fst (infer_posterior ctx epsilon2 self2) = Ok tt ->
  z_mean (snd (infer_posterior ctx epsilon1 self1))
  = z_mean (snd (infer_posterior ctx epsilon2 self2)) /\
  z_var (snd (infer_posterior ctx epsilon1 self1))
  = z_var (snd (infer_posterior ctx epsilon2 self2)).
Proof.
  intros Em EL. rewrite !infer_posterior_gaussians.
  assert (Eg : gaussians self1 ctx = gaussians self2 ctx)
    by (unfold gaussians; now rewrite Em, EL).
  unfold mbind, lift, assign. rewrite Eg.
  destruct (gs <- gaussians self2 ctx ;; mapM _ gs) as [zp|e];
    [|cbn [fst]; discriminate].
  destruct (stack (map fst zp)) as [zm|e]; [|cbn [fst]; discriminate].
  destruct (stack (map snd zp)) as [zv|e]; [|cbn [fst]; discriminate].
  intros _ _.
  destruct (sample_z_frame epsilon1
              (set_z_var (Some zv) (set_z_mean (Some zm) self1)))
    as (_ & _ & A1 & A2 & _).
  destruct (sample_z_frame epsilon2
              (set_z_var (Some zv) (set_z_mean (Some zm) self2)))
    as (_ & _ & B1 & B2 & _).
  cbv zeta in A1, A2, B1, B2. rewrite A1, A2, B1, B2. split; reflexivity.
Qed.

Lemma infer_posterior_overrides_witness :
  z_mean (snd (infer_posterior (mkTensor [1%nat; 1%nat; 1%nat] [0])
                 (fun _ _ => 1) Example.encoder))
  = z_mean (snd (infer_posterior (mkTensor [1%nat; 1%nat; 1%nat] [0])
                   (fun _ _ => 2)
                   (set_context (Some (mkTensor [1%nat] [5])) Example.encoder))).
Proof.
  assert (R : forall eps self,
            mlp self = Example.net -> latent_dim self = 1%nat ->
            fst (infer_posterior (mkTensor [1%nat; 1%nat; 1%nat] [0]) eps self)
            = Ok tt).
  { intros eps self Hm HL.
    destruct (infer_posterior_typed self (mkTensor [1%nat; 1%nat; 1%nat] [0])
                eps 1 [1%nat])
      as (out & zm & zv & tz & _ & _ & E & _);
      rewrite ?Hm, ?HL; try reflexivity; try (simpl; lia);
      [apply MLP_new_typed | now rewrite E]. }
  apply (infer_posterior_overrides (mkTensor [1%nat; 1%nat; 1%nat] [0])
           (fun _ _ => 1) (fun _ _ => 2) Example.encoder
           (set_context (Some (mkTensor [1%nat] [5])) Example.encoder));
    try reflexivity; apply R; reflexivity.
Defined.

(** X12.  After [infer_posterior] has run on a context with at least one
    task and one transition per task, [compute_kl_div] returns, and the
    divergence is not negative. *)
Theorem compute_kl_div_after_infer_posterior (self : MLPEncoder)
    (ctx : Tensor) (epsilon : nat -> nat -> R) (T : nat) (mid : list nat) :
  MLP_typed (mlp self) ->
  output_dim (mlp self) = (2 * latent_dim self)%nat ->
  (1 <= latent_dim self)%nat ->
  shape ctx = T :: mid ++ [input_dim (mlp self)] -> wf ctx ->
  (1 <= T)%nat -> (1 <= numel mid)%nat ->
  exists kl,
    compute_kl_div (snd (infer_posterior ctx epsilon self))
    = Ok (mkTensor [] [kl]) /\ 0 <= kl.
Proof.
  intros Ht Ho HL Sc Wc HT HB.
  destruct (infer_posterior_typed self ctx epsilon T mid Ht Ho HL Sc Wc HT HB)
    as (out & zm & zv & tz & _ & _ & E & Sm & Sv & _ & Wm & Wv & _ & Hpos & _).
  rewrite E. cbn [snd]. eexists. split.
  - apply (compute_kl_div_sum _ T zm zv); auto.
  - now apply kl_sum_nonneg.
Qed.

Lemma compute_kl_div_after_infer_posterior_witness :
  exists kl,
    compute_kl_div
      (snd (infer_posterior (mkTensor [1%nat; 1%nat; 1%nat] [0])
              (fun _ _ => 1) Example.encoder))
    = Ok (mkTensor [] [kl]) /\ 0 <= kl.
Proof.
  apply (compute_kl_div_after_infer_posterior Example.encoder
           (mkTensor [1%nat; 1%nat; 1%nat] [0]) (fun _ _ => 1) 1 [1%nat]);
    try reflexivity; try (simpl; lia).
  apply MLP_new_typed.
Defined.

End PosteriorFacts.

(** * Further properties of the policies

    ** [TanhGaussianPolicy] *)

Section PolicyFacts.
Import Torch Spec Pearl.
Local Open Scope R_scope.

Lemma exp_le (x y : R) : x <= y -> exp x <= exp y.
Proof.
  intros [H| ->]; [left; now apply exp_increasing | right; reflexivity].
Qed.

Lemma clamp_bounds (lo hi x : R) : lo <= hi -> lo <= clamp lo hi x <= hi.
Proof.
  intros H. unfold clamp. split.
  - apply Rmin_glb; [apply Rmax_r | exact H].
  - apply Rmin_r.
Qed.

(** X16.  Whatever the network predicts, the standard deviation the policy
    samples with lies between [exp LOG_SIG_MIN] and [exp LOG_SIG_MAX]; in
    particular it is strictly positive. *)
Theorem mean_std_bounds (self : TanhGaussianPolicy) (x mean std : Tensor) :
  mean_std self x = Ok (mean, std) ->
  Forall (fun s => 0 < s /\ exp LOG_SIG_MIN <= s <= exp LOG_SIG_MAX)
         (data std).
Proof.
  unfold mean_std.
  destruct (hidden (base self) x) as [y|e]; [|discriminate]. rewrite bind_Ok.
  destruct (Linear_forward (last_fc_layer (base self)) y) as [m|e];
    [|discriminate]. rewrite bind_Ok.
  destruct (Linear_forward (last_fc_log_std self) y) as [ls|e];
    [|discriminate]. rewrite bind_Ok.
  intros E. injection E as _ <-. unfold tmap. cbn [data].
  apply Forall_forall. intros s Hs.
  apply in_map_iff in Hs. destruct Hs as (c & <- & Hc).
  apply in_map_iff in Hc. destruct Hc as (l & <- & _).
  assert (Hb : LOG_SIG_MIN <= clamp LOG_SIG_MIN LOG_SIG_MAX l <= LOG_SIG_MAX)
    by (apply clamp_bounds; unfold LOG_SIG_MIN, LOG_SIG_MAX; lra).
  split; [apply exp_pos|]. split; apply exp_le; apply Hb.
Qed.

Lemma mean_std_bounds_witness :
  exists mean std,
    mean_std Example.stochastic_policy Example.observation = Ok (mean, std) /\
    Forall (fun s => 0 < s /\ exp LOG_SIG_MIN <= s <= exp LOG_SIG_MAX)
           (data std).
Proof.
  destruct (mean_std_Ok Example.stochastic_policy [] Example.observation)
    as (mean & ls & E & _);
    [apply TanhGaussianPolicy_new_typed | reflexivity | reflexivity |].
  eexists. eexists. split; [exact E|].
  exact (mean_std_bounds Example.stochastic_policy Example.observation _ _ E).
Defined.




Lemma policy_base_typed (self : TanhGaussianPolicy) :
  TanhGaussianPolicy_typed self -> MLP_typed (base self).
Proof. intros (h & Hl & Hm & _). exists h. auto. Qed.

(** X18.  With all noise zero the stochastic policy returns [tanh] of the
    network's mean, applied once. *)
Theorem forward_zero_noise (self : TanhGaussianPolicy) (s : list nat)
    (x : Tensor) :
  TanhGaussianPolicy_typed self -> is_deterministic self = false ->
  shape x = s ++ [input_dim (base self)] -> wf x ->
  exists mean log_prob,
    MLP_forward (base self) x = Ok mean /\
    forward self x (fun _ => 0) = Ok (tmap tanh mean, Some log_prob).
Proof.
  intros Ht Hd Sx Wx.
  destruct (forward_stochastic self s x (fun _ => 0) Ht Hd Sx Wx)
    as (mean & std & u & lp & Ems & Su & Wu & Hu & Ef & _).
  pose proof (mean_std_mean self x mean std Ems) as Em.
  destruct (MLP_forward_Ok (base self) s x (policy_base_typed self Ht) Sx Wx)
    as (mean' & Em' & Sm & Wm).
  rewrite Em in Em'. injection Em' as <-.
  exists mean, lp. split; [exact Em|].
  assert (Eu : u = mean).
  { apply (tensor_ext u mean _ Su Sm Wu Wm). intros k Hk.
    destruct (Hu k Hk) as [-> _]. ring. }
  now rewrite <- Eu.
Qed.

Lemma forward_zero_noise_witness :
  exists mean log_prob,
    MLP_forward (base Example.stochastic_policy) Example.observation = Ok mean /\
    forward Example.stochastic_policy Example.observation (fun _ => 0)
    = Ok (tmap tanh mean, Some log_prob).
Proof.
  apply (forward_zero_noise Example.stochastic_policy [] Example.observation);
    try reflexivity.
  apply TanhGaussianPolicy_new_typed.
Defined.

(** X19.  An observation that is a scalar, or whose last dimension is not
    the policy's input size, is refused with a shape error, in either
    mode. *)
Theorem forward_rejects (self : TanhGaussianPolicy) (x : Tensor)
    (noise : nat -> R) :
  TanhGaussianPolicy_typed self ->
  shape x = [] \/ last (shape x) 0%nat <> input_dim (base self) ->
  forward self x noise = Raise ShapeError.
Proof.
  intros Ht Hx. pose proof (policy_base_typed self Ht) as Hb.
  assert (Em : MLP_forward (base self) x = Raise ShapeError).
  { destruct Hx as [Sx|Hd];
      [now apply MLP_forward_scalar | now apply MLP_forward_mismatch]. }
  unfold forward, mean_std. unfold MLP_forward in Em.
  destruct (hidden (base self) x) as [y|e]; cbn [bind] in *.
  - rewrite Em. reflexivity.
  - injection Em as ->. reflexivity.
Qed.

Lemma forward_rejects_witness :
  forward Example.stochastic_policy (mkTensor [3%nat] [0; 0; 0]) (fun _ => 1)
  = Raise ShapeError.
Proof.
  apply forward_rejects; [apply TanhGaussianPolicy_new_typed|].
  right. simpl. lia.
Defined.

End PolicyFacts.

(** ** [GaussianPolicy] of MAML *)

Section MamlFacts.
Import Torch Spec.
Local Open Scope R_scope.

(** Broadcasting a one-entry tensor against a tensor of any shape. *)
Lemma numel_repeat_1 (n : nat) : numel (repeat 1%nat n) = 1%nat.
Proof. induction n as [|n IH]; simpl; [reflexivity|]. fold (numel (repeat 1%nat n)). lia. Qed.

Lemma broadcast_shape_ones (s : list nat) :
  broadcast_shape s (repeat 1%nat (length s)) = Some s.
Proof.
  induction s as [|d s IH]; [reflexivity|].
  cbn [length repeat broadcast_shape]. rewrite IH.
  destruct (Nat.eqb_spec d 1) as [->|N]; reflexivity.
Qed.

Lemma pad_shape_one (n : nat) :
  (1 <= n)%nat -> pad_shape n [1%nat] = repeat 1%nat n.
Proof.
  intros Hn. unfold pad_shape. cbn [length].
  replace n with (S (n - 1)) at 2 by lia.
  cbn [repeat]. now rewrite repeat_cons.
Qed.

Lemma bzip_ones (f : R -> R -> R) (y : R) (s : list nat) :
  forall a, length a = numel s ->
  bzip f s (repeat 1%nat (length s)) a [y] = map (fun x => f x y) a.
Proof.
  induction s as [|d s IH]; intros a La.
  - destruct a as [|x [|? ?]]; try discriminate. reflexivity.
  - cbn [length repeat bzip]. rewrite numel_repeat_1.
    change (numel (d :: s)) with (d * numel s)%nat in La.
    destruct (Nat.eqb_spec d 1) as [->|N].
    + cbn [chunks firstn combine map concat fst snd].
      rewrite app_nil_r, firstn_all2 by lia. apply IH. lia.
    + rewrite <- (chunks_concat d (numel s) a La) at 2.
      rewrite concat_map. f_equal. apply map_ext_in. intros c Hc.
      apply IH.
      pose proof (chunks_Forall_length d (numel s) a ltac:(lia)) as Fc.
      rewrite Forall_forall in Fc. now apply Fc.
Qed.

Lemma tzip_one (f : R -> R -> R) (a : Tensor) (y : R) :
  shape a <> [] -> wf a ->
  tzip f a (mkTensor [1%nat] [y])
  = Ok (mkTensor (shape a) (map (fun x => f x y) (data a))).
Proof.
  intros Hne Wa. unfold tzip. cbn [shape data length].
  assert (Hl : (1 <= length (shape a))%nat)
    by (destruct (shape a); [contradiction | simpl; lia]).
  rewrite Nat.max_l by exact Hl.
  rewrite pad_shape_same, (pad_shape_one _ Hl), broadcast_shape_ones.
  now rewrite bzip_ones.
Qed.

(** A distribution whose scale is a single number. *)
Lemma Normal_new_one (mean : Tensor) (sigma : R) :
  shape mean <> [] -> wf mean -> 0 < sigma ->
  Normal.new mean (mkTensor [1%nat] [sigma])
  = Ok (Normal.mk mean (full (shape mean) sigma)).
Proof.
  intros Hne Wm Hs. unfold Normal.new, Normal.broadcast_all.
  rewrite !tzip_one by assumption. rewrite !bind_Ok. cbv beta iota.
  cbn [data]. rewrite map_id, map_const.
  replace (forallb Normal.positive (repeat sigma (length (data mean))))
    with true.
  - unfold full. unfold wf in Wm. rewrite Wm. now destruct mean.
  - symmetry. apply forallb_forall. intros x Hx.
    apply repeat_spec in Hx. subst x. now apply positive_true.
Qed.

Lemma exp_Rmax_ln (a b : R) :
  0 < a -> 0 < b -> exp (Rmax (ln a) (ln b)) = Rmax a b.
Proof.
  intros Ha Hb. unfold Rmax.
  destruct (Rle_dec (ln a) (ln b)) as [H|H], (Rle_dec a b) as [H'|H'];
    try (now apply exp_ln).
  - exfalso. apply H'. destruct H as [H|H].
    + left. now apply ln_lt_inv.
    + right. now apply ln_inv.
  - exfalso. apply H. destruct H' as [H'|H'].
    + left. now apply ln_increasing.
    + right. now rewrite H'.
Qed.

Lemma exp_Rmin_ln (a b : R) :
  0 < a -> 0 < b -> exp (Rmin (ln a) (ln b)) = Rmin a b.
Proof.
  intros Ha Hb. unfold Rmin.
  destruct (Rle_dec (ln a) (ln b)) as [H|H], (Rle_dec a b) as [H'|H'];
    try (now apply exp_ln).
  - exfalso. apply H'. destruct H as [H|H].
    + left. now apply ln_lt_inv.
    + right. now apply ln_inv.
  - exfalso. apply H. destruct H' as [H'|H'].
    + left. now apply ln_increasing.
    + right. now rewrite H'.
Qed.

Lemma Rmax_pos (a b : R) : 0 < a -> 0 < Rmax a b.
Proof. intros H. apply Rlt_le_trans with (r2 := a); [exact H | apply Rmax_l]. Qed.

Lemma maml_MLP_new_typed (i o h : nat) (f : R -> R) (w0 b0 : nat -> nat -> R) :
  Pearl.MLP_typed (Maml.MLP_new i o h f w0 b0).
Proof.
  exists h. simpl. split; [|apply Linear_new_typed].
  exists h. split; [apply Linear_new_typed|].
  exists h. split; [apply Linear_new_typed|]. reflexivity.
Qed.

Lemma one_entry_wf (y : R) : wf (mkTensor [1%nat] [y]).
Proof. reflexivity. Qed.

(** The clamp of [log_std] in [get_normal_dist], for the tensors the
    constructor stores. *)
Lemma clamp_tensor_new (init : R) (lo hi : option R) :
  0 < init ->
  (forall l, lo = Some l -> 0 < l) -> (forall h, hi = Some h -> 0 < h) ->
  lo <> None \/ hi <> None ->
  exists c,
    Maml.clamp_tensor (mkTensor [1%nat] [ln init])
      (option_map (fun s => mkTensor [1%nat] [ln s]) lo)
      (option_map (fun s => mkTensor [1%nat] [ln s]) hi)
    = Ok (mkTensor [1%nat] [c]) /\
    exp c = clamp_opt lo hi init.
Proof.
  intros Hi Hlo Hhi Hb. unfold Maml.clamp_tensor, clamp_opt.
  destruct lo as [l|], hi as [h|]; cbn [option_map].
  - specialize (Hlo l eq_refl). specialize (Hhi h eq_refl).
    rewrite tzip_same by reflexivity. rewrite bind_Ok.
    rewrite tzip_same by reflexivity. cbn [shape data zipWith].
    eexists. split; [reflexivity|].
    rewrite <- (ln_exp (Rmax (ln init) (ln l))).
    rewrite (exp_Rmax_ln init l Hi Hlo).
    apply exp_Rmin_ln; [now apply Rmax_pos | exact Hhi].
  - specialize (Hlo l eq_refl).
    rewrite tzip_same by reflexivity. cbn [shape data zipWith].
    eexists. split; [reflexivity|]. now apply exp_Rmax_ln.
  - specialize (Hhi h eq_refl).
    rewrite tzip_same by reflexivity. cbn [shape data zipWith].
    eexists. split; [reflexivity|]. now apply exp_Rmin_ln.
  - destruct Hb as [Hb|Hb]; contradiction.
Qed.

Lemma get_normal_dist_new (i o h : nat) (d : bool) (init : R)
    (lo hi : option R) (w0 : nat -> nat -> R) (s : list nat) (x : Tensor) :
  0 < init ->
  (forall l, lo = Some l -> 0 < l) -> (forall h', hi = Some h' -> 0 < h') ->
  lo <> None \/ hi <> None ->
  shape x = s ++ [i] -> wf x ->
  exists mean,
    Pearl.MLP_forward (Maml.base (Maml.GaussianPolicy_new i o h d init lo hi w0)) x
    = Ok mean /\
    shape mean = s ++ [o] /\ wf mean /\ 0 < clamp_opt lo hi init /\
    Maml.get_normal_dist (Maml.GaussianPolicy_new i o h d init lo hi w0) x
    = Ok (Normal.mk mean (full (s ++ [o]) (clamp_opt lo hi init)), mean).
Proof.
  intros Hi Hlo Hhi Hb Sx Wx.
  destruct (MLP_forward_Ok (Maml.MLP_new i o h tanh w0 (fun _ _ => 0)) s x
              (maml_MLP_new_typed i o h tanh w0 (fun _ _ => 0)) Sx Wx)
    as (mean & Em & Sm & Wm).
  cbn [Pearl.output_dim Maml.MLP_new] in Sm.
  destruct (clamp_tensor_new init lo hi Hi Hlo Hhi Hb) as (c & Ec & Eexp).
  assert (Hpos : 0 < clamp_opt lo hi init) by (rewrite <- Eexp; apply exp_pos).
  exists mean. unfold Maml.get_normal_dist, Maml.GaussianPolicy_new.
  cbn [Maml.base Maml.log_std Maml.min_log_std Maml.max_log_std].
  split; [exact Em|]. split; [exact Sm|]. split; [exact Wm|].
  split; [exact Hpos|].
  rewrite Em, bind_Ok, Ec, bind_Ok. unfold tmap. cbn [shape data map].
  rewrite Eexp, Normal_new_one; [| | exact Wm | exact Hpos].
  - rewrite bind_Ok, Sm. reflexivity.
  - rewrite Sm. destruct s; discriminate.
Qed.



(** X21.  A policy built without either bound cannot be evaluated: the
    clamp of [log_std] has nothing to clamp to, so [forward] and
    [get_log_prob] raise on every input. *)
Theorem unbounded_std_rejected (i o h : nat) (d : bool) (init : R)
    (w0 : nat -> nat -> R) (x action : Tensor) (noise : nat -> R) :
  Maml.forward (Maml.GaussianPolicy_new i o h d init None None w0) x noise
  = Raise ShapeError /\
  Maml.get_log_prob (Maml.GaussianPolicy_new i o h d init None None w0) x action
  = Raise ShapeError.
Proof.
  assert (E : Maml.get_normal_dist
                (Maml.GaussianPolicy_new i o h d init None None w0) x
              = Raise ShapeError).
  { unfold Maml.get_normal_dist, Maml.GaussianPolicy_new.
    cbn [Maml.base Maml.log_std Maml.min_log_std Maml.max_log_std option_map].
    destruct (Pearl.MLP_forward _ x) as [mean|e] eqn:Em.
    - reflexivity.
    - now rewrite (MLP_forward_exn _ x e Em). }
  unfold Maml.forward, Maml.get_log_prob. now rewrite E.
Qed.

Lemma maml_forward_sample (i o h : nat) (init : R) (lo hi : option R)
    (w0 : nat -> nat -> R) (s : list nat) (x : Tensor) (noise : nat -> R) :
  0 < init ->
  (forall l, lo = Some l -> 0 < l) -> (forall h', hi = Some h' -> 0 < h') ->
  lo <> None \/ hi <> None ->
  shape x = s ++ [i] -> wf x ->
  let self := Maml.GaussianPolicy_new i o h false init lo hi w0 in
  let sigma := clamp_opt lo hi init in
  exists mean u log_prob,
    Pearl.MLP_forward (Maml.base self) x = Ok mean /\
    shape u = s ++ [o] /\ wf u /\
    (forall k, (k < numel (s ++ [o]))%nat ->
       at_ u k = at_ mean k + noise k * sigma) /\
    Maml.forward self x noise = Ok (view_flat u, log_prob) /\
    shape log_prob = s /\ wf log_prob /\
    forall b, (b < numel s)%nat ->
      at_ log_prob b
      = big_sum o (fun j =>
          gaussian_log_density (at_ mean (b * o + j)) sigma (at_ u (b * o + j))).
Proof.
  intros Hi Hlo Hhi Hb Sx Wx self sigma.
  destruct (get_normal_dist_new i o h false init lo hi w0 s x Hi Hlo Hhi Hb Sx Wx)
    as (mean & Em & Sm & Wm & Hpos & En).
  fold self in Em, En. fold sigma in Hpos, En.
  set (std := full (s ++ [o]) sigma) in *.
  assert (Ss : shape std = s ++ [o]) by reflexivity.
  assert (Ws : wf std) by (unfold wf, std, full; cbn [shape data]; len).
  assert (Lmean : length (data mean) = numel (s ++ [o]))
    by (unfold wf in Wm; now rewrite Wm, Sm).
  assert (Lstd : length (data std) = numel (s ++ [o]))
    by (unfold wf in Ws; now rewrite Ws, Ss).
  assert (Hstd : forall k, (k < numel (s ++ [o]))%nat -> nth k (data std) 0 = sigma)
    by (intros k Hk; unfold std, full; cbn [data]; now apply nth_repeat_lt).
  set (u := mkTensor (shape mean)
              (zipWith Rplus (data mean)
                 (zipWith Rmult (map noise (seq 0 (numel (shape mean)))) (data std)))).
  assert (Su : shape u = s ++ [o]) by exact Sm.
  assert (Lu : length (data u) = numel (s ++ [o]))
    by (subst u; cbn [data]; rewrite Sm; len).
  assert (Wu : wf u) by (unfold wf; now rewrite Lu, Su).
  unfold Maml.forward. rewrite En, bind_Ok. cbv beta iota.
  cbn [Maml.is_deterministic self Maml.GaussianPolicy_new].
  rewrite Normal_rsample_Ok by (auto; congruence). fold u.
  rewrite bind_Ok. cbv beta.
  rewrite Normal_log_prob_Ok by (auto; congruence).
  rewrite bind_Ok. cbv beta. rewrite bind_Ok. cbv beta iota.
  set (lp := mkTensor _ (map _ (zipWith Rminus _ _))).
  assert (Slp : shape lp = s ++ [o]) by (subst lp; cbn [shape]; exact Sm).
  assert (Llp : length (data lp) = numel (s ++ [o]))
    by (subst lp; cbn [data]; len).
  exists mean, u, (Maml.sum_last lp).
  split; [exact Em|]. split; [exact Su|]. split; [exact Wu|]. split.
  { intros k Hk. unfold at_. subst u. cbn [data]. rewrite Sm. push_nth.
    rewrite (nth_indep (map noise (seq 0 (numel (s ++ [o])))) 0 (noise 0%nat))
      by len.
    rewrite map_nth, seq_nth by lia. simpl Nat.add. now rewrite Hstd. }
  split; [reflexivity|].
  unfold Maml.sum_last. rewrite Slp.
  destruct (shape_snoc_cases s o) as (a & r & Ea). rewrite Ea, <- Ea.
  rewrite removelast_last, last_last.
  split; [reflexivity|]. split.
  { unfold wf. cbn [shape data]. now rewrite length_map, chunks_length. }
  intros b Hbb. unfold at_ at 1. cbn [data].
  rewrite (nth_indep _ 0 (sum_list [])) by (rewrite length_map, chunks_length; lia).
  rewrite map_nth.
  rewrite numel_last in *.
  assert (Lrow : length (nth b (chunks (numel s) o (data lp)) []) = o).
  { apply Forall_nth; [| rewrite chunks_length; lia].
    apply chunks_Forall_length. lia. }
  rewrite sum_list_big_sum, Lrow.
  apply big_sum_ext. intros j Hj.
  rewrite nth_nth_chunks by lia.
  assert (Hk : (b * o + j < numel s * o)%nat) by nia.
  subst lp. cbn [data].
  push_nth.
  fold (at_ u (b * o + j)). fold (at_ mean (b * o + j)).
  rewrite Hstd by exact Hk.
  now apply log_prob_entry.
Qed.

(** X22.  In stochastic mode, for a policy as built by the constructor,
    [forward] returns the flattened sample [mean + noise * std] and, for
    each observation of the batch, the Gaussian log-density of its sample
    summed over the action dimensions. *)
Theorem maml_forward_stochastic (i o h : nat) (init : R) (lo hi : option R)
    (w0 : nat -> nat -> R) (s : list nat) (x : Tensor) (noise : nat -> R) :
  0 < init ->
  (forall l, lo = Some l -> 0 < l) -> (forall h', hi = Some h' -> 0 < h') ->
  lo <> None \/ hi <> None ->
  shape x = s ++ [i] -> wf x ->
  let self := Maml.GaussianPolicy_new i o h false init lo hi w0 in
  let sigma := clamp_opt lo hi init in
  exists mean u log_prob,
    Pearl.MLP_forward (Maml.base self) x = Ok mean /\
    shape u = s ++ [o] /\ wf u /\
    (forall k, (k < numel (s ++ [o]))%nat ->
       at_ u k = at_ mean k + noise k * sigma) /\
    Maml.forward self x noise = Ok (view_flat u, log_prob) /\
    shape log_prob = s /\ wf log_prob /\
    forall b, (b < numel s)%nat ->
      at_ log_prob b
      = big_sum o (fun j =>
          gaussian_log_density (at_ mean (b * o + j)) sigma (at_ u (b * o + j))).
Proof. exact (maml_forward_sample i o h init lo hi w0 s x noise). Qed.

Lemma maml_forward_stochastic_witness :
  exists mean u log_prob,
    Pearl.MLP_forward (Maml.base Example.maml_policy) Example.observation
    = Ok mean /\
    at_ u 1 = at_ mean 1 + 3 * Rmax 1 1e-6 /\
    Maml.forward Example.maml_policy Example.observation (fun _ => 3)
    = Ok (view_flat u, log_prob) /\
    shape log_prob = [] /\
    at_ log_prob 0
    = big_sum 2 (fun j =>
        gaussian_log_density (at_ mean (0 * 2 + j)) (Rmax 1 1e-6)
                             (at_ u (0 * 2 + j))).
Proof.
  destruct (maml_forward_stochastic 1 2 1 1 (Some 1e-6) None (fun _ _ => 0)
              [] Example.observation (fun _ => 3))
    as (mean & u & lp & Em & _ & _ & Hu & Ef & Sl & _ & Hl);
    try reflexivity; try lra.
  - intros l E. injection E as <-. lra.
  - discriminate.
  - left. discriminate.
  - exists mean, u, lp. split; [exact Em|]. split; [apply Hu; simpl; lia|].
    split; [exact Ef|]. split; [exact Sl|]. apply Hl. simpl. lia.
Defined.

(** X23.  In deterministic mode, for a policy as built by the constructor,
    [forward] returns the flattened network output, and as its
    log-probability one zero, whatever the batch. *)
Theorem maml_forward_mean (i o h : nat) (init : R) (lo hi : option R)
    (w0 : nat -> nat -> R) (s : list nat) (x : Tensor) (noise : nat -> R) :
  0 < init ->
  (forall l, lo = Some l -> 0 < l) -> (forall h', hi = Some h' -> 0 < h') ->
  lo <> None \/ hi <> None ->
  shape x = s ++ [i] -> wf x ->
  exists mean,
    Pearl.MLP_forward
      (Maml.base (Maml.GaussianPolicy_new i o h true init lo hi w0)) x
    = Ok mean /\
    shape mean = s ++ [o] /\
    Maml.forward (Maml.GaussianPolicy_new i o h true init lo hi w0) x noise
    = Ok (mkTensor [numel (s ++ [o])] (data mean), mkTensor [1%nat] [0]).
Proof.
  intros Hi Hlo Hhi Hb Sx Wx.
  destruct (get_normal_dist_new i o h true init lo hi w0 s x Hi Hlo Hhi Hb Sx Wx)
    as (mean & Em & Sm & Wm & Hpos & En).
  exists mean. split; [exact Em|]. split; [exact Sm|].
  unfold Maml.forward. rewrite En, bind_Ok. cbv beta iota.
  cbn [Maml.is_deterministic Maml.GaussianPolicy_new].
  rewrite bind_Ok. cbv beta iota. unfold view_flat. now rewrite Sm.
Qed.

Lemma maml_forward_mean_witness :
  exists mean,
    Maml.forward Example.maml_deterministic_policy Example.observation
                 (fun _ => 3)
    = Ok (mkTensor [2%nat] (data mean), mkTensor [1%nat] [0]).
Proof.
  destruct (maml_forward_mean 1 2 1 1 (Some 1e-6) None (fun _ _ => 0)
              [] Example.observation (fun _ => 3))
    as (mean & _ & _ & E); try reflexivity; try lra.
  - intros l E. injection E as <-. lra.
  - discriminate.
  - left. discriminate.
  - exists mean. exact E.
Defined.

(** X24.  The log-probability [forward] returns in stochastic mode is the
    one [get_log_prob] assigns to the sampled action under the same
    observation. *)
Theorem forward_log_prob_is_get_log_prob (self : Maml.GaussianPolicy)
    (x : Tensor) (noise : nat -> R) (action log_prob : Tensor) :
  Maml.is_deterministic self = false ->
  Maml.forward self x noise = Ok (action, log_prob) ->
  exists u,
    action = view_flat u /\
    Maml.get_log_prob self x u = Ok log_prob.
Proof.
  intros Hd. unfold Maml.forward, Maml.get_log_prob.
  destruct (Maml.get_normal_dist self x) as [[normal mean]|e]; [|discriminate].
  rewrite !bind_Ok. cbv beta iota. rewrite Hd.
  destruct (Normal.rsample normal noise) as [u|e]; [|discriminate].
  rewrite bind_Ok.
  destruct (Normal.log_prob normal u) as [lp|e] eqn:El; [|discriminate].
  rewrite !bind_Ok. cbv beta iota. intros E. injection E as <- <-.
  exists u. split; [reflexivity|].
  rewrite bind_Ok. cbv beta iota. now rewrite El.
Qed.

Lemma forward_log_prob_is_get_log_prob_witness :
  exists action log_prob u,
    Maml.forward Example.maml_policy Example.observation (fun _ => 3)
    = Ok (action, log_prob) /\
    action = view_flat u /\
    Maml.get_log_prob Example.maml_policy Example.observation u = Ok log_prob.
Proof.
  destruct (maml_forward_sample 1 2 1 1 (Some 1e-6) None (fun _ _ => 0)
              [] Example.observation (fun _ => 3))
    as (mean & u & lp & _ & _ & _ & _ & Ef & _);
    try reflexivity; try lra.
  - intros l E. injection E as <-. lra.
  - discriminate.
  - left. discriminate.
  - destruct (forward_log_prob_is_get_log_prob Example.maml_policy
                Example.observation (fun _ => 3) (view_flat u) lp eq_refl Ef)
      as (u' & Ea & El).
    exists (view_flat u), lp, u'. auto.
Defined.

End MamlFacts.

(** * Further properties of the trainer *)

Section TrainerRuns.
Import Trainer.
Local Open Scope string_scope.
Local Open Scope Z_scope.

Variables EnvParams SacParams Agent : Type.
Variables cheetah_dir_config cheetah_vel_config : Config EnvParams SacParams.
Variable envs : string -> option (EnvParams -> result Env).
Variable SAC : SACArgs SacParams -> result Agent.
Variable int : string -> result Z.
Variable cuda_is_available : bool.

(** X25.  No run of the trainer returns normally: every run ends in an
    exception.  On the way it creates at most one environment and then at
    most one agent, never an agent without an environment. *)
Theorem trainer_never_returns (args : Args) :
  exists tr e,
    trainer cheetah_dir_config cheetah_vel_config envs SAC int
            cuda_is_available args = (tr, Raise e) /\
    (tr = [] \/
     (exists name params, tr = [MakeEnv name params]) \/
     (exists name params kw, tr = [MakeEnv name params; NewSAC kw])).
Proof.
  unfold trainer.
  destruct (select_config _ _ args) as [config|];
    [|eexists; eexists; split; [reflexivity | now left]].
  unfold local, pure_ at 1, run_bind at 1.
  unfold lookup_env. destruct (envs (env_name config)) as [mk|];
    [|eexists; eexists; split; [reflexivity | now left]].
  unfold pure_ at 1, run_bind at 1. unfold call at 1, run_bind at 1.
  destruct (mk (env_params config)) as [e|];
    [|eexists; eexists; split; [reflexivity | right; left; do 2 eexists; reflexivity]].
  destruct (first (observation_space_shape e)) as [o|];
    [|eexists; eexists; split; [reflexivity | right; left; do 2 eexists; reflexivity]].
  unfold pure_ at 1, run_bind at 1.
  destruct (first (action_space_shape e)) as [a|];
    [|eexists; eexists; split; [reflexivity | right; left; do 2 eexists; reflexivity]].
  unfold pure_ at 1, run_bind at 1.
  destruct (mapM int _) as [hu|];
    [|eexists; eexists; split; [reflexivity | right; left; do 2 eexists; reflexivity]].
  unfold pure_ at 1, run_bind at 1. unfold call, run_bind, pure_.
  destruct (SAC _) as [agent|];
    (eexists; eexists; split; [reflexivity | right; right; do 3 eexists; reflexivity]).
Qed.

(** X26.  A configuration whose environment name is not in the table
    [envs] ends the run with a [KeyError] for that name, before anything
    is created. *)
Theorem trainer_missing_env (args : Args) (config : Config EnvParams SacParams) :
  select_config cheetah_dir_config cheetah_vel_config args = Some config ->
  envs (env_name config) = None ->
  trainer cheetah_dir_config cheetah_vel_config envs SAC int
          cuda_is_available args
  = ([], Raise (KeyError (env_name config))).
Proof.
  intros Ec Ee. unfold trainer. rewrite Ec.
  unfold local, pure_ at 1, run_bind at 1. unfold lookup_env. rewrite Ee.
  reflexivity.
Qed.

(** X27.  When the configuration is selected, the environment is created,
    the hidden-unit list parses and the agent is constructed, the run
    consists of exactly these two constructions, the agent receiving the
    dimensions of the environment, the configured latent size, the parsed
    hidden units, the encoder sizes derived from them, the device
    ([cuda] with the requested index when available, [cpu] otherwise) and
    the configured SAC parameters; it then ends in a [NameError], the name
    [MetaLearner] being unbound. *)
Theorem trainer_full_run (args : Args) (config : Config EnvParams SacParams)
    (mk : EnvParams -> result Env) (e : Env) (o a : Z) (ro ra hu : list Z)
    (agent : Agent) :
  select_config cheetah_dir_config cheetah_vel_config args = Some config ->
  envs (env_name config) = Some mk -> mk (env_params config) = Ok e ->
  observation_space_shape e = o :: ro -> action_space_shape e = a :: ra ->
  mapM int (split ","%char (hidden_units config)) = Ok hu ->
  SAC (mkSACArgs o a (latent_size config) hu (o + a + 1)
         (latent_size config * 2)
         (if cuda_is_available then Cuda (gpu_index args) else Cpu)
         (sac_params config)) = Ok agent ->
  trainer cheetah_dir_config cheetah_vel_config envs SAC int
          cuda_is_available args
  = ([MakeEnv (env_name config) (env_params config);
      NewSAC (mkSACArgs o a (latent_size config) hu (o + a + 1)
                (latent_size config * 2)
                (if cuda_is_available then Cuda (gpu_index args) else Cpu)
                (sac_params config))],
     Raise (NameError "MetaLearner")).
Proof.
  intros Ec Emk Ee Eo Ea Eh Es. unfold trainer.
  rewrite Ec. unfold local, pure_ at 1, run_bind at 1.
  unfold lookup_env. rewrite Emk.
  unfold pure_ at 1, run_bind at 1. unfold call at 1, run_bind at 1.
  rewrite Ee, Eo, Ea. unfold first.
  unfold pure_ at 1, run_bind at 1. unfold pure_ at 1, run_bind at 1.
  rewrite Eh. unfold pure_ at 1, run_bind at 1. unfold call, run_bind, pure_.
  rewrite Es. reflexivity.
Qed.

End TrainerRuns.

Lemma trainer_missing_env_witness :
  Trainer.trainer Example.dir_config Example.vel_config (fun _ => None)
                  Example.SAC Example.int false (Trainer.mkArgs "vel" 0)
  = ([], Raise (KeyError "cheetah-vel")).
Proof.
  apply (trainer_missing_env unit unit unit Example.dir_config
           Example.vel_config (fun _ => None) Example.SAC Example.int false
           (Trainer.mkArgs "vel" 0) Example.vel_config);
    reflexivity.
Defined.

Lemma trainer_full_run_witness :
  Trainer.trainer Example.dir_config Example.vel_config Example.envs
                  Example.SAC Example.int true (Trainer.mkArgs "dir" 1)
  = ([Trainer.MakeEnv "cheetah-dir" tt;
      Trainer.NewSAC
        (Trainer.mkSACArgs 20 6 5 [300; 300; 300] (20 + 6 + 1) (5 * 2)
           (Trainer.Cuda 1) tt)],
     Raise (NameError "MetaLearner"))%Z.
Proof.
  apply (trainer_full_run unit unit unit Example.dir_config
           Example.vel_config Example.envs Example.SAC Example.int true
           (Trainer.mkArgs "dir" 1) Example.dir_config
           (fun _ => Ok (Trainer.mkEnv [20%Z] [6%Z] []))
           (Trainer.mkEnv [20%Z] [6%Z] []) 20%Z 6%Z [] []
           [300%Z; 300%Z; 300%Z] tt);
    reflexivity.
Defined.
